(** * GeoRegistroBot: the live-share registry of [bot.py]

    A shallow embedding of the session-tracking core of [bot.py]: the
    in-memory registry [active_shares], its JSON snapshot ([save_state],
    [load_state]), the retry-guarded sheet append ([append_row_with_retry]),
    the two location handlers and the periodic clean-up job.

    Conventions.
    - Python text is a list of characters ([text]), a character being a
      code point below 256; Python [int] is [Z].
    - A Python value is a [value]; a [dict] with string keys is an ordered
      association list, the registry itself a [gmap] keyed by
      [(chat_id, message_id)].
    - Code that may raise returns a [res]; code with effects threads a
      [world] (registry, the two snapshot files, the sheet, the log).
    - What the outside decides (the clock, whether a sheet call or a file
      operation fails, the zone tables) is read from an [env]. *)

From Stdlib Require Import ZArith Lia Bool List Ascii String.
From stdpp Require Import base option list gmap.
Import ListNotations.

Open Scope Z_scope.

(** ** Text: the string operations the snapshot code relies on *)

Module Text.

Definition text := list ascii.

Definition is_digit (c : ascii) : bool :=
  let n := nat_of_ascii c in (48 <=? n)%nat && (n <=? 57)%nat.

Definition digit_val (c : ascii) : Z := Z.of_nat (nat_of_ascii c) - 48.

Definition digit_char (d : Z) : ascii := ascii_of_nat (Z.to_nat (48 + d)).

(** Characters that [str.strip()] treats as blank: tab to carriage return,
    the separators U+001C to U+001F, the space, U+0085 and U+00A0. *)
Definition is_space (c : ascii) : bool :=
  let n := nat_of_ascii c in
  ((9 <=? n)%nat && (n <=? 13)%nat) || ((28 <=? n)%nat && (n <=? 32)%nat) ||
  (n =? 133)%nat || (n =? 160)%nat.

(** Characters that [int()] skips around a literal: the same but for the
    separators U+001C to U+001F, which it refuses. *)
Definition is_int_space (c : ascii) : bool :=
  let n := nat_of_ascii c in
  ((9 <=? n)%nat && (n <=? 13)%nat) || (n =? 32)%nat ||
  (n =? 133)%nat || (n =? 160)%nat.

Definition ch_eqb (a b : ascii) : bool := Ascii.eqb a b.

(** Value of a run of decimal digits read left to right from [acc]. *)
Definition digits_value (acc : Z) (ds : text) : Z :=
  fold_left (fun a c => a * 10 + digit_val c) ds acc.

(** Decimal digits of a non-negative integer, most significant first. *)
Fixpoint dec_go (fuel : nat) (n : Z) (acc : text) : text :=
  match fuel with
  | O => acc
  | S f =>
      let acc' := digit_char (n mod 10) :: acc in
      if n <? 10 then acc' else dec_go f (n / 10) acc'
  end.

Definition dec (n : Z) : text := dec_go (S (Z.to_nat (Z.log2 n))) n [].

(** [f"{n}"] for an [int]. *)
Definition str_of_int (n : Z) : text :=
  if n <? 0 then "-"%char :: dec (- n) else dec n.

(** Exactly [w] digits, as ["%0wd" % n] prints a value below [10^w]. *)
Fixpoint fixed (w : nat) (n : Z) : text :=
  match w with
  | O => []
  | S w' => fixed w' (n / 10) ++ [digit_char (n mod 10)]
  end.

(** ["%0wd" % n] for [0 <= n]: zero padded to width [w], never truncated. *)
Definition pad (w : nat) (n : Z) : text :=
  if n <? 10 ^ Z.of_nat w then fixed w n else dec n.

(** Reads exactly [w] digits. *)
Fixpoint parse_digits (w : nat) (acc : Z) (s : text) : option (Z * text) :=
  match w with
  | O => Some (acc, s)
  | S w' =>
      match s with
      | c :: r => if is_digit c then parse_digits w' (acc * 10 + digit_val c) r
                  else None
      | [] => None
      end
  end.

Fixpoint drop_spaces (s : text) : text :=
  match s with
  | c :: r => if is_space c then drop_spaces r else s
  | [] => []
  end.

(** [s.strip()] *)
Definition strip (s : text) : text :=
  rev (drop_spaces (rev (drop_spaces s))).

(** The digits of an [int()] literal: at least one digit, single
    underscores allowed between digits only. *)
Fixpoint int_body (acc : Z) (after_digit : bool) (s : text) : option Z :=
  match s with
  | [] => if after_digit then Some acc else None
  | c :: r =>
      if is_digit c then int_body (acc * 10 + digit_val c) true r
      else if ch_eqb c "_" then
             (if after_digit then int_body acc false r else None)
      else None
  end.

Fixpoint drop_int_spaces (s : text) : text :=
  match s with
  | c :: r => if is_int_space c then drop_int_spaces r else s
  | [] => []
  end.

(** [int(s)] in base ten; [None] is [ValueError]. Among the characters of
    [text] the decimal digits are the ASCII ones. The limit that the
    interpreter puts on the number of digits (4300) is not modelled. *)
Definition int_of_str (s : text) : option Z :=
  match rev (drop_int_spaces (rev (drop_int_spaces s))) with
  | "-"%char :: r => option_map Z.opp (int_body 0 false r)
  | "+"%char :: r => int_body 0 false r
  | r => int_body 0 false r
  end.

(** [s.split(sep)] for a one-character separator. *)
Fixpoint split_on (sep : ascii) (cur : text) (s : text) : list text :=
  match s with
  | [] => [rev cur]
  | c :: r => if ch_eqb c sep then rev cur :: split_on sep [] r
              else split_on sep (c :: cur) r
  end.

Definition split (sep : ascii) (s : text) : list text := split_on sep [] s.

Fixpoint is_prefix (p s : text) : bool :=
  match p, s with
  | [], _ => true
  | a :: p', b :: s' => ch_eqb a b && is_prefix p' s'
  | _ :: _, [] => false
  end.

(** [p in s] for two strings. *)
Fixpoint is_substring (p s : text) : bool :=
  is_prefix p s ||
  match s with
  | [] => false
  | _ :: r => is_substring p r
  end.

End Text.

Import Text.

(** ** Exceptions and results *)

Inductive exn :=
| ValueError | KeyError | TypeError | AttributeError | OverflowError
| OSError | FileNotFoundError | JSONDecodeError.

(** [subclass e c]: an exception [e] is caught by [except c]. [IOError] is
    [OSError]; [FileNotFoundError] derives from it, [JSONDecodeError] from
    [ValueError]. *)
Definition subclass (e c : exn) : bool :=
  match e, c with
  | ValueError, ValueError | KeyError, KeyError | TypeError, TypeError
  | AttributeError, AttributeError | OverflowError, OverflowError
  | OSError, OSError | FileNotFoundError, FileNotFoundError
  | JSONDecodeError, JSONDecodeError
  | FileNotFoundError, OSError | JSONDecodeError, ValueError => true
  | _, _ => false
  end.

Definition caught_by (e : exn) (cs : list exn) : bool :=
  existsb (subclass e) cs.

Inductive res (A : Type) :=
| Ok (a : A)
| Raise (e : exn).
Arguments Ok {A} a.
Arguments Raise {A} e.

Global Instance res_ret : MRet res := fun A a => Ok a.
Global Instance res_bind : MBind res := fun A B k r =>
  match r with
  | Ok a => k a
  | Raise e => Raise e
  end.

Definition of_option {A} (e : exn) (o : option A) : res A :=
  match o with
  | Some a => Ok a
  | None => Raise e
  end.

(** ** Dates and times *)

Module Datetime.

(** A [datetime.datetime]. [tzinfo] is the UTC offset of the attached zone
    in microseconds ([None] for a naive value, [Some 0] for UTC). *)
Record datetime := mk_datetime {
  year : Z; month : Z; day : Z;
  hour : Z; minute : Z; second : Z; microsecond : Z;
  tzinfo : option Z
}.

Definition us_per_second : Z := 1000000.
Definition us_per_minute : Z := 60 * us_per_second.
Definition us_per_hour : Z := 60 * us_per_minute.
Definition us_per_day : Z := 24 * us_per_hour.

Definition is_leap (y : Z) : bool :=
  (y mod 4 =? 0) && (negb (y mod 100 =? 0) || (y mod 400 =? 0)).

Definition days_in_month (y m : Z) : Z :=
  if m =? 2 then (if is_leap y then 29 else 28)
  else if (m =? 4) || (m =? 6) || (m =? 9) || (m =? 11) then 30
  else 31.

Definition days_before_year (y : Z) : Z :=
  let p := y - 1 in p * 365 + p / 4 - p / 100 + p / 400.

Fixpoint days_before_month_go (y : Z) (n : nat) : Z :=
  match n with
  | O => 0
  | S k => days_before_month_go y k + days_in_month y (Z.of_nat (S k))
  end.

Definition days_before_month (y m : Z) : Z :=
  days_before_month_go y (Z.to_nat (m - 1)).

(** [date.toordinal()]: 1 January of year 1 is day 1. *)
Definition ymd2ord (y m d : Z) : Z :=
  days_before_year y + days_before_month y m + d.

Definition in_range (lo x hi : Z) : bool := (lo <=? x) && (x <=? hi).

(** The checks of the [datetime] and [timezone] constructors. *)
Definition valid (d : datetime) : bool :=
  in_range 1 (year d) 9999 && in_range 1 (month d) 12 &&
  in_range 1 (day d) (days_in_month (year d) (month d)) &&
  in_range 0 (hour d) 23 && in_range 0 (minute d) 59 &&
  in_range 0 (second d) 59 && in_range 0 (microsecond d) 999999 &&
  match tzinfo d with
  | Some off => (- us_per_day <? off) && (off <? us_per_day)
  | None => true
  end.

Definition is_utc (d : datetime) : bool :=
  match tzinfo d with
  | Some off => off =? 0
  | None => false
  end.

(** Microseconds since midnight, on the value's own clock. *)
Definition time_of_day (d : datetime) : Z :=
  ((hour d * 60 + minute d) * 60 + second d) * us_per_second + microsecond d.

(** Microseconds from the start of day 0 of the proleptic calendar, on the
    value's own clock. *)
Definition wall_micros (d : datetime) : Z :=
  ymd2ord (year d) (month d) (day d) * us_per_day + time_of_day d.

(** The instant an aware value denotes, in microseconds on the UTC clock. *)
Definition utc_micros (d : datetime) : Z :=
  wall_micros d - match tzinfo d with Some off => off | None => 0 end.

Definition next_day (c : Z * Z * Z) : option (Z * Z * Z) :=
  let '(y, m, d) := c in
  if d <? days_in_month y m then Some (y, m, d + 1)
  else if m <? 12 then Some (y, m + 1, 1)
  else if y <? 9999 then Some (y + 1, 1, 1)
  else None.

Definition prev_day (c : Z * Z * Z) : option (Z * Z * Z) :=
  let '(y, m, d) := c in
  if 1 <? d then Some (y, m, d - 1)
  else if 1 <? m then Some (y, m - 1, days_in_month y (m - 1))
  else if 1 <? y then Some (y - 1, 12, 31)
  else None.

Fixpoint step_days (f : Z * Z * Z -> option (Z * Z * Z)) (n : nat)
    (c : Z * Z * Z) : option (Z * Z * Z) :=
  match n with
  | O => Some c
  | S k => match f c with
           | Some c' => step_days f k c'
           | None => None
           end
  end.

(** Calendar date [q] days after [c] ([q] may be negative); [None] when
    the result leaves years 1..9999. *)
Definition add_days (c : Z * Z * Z) (q : Z) : option (Z * Z * Z) :=
  if 0 <=? q then step_days next_day (Z.to_nat q) c
  else step_days prev_day (Z.to_nat (- q)) c.

(** [(d + timedelta(microseconds=delta)).replace(tzinfo=tz)]; a result
    outside years 1..9999 is [OverflowError]. *)
Definition add_micros (d : datetime) (delta : Z) (tz : option Z)
    : res datetime :=
  let t := time_of_day d + delta in
  let r := t mod us_per_day in
  match add_days (year d, month d, day d) (t / us_per_day) with
  | Some (y, m, dd) =>
      Ok {| year := y; month := m; day := dd;
            hour := r / us_per_hour;
            minute := (r mod us_per_hour) / us_per_minute;
            second := (r mod us_per_minute) / us_per_second;
            microsecond := r mod us_per_second;
            tzinfo := tz |}
  | None => Raise OverflowError
  end.

(** [d.astimezone(tz)] for a zone [tz] of fixed offset [target] at the
    resulting instant. A naive [d] is read on the local clock, whose offset
    [local d] the platform supplies. *)
Definition astimezone (local : datetime -> Z) (d : datetime) (target : Z)
    : res datetime :=
  let off := match tzinfo d with Some o => o | None => local d end in
  add_micros d (target - off) (Some target).

(** [UTC_TZ.localize(d)] of pytz: attaches UTC to a naive value, refuses an
    aware one. *)
Definition localize_utc (d : datetime) : res datetime :=
  match tzinfo d with
  | None => Ok {| year := year d; month := month d; day := day d;
                  hour := hour d; minute := minute d; second := second d;
                  microsecond := microsecond d; tzinfo := Some 0 |}
  | Some _ => Raise ValueError
  end.

(** [a - b] as a [timedelta], in microseconds. Mixing naive and aware
    operands is a [TypeError]. *)
Definition sub (a b : datetime) : res Z :=
  match tzinfo a, tzinfo b with
  | Some _, Some _ => Ok (utc_micros a - utc_micros b)
  | None, None => Ok (wall_micros a - wall_micros b)
  | _, _ => Raise TypeError
  end.

(** [timedelta(hours=h)]; beyond 999999999 days it is [OverflowError]. *)
Definition timedelta_hours (h : Z) : res Z :=
  let us := h * us_per_hour in
  if (- 999999999 * us_per_day <=? us) && (us <? 1000000000 * us_per_day)
  then Ok us else Raise OverflowError.

(** *** ISO 8601 text *)

Definition format_offset (off : Z) : text :=
  let sign := if off <? 0 then "-"%char else "+"%char in
  let a := Z.abs off in
  let hh := a / us_per_hour in
  let rest := a mod us_per_hour in
  let mm := rest / us_per_minute in
  let ss := rest mod us_per_minute in
  sign :: pad 2 hh ++ ":"%char :: pad 2 mm ++
  (if ss =? 0 then []
   else ":"%char :: pad 2 (ss / us_per_second) ++
        (if ss mod us_per_second =? 0 then []
         else "."%char :: pad 6 (ss mod us_per_second))).

(** [d.isoformat()] *)
Definition isoformat (d : datetime) : text :=
  pad 4 (year d) ++ "-"%char :: pad 2 (month d) ++ "-"%char :: pad 2 (day d) ++
  "T"%char :: pad 2 (hour d) ++ ":"%char :: pad 2 (minute d) ++
  ":"%char :: pad 2 (second d) ++
  (if microsecond d =? 0 then [] else "."%char :: pad 6 (microsecond d)) ++
  match tzinfo d with
  | Some off => format_offset off
  | None => []
  end.

Definition expect (c : ascii) (s : text) : option text :=
  match s with
  | x :: r => if ch_eqb x c then Some r else None
  | [] => None
  end.

Definition parse_date (s : text) : option (Z * Z * Z * text) :=
  '(y, s1) ← parse_digits 4 0 s;
  s2 ← expect "-" s1;
  '(m, s3) ← parse_digits 2 0 s2;
  s4 ← expect "-" s3;
  '(d, s5) ← parse_digits 2 0 s4;
  Some (y, m, d, s5).

(** [.ffffff] or [.fff] after the dot. *)
Definition parse_fraction (s : text) : option (Z * text) :=
  match parse_digits 6 0 s with
  | Some r => Some r
  | None => '(f, r) ← parse_digits 3 0 s; Some (f * 1000, r)
  end.

(** [HH[:MM[:SS[.fff[fff]]]]]; returns what follows. *)
Definition parse_clock (s : text) : option (Z * Z * Z * Z * text) :=
  '(h, s1) ← parse_digits 2 0 s;
  match s1 with
  | ":"%char :: s2 =>
      '(m, s3) ← parse_digits 2 0 s2;
      match s3 with
      | ":"%char :: s4 =>
          '(sec, s5) ← parse_digits 2 0 s4;
          match s5 with
          | "."%char :: s6 =>
              '(f, s7) ← parse_fraction s6; Some (h, m, sec, f, s7)
          | _ => Some (h, m, sec, 0, s5)
          end
      | _ => Some (h, m, 0, 0, s3)
      end
  | _ => Some (h, 0, 0, 0, s1)
  end.

(** The offset after its sign: [HH:MM[:SS[.ffffff]]] and nothing else. *)
Definition parse_offset (s : text) : option Z :=
  '(h, s1) ← parse_digits 2 0 s;
  s2 ← expect ":" s1;
  '(m, s3) ← parse_digits 2 0 s2;
  match s3 with
  | [] => Some ((h * 3600 + m * 60) * us_per_second)
  | ":"%char :: s4 =>
      '(sec, s5) ← parse_digits 2 0 s4;
      match s5 with
      | [] => Some ((h * 3600 + m * 60 + sec) * us_per_second)
      | "."%char :: s6 =>
          '(f, s7) ← parse_digits 6 0 s6;
          match s7 with
          | [] => Some ((h * 3600 + m * 60 + sec) * us_per_second + f)
          | _ => None
          end
      | _ => None
      end
  | _ => None
  end.

Definition parse_zone (s : text) : option (option Z) :=
  match s with
  | [] => Some None
  | "+"%char :: r => off ← parse_offset r; Some (Some off)
  | "-"%char :: r => off ← parse_offset r; Some (Some (- off))
  | _ => None
  end.

Definition checked (d : datetime) : option datetime :=
  if valid d then Some d else None.

(** [datetime.fromisoformat(s)] on the layout [isoformat] writes,
    [YYYY-MM-DD[*HH[:MM[:SS[.fff[fff]]]][+HH:MM[:SS[.ffffff]]]]], which
    every version of the library reads; [None] is [ValueError]. The other
    forms of ISO 8601 that later versions of the library read as well (a
    final [Z], dates without dashes, weeks) are not modelled: for them
    [None] says nothing about the code. *)
Definition fromisoformat (s : text) : option datetime :=
  '(y, m, d, s1) ← parse_date s;
  match s1 with
  | [] => checked (mk_datetime y m d 0 0 0 0 None)
  | _ :: s2 =>
      '(h, mi, sec, us, s3) ← parse_clock s2;
      tz ← parse_zone s3;
      checked (mk_datetime y m d h mi sec us tz)
  end.

End Datetime.

Import Datetime.

(** ** Python values *)

#[warnings="-register-all"]
Inductive value :=
| VNone
| VBool (b : bool)
| VInt (n : Z)
| VStr (s : text)
| VDatetime (d : datetime)
| VList (l : list value)
| VDict (l : list (text * value)).

Definition T (s : string) : text := list_ascii_of_string s.

Fixpoint text_eqb (a b : text) : bool :=
  match a, b with
  | [], [] => true
  | x :: a', y :: b' => ch_eqb x y && text_eqb a' b'
  | _, _ => false
  end.

(** A [dict] with string keys: insertion ordered, one entry per key. *)
Definition dict := list (text * value).

Fixpoint dict_get (k : text) (l : dict) : option value :=
  match l with
  | [] => None
  | (k', v) :: r => if text_eqb k k' then Some v else dict_get k r
  end.

(** [l[k] = v]: replaces in place, or appends a new key. *)
Fixpoint dict_set (k : text) (v : value) (l : dict) : dict :=
  match l with
  | [] => [(k, v)]
  | (k', v') :: r =>
      if text_eqb k k' then (k, v) :: r else (k', v') :: dict_set k v r
  end.

(** [bool(v)] *)
Definition truthy (v : value) : bool :=
  match v with
  | VNone => false
  | VBool b => b
  | VInt n => negb (n =? 0)
  | VStr s => match s with [] => false | _ => true end
  | VDatetime _ => true
  | VList l => match l with [] => false | _ => true end
  | VDict l => match l with [] => false | _ => true end
  end.

Definition is_str (k : text) (v : value) : bool :=
  match v with
  | VStr s => text_eqb s k
  | _ => false
  end.

(** [k in v] for a string [k]. *)
Definition py_contains (k : text) (v : value) : res bool :=
  match v with
  | VDict l => Ok (match dict_get k l with Some _ => true | None => false end)
  | VList l => Ok (existsb (is_str k) l)
  | VStr s => Ok (is_substring k s)
  | VNone | VBool _ | VInt _ | VDatetime _ => Raise TypeError
  end.

(** [v[k]] for a string [k]. *)
Definition py_getitem (k : text) (v : value) : res value :=
  match v with
  | VDict l => of_option KeyError (dict_get k l)
  | _ => Raise TypeError
  end.

(** [v[k] = x] for a string [k]. *)
Definition py_setitem (k : text) (x : value) (v : value) : res value :=
  match v with
  | VDict l => Ok (VDict (dict_set k x l))
  | _ => Raise TypeError
  end.

(** [v.get(k, default)] *)
Definition py_get (k : text) (default : value) (v : value) : res value :=
  match v with
  | VDict l => Ok (match dict_get k l with Some x => x | None => default end)
  | _ => Raise AttributeError
  end.

(** [v.items()] *)
Definition py_items (v : value) : res dict :=
  match v with
  | VDict l => Ok l
  | _ => Raise AttributeError
  end.

(** What [json.dump] accepts: no [datetime] anywhere. *)
Fixpoint json_ok (v : value) : bool :=
  match v with
  | VNone | VBool _ | VInt _ | VStr _ => true
  | VDatetime _ => false
  | VList l => forallb json_ok l
  | VDict l => forallb (fun kv => json_ok (snd kv)) l
  end.

Definition k_user_id : text := T "user_id".
Definition k_username : text := T "username".
Definition k_start_time : text := T "start_time".
Definition k_last_update : text := T "last_update".

(** The registry: [active_shares], keyed by [(chat_id, message_id)]. *)
Abbreviation share_key := (Z * Z)%type.
Abbreviation registry := (gmap share_key value).

(** ** The outside world *)

(** Contents of a file as [json.load] sees it. *)
Inductive content :=
| Doc (v : value)        (** the complete JSON text of [v] *)
| Partial (v : value)    (** a proper prefix of the JSON text of [v] *)
| Junk (s : text).       (** any other text that is not JSON *)

Inductive api_outcome :=
| ApiOk
| ApiError (status : Z)  (** [gspread.exceptions.APIError] with this status *)
| ApiFault.              (** any other exception *)

Inductive setup_outcome :=
| SetupOk
| SetupBadHeaders        (** returns [False], the globals keep their values *)
| SetupFailed.           (** returns [False], the globals are reset *)

(** Which file operations of one [save_state] call fail. *)
Record io_plan := mk_io_plan {
  open_fails : bool;
  write_fails : bool;
  close_fails : bool;
  replace_fails : bool;
  remove_fails : bool
}.

Definition io_fine : io_plan := mk_io_plan false false false false false.

Record env := mk_env {
  e_append : nat -> api_outcome;   (** answer to the n-th [append_row] *)
  e_probe : nat -> bool;           (** the n-th [acell] probe succeeds *)
  e_setup : nat -> setup_outcome;  (** the n-th [setup_google_sheets] *)
  e_save_io : nat -> io_plan;      (** faults of the n-th [save_state] *)
  e_load_fault : bool;             (** reading the snapshot hits an I/O error *)
  e_local_offset : datetime -> Z;  (** UTC offset of the local zone *)
  e_br_offset : Z -> Z;            (** offset of [BR_TZ] at a UTC instant *)
  MAX_INACTIVE_HOURS : Z
}.

Inductive level := DEBUG | INFO | WARNING | ERROR.

Inductive msg :=
| MSaveTry | MSavePrepFailed (e : exn) | MSaveOk (n : nat)
| MSaveIOError | MSaveUnexpected (e : exn)
| MTmpRemoved | MTmpRemoveFailed
| MLoadTry | MLoadSkipped (k : text) (e : exn) | MLoadOk (n : nat)
| MLoadNoFile | MLoadBadJson | MLoadUnexpected (e : exn)
| MWsValid | MWsInvalid | MWsConnecting | MWsRetry (attempt : Z) | MWsGiveUp
| MAppendNoWorksheet | MAppendOk | MAppendApiError (attempt : Z) (status : Z)
| MAppendRetrying | MAppendNoWorksheetRetry | MAppendGaveUp
| MAppendNotRecoverable (status : Z) | MAppendUnexpected (attempt : Z)
| MLocIgnored | MOpenOverwrite (k : share_key) | MOpenStarted (k : share_key)
| MLocNotLive
| MEditIgnored | MEditVanished (k : share_key) | MCloseDetected (k : share_key)
| MCloseLedgerFailed (k : share_key) | MCloseRemoved (k : share_key)
| MHeartbeat (k : share_key) | MHeartbeatVanished (k : share_key)
| MEditUnknown (k : share_key)
| MJobStart | MJobMark (k : share_key) | MJobKeyGone (k : share_key)
| MJobCheckError (k : share_key) (e : exn)
| MJobDone (removed : nat) | MJobNothing.

Inductive file_op := OpOpen | OpWrite | OpClose | OpReplace | OpRemove.

Inductive event :=
| ELog (l : level) (m : msg)
| EAppendRow (row : list value) (o : api_outcome)
| EProbe (ok : bool)
| ESetup (o : setup_outcome)
| ESleep (seconds : Z)
(** a file operation of [save_state], whether it succeeded, and what the
    canonical path holds once it is over *)
| EFile (op : file_op) (ok : bool) (canonical : option content).

Record world := mk_world {
  active_shares : registry;
  state_file : option content;   (** [STATE_FILENAME] *)
  temp_file : option content;    (** [STATE_FILENAME + ".tmp"] *)
  sheet : list (list value);     (** the rows of the worksheet *)
  gs_connected : bool;           (** [gs_client] and [gs_worksheet] are set *)
  n_append : nat;
  n_probe : nat;
  n_setup : nat;
  n_save : nat;
  journal : list event           (** everything observable, oldest first *)
}.

Definition set_active_shares (r : registry) (w : world) : world :=
  mk_world r (state_file w) (temp_file w) (sheet w) (gs_connected w)
    (n_append w) (n_probe w) (n_setup w) (n_save w) (journal w).
Definition set_state_file (c : option content) (w : world) : world :=
  mk_world (active_shares w) c (temp_file w) (sheet w) (gs_connected w)
    (n_append w) (n_probe w) (n_setup w) (n_save w) (journal w).
Definition set_temp_file (c : option content) (w : world) : world :=
  mk_world (active_shares w) (state_file w) c (sheet w) (gs_connected w)
    (n_append w) (n_probe w) (n_setup w) (n_save w) (journal w).
Definition set_sheet (s : list (list value)) (w : world) : world :=
  mk_world (active_shares w) (state_file w) (temp_file w) s (gs_connected w)
    (n_append w) (n_probe w) (n_setup w) (n_save w) (journal w).
Definition set_gs_connected (b : bool) (w : world) : world :=
  mk_world (active_shares w) (state_file w) (temp_file w) (sheet w) b
    (n_append w) (n_probe w) (n_setup w) (n_save w) (journal w).
Definition set_n_append (n : nat) (w : world) : world :=
  mk_world (active_shares w) (state_file w) (temp_file w) (sheet w)
    (gs_connected w) n (n_probe w) (n_setup w) (n_save w) (journal w).
Definition set_n_probe (n : nat) (w : world) : world :=
  mk_world (active_shares w) (state_file w) (temp_file w) (sheet w)
    (gs_connected w) (n_append w) n (n_setup w) (n_save w) (journal w).
Definition set_n_setup (n : nat) (w : world) : world :=
  mk_world (active_shares w) (state_file w) (temp_file w) (sheet w)
    (gs_connected w) (n_append w) (n_probe w) n (n_save w) (journal w).
Definition set_n_save (n : nat) (w : world) : world :=
  mk_world (active_shares w) (state_file w) (temp_file w) (sheet w)
    (gs_connected w) (n_append w) (n_probe w) (n_setup w) n (journal w).
Definition set_journal (j : list event) (w : world) : world :=
  mk_world (active_shares w) (state_file w) (temp_file w) (sheet w)
    (gs_connected w) (n_append w) (n_probe w) (n_setup w) (n_save w) j.

(** ** The monad of the handlers: state, and exceptions that keep it *)

Definition M (A : Type) : Type := world -> res A * world.

Global Instance M_ret : MRet M := fun A a w => (Ok a, w).
Global Instance M_bind : MBind M := fun A B k m w =>
  match m w with
  | (Ok a, w') => k a w'
  | (Raise e, w') => (Raise e, w')
  end.

Definition raise {A} (e : exn) : M A := fun w => (Raise e, w).
Definition lift {A} (r : res A) : M A := fun w => (r, w).
Definition gets {A} (f : world -> A) : M A := fun w => (Ok (f w), w).
Definition modify (f : world -> world) : M unit := fun w => (Ok tt, f w).

(** [try: m  except: h] *)
Definition catch {A} (m : M A) (h : exn -> M A) : M A := fun w =>
  match m w with
  | (Raise e, w') => h e w'
  | r => r
  end.

(** [try: m  finally: f] *)
Definition finally {A} (m : M A) (f : M unit) : M A := fun w =>
  match m w with
  | (r, w') =>
      match f w' with
      | (Ok _, w'') => (r, w'')
      | (Raise e, w'') => (Raise e, w'')
      end
  end.

Definition emit (e : event) : M unit :=
  modify (fun w => set_journal (journal w ++ [e]) w).

Definition log (l : level) (m : msg) : M unit := emit (ELog l m).

(** ** The program *)

Section Bot.

Context (E : env).

(** *** Snapshot: [save_state] *)

(** [f"{key_tuple[0]}:{key_tuple[1]}"] *)
Definition str_key (k : share_key) : text :=
  str_of_int (fst k) ++ ":"%char :: str_of_int (snd k).

(** One timestamp attribute of a copied session, turned into ISO text when
    it is a [datetime]. *)
Definition stringify_field (k : text) (v : value) : res value :=
  has ← py_contains k v;
  if has : bool then
    x ← py_getitem k v;
    match x with
    | VDatetime d => py_setitem k (VStr (isoformat d)) v
    | _ => Ok v
    end
  else Ok v.

Definition prepare_entry (kv : share_key * value) : res (text * value) :=
  v1 ← stringify_field k_start_time (snd kv);
  v2 ← stringify_field k_last_update v1;
  Ok (str_key (fst kv), v2).

(** The first [try] block of [save_state], over the items of the deep
    copy: the dictionary [data_to_save]. *)
Fixpoint prepare_items (items : list (share_key * value)) (acc : dict)
    : res dict :=
  match items with
  | [] => Ok acc
  | kv :: r =>
      '(k, v) ← prepare_entry kv;
      prepare_items r (dict_set k v acc)
  end.

Definition prepare (data : registry) : res dict :=
  prepare_items (map_to_list data) [].

Definition file_event (op : file_op) (ok : bool) : M unit :=
  c ← gets state_file; emit (EFile op ok c).

(** [open(temp_filename, 'w')]: creates or empties the temporary file. *)
Definition open_temp (p : io_plan) (v : value) : M unit :=
  if open_fails p then file_event OpOpen false;; raise OSError
  else modify (set_temp_file (Some (Partial v)));; file_event OpOpen true.

(** [json.dump(data_to_save, f)] into the open temporary file. *)
Definition dump_temp (p : io_plan) (v : value) : M unit :=
  if negb (json_ok v) then file_event OpWrite false;; raise TypeError
  else if write_fails p then file_event OpWrite false;; raise OSError
  else modify (set_temp_file (Some (Doc v)));; file_event OpWrite true.

(** Leaving the [with] block closes the file, on every path. *)
Definition close_temp (p : io_plan) (v : value) : M unit :=
  if close_fails p
  then modify (set_temp_file (Some (Partial v)));;
       file_event OpClose false;; raise OSError
  else file_event OpClose true.

(** [os.replace(temp_filename, filename)]: all or nothing. *)
Definition replace_temp (p : io_plan) : M unit :=
  if replace_fails p then file_event OpReplace false;; raise OSError
  else
    t ← gets temp_file;
    modify (set_state_file t);; modify (set_temp_file None);;
    file_event OpReplace true.

(** The [finally] clause: the temporary file is removed when it is still
    there; a failure to remove it is logged. *)
Definition remove_temp (p : io_plan) : M unit :=
  t ← gets temp_file;
  match t with
  | None => mret tt
  | Some _ =>
      if remove_fails p
      then file_event OpRemove false;; log ERROR MTmpRemoveFailed
      else modify (set_temp_file None);; file_event OpRemove true;;
           log DEBUG MTmpRemoved
  end.

(** Leaving the [with] block: the file is closed whether the body raised
    or not; an exception raised by the close replaces the body's. *)
Definition closing (p : io_plan) (v : value) (body : M unit) : M unit :=
  fun w =>
    match body w with
    | (Ok _, w1) => close_temp p v w1
    | (Raise e, w1) =>
        match close_temp p v w1 with
        | (Ok _, w2) => (Raise e, w2)
        | (Raise e', w2) => (Raise e', w2)
        end
    end.

(** The [with] statement: the body runs once the file is open. *)
Definition with_temp (p : io_plan) (v : value) (body : M unit) : M unit :=
  open_temp p v;; closing p v body.

Definition write_snapshot (p : io_plan) (d : dict) : M unit :=
  with_temp p (VDict d) (dump_temp p (VDict d));;
  replace_temp p;;
  log INFO (MSaveOk (length d)).

Definition save_state (data : registry) : M unit :=
  log DEBUG MSaveTry;;
  match prepare data with
  | Raise e => log ERROR (MSavePrepFailed e)
  | Ok d =>
      n ← gets n_save;
      modify (set_n_save (S n));;
      let p := e_save_io E n in
      finally
        (catch (write_snapshot p d)
           (fun e => if subclass e OSError then log ERROR MSaveIOError
                     else log ERROR (MSaveUnexpected e)))
        (remove_temp p)
  end.

(** *** Snapshot: [load_state] *)

(** [open(filename)] and [json.load]. *)
Definition read_json : M value :=
  f ← gets state_file;
  match f with
  | None => raise FileNotFoundError
  | Some c =>
      if e_load_fault E then raise OSError
      else match c with
           | Doc v => mret v
           | Partial _ | Junk _ => raise JSONDecodeError
           end
  end.

(** One timestamp attribute of a loaded entry: ISO text becomes an aware
    [datetime] in UTC. *)
Definition restore_field (k : text) (v : value) : res value :=
  has ← py_contains k v;
  if has : bool then
    x ← py_getitem k v;
    match x with
    | VStr s =>
        d ← of_option ValueError (fromisoformat s);
        u ← astimezone (e_local_offset E) d 0;
        py_setitem k (VDatetime u) v
    | _ => Ok v
    end
  else Ok v.

(** The body of the inner [try] of [load_state]. *)
Definition restore_entry (kv : text * value) : res (share_key * value) :=
  match split ":" (fst kv) with
  | [chat_id_str; message_id_str] =>
      chat ← of_option ValueError (int_of_str chat_id_str);
      message ← of_option ValueError (int_of_str message_id_str);
      v1 ← restore_field k_start_time (snd kv);
      v2 ← restore_field k_last_update v1;
      Ok ((chat, message), v2)
  | _ => Raise ValueError
  end.

Fixpoint restore_items (items : dict) (state_data : registry) : M registry :=
  match items with
  | [] => mret state_data
  | kv :: r =>
      match restore_entry kv with
      | Ok (k, v) => restore_items r (<[k := v]> state_data)
      | Raise e =>
          if caught_by e [ValueError; KeyError; TypeError]
          then log WARNING (MLoadSkipped (fst kv) e);;
               restore_items r state_data
          else raise e
      end
  end.

Definition load_state : M registry :=
  log INFO MLoadTry;;
  catch
    (loaded_data ← read_json;
     items ← lift (py_items loaded_data);
     state_data ← restore_items items ∅;
     log INFO (MLoadOk (size state_data));;
     mret state_data)
    (fun e =>
       if subclass e FileNotFoundError then log INFO MLoadNoFile;; mret ∅
       else if subclass e JSONDecodeError then log ERROR MLoadBadJson;; mret ∅
       else log ERROR (MLoadUnexpected e);; mret ∅).

(** [active_shares = load_state(STATE_FILENAME)] in [main]. *)
Definition startup : M unit :=
  r ← load_state; modify (set_active_shares r).

(** *** The sheet: [get_worksheet_with_retry], [append_row_with_retry] *)

Definition setup_google_sheets : M bool :=
  n ← gets n_setup;
  modify (set_n_setup (S n));;
  let o := e_setup E n in
  emit (ESetup o);;
  match o with
  | SetupOk => modify (set_gs_connected true);; mret true
  | SetupBadHeaders => mret false
  | SetupFailed => modify (set_gs_connected false);; mret false
  end.

(** [time.sleep(seconds)], which refuses a negative length. (It also
    refuses one too long for the clock of the C library, some centuries;
    that is not modelled.) *)
Definition sleep (seconds : Z) : M unit :=
  if seconds <? 0 then raise ValueError else emit (ESleep seconds).

(** The [for attempt in range(max_retries + 1)] loop of
    [get_worksheet_with_retry]; [remaining] counts the iterations left. *)
Fixpoint connect_loop (max_retries delay : Z) (remaining : nat) (attempt : Z)
    : M bool :=
  match remaining with
  | O => log ERROR MWsGiveUp;; mret false
  | S rem =>
      ok ← setup_google_sheets;
      if ok : bool then mret true
      else
        (if attempt <? max_retries
         then log WARNING (MWsRetry attempt);; sleep delay
         else mret tt);;
        connect_loop max_retries delay rem (attempt + 1)
  end.

(** Whether the cached worksheet passes the [acell] probe. *)
Definition probe_worksheet : M bool :=
  c ← gets gs_connected;
  if c : bool then
    n ← gets n_probe;
    modify (set_n_probe (S n));;
    emit (EProbe (e_probe E n));;
    if e_probe E n then log DEBUG MWsValid;; mret true
    else log WARNING MWsInvalid;; modify (set_gs_connected false);; mret false
  else mret false.

(** Returns whether a worksheet was obtained ([None] is [false]). *)
Definition get_worksheet_with_retry (max_retries delay : Z) : M bool :=
  valid ← probe_worksheet;
  if valid : bool then mret true
  else
    log INFO MWsConnecting;;
    connect_loop max_retries delay (Z.to_nat (max_retries + 1)) 0.

Definition transient (status : Z) : bool :=
  (status =? 429) || (status =? 500) || (status =? 503).

(** The [for attempt in range(max_retries + 1)] loop of
    [append_row_with_retry]. *)
Fixpoint append_loop (data : list value) (max_retries delay : Z)
    (remaining : nat) (attempt : Z) : M bool :=
  match remaining with
  | O => mret false
  | S rem =>
      n ← gets n_append;
      modify (set_n_append (S n));;
      let o := e_append E n in
      emit (EAppendRow data o);;
      match o with
      | ApiOk =>
          modify (fun w => set_sheet (sheet w ++ [data]) w);;
          log INFO MAppendOk;; mret true
      | ApiError status =>
          log ERROR (MAppendApiError attempt status);;
          if transient status then
            if attempt <? max_retries then
              log WARNING MAppendRetrying;;
              sleep delay;;
              ws ← get_worksheet_with_retry 2 5;
              if ws : bool
              then append_loop data max_retries delay rem (attempt + 1)
              else log ERROR MAppendNoWorksheetRetry;; mret false
            else log ERROR MAppendGaveUp;; mret false
          else log ERROR (MAppendNotRecoverable status);; mret false
      | ApiFault => log ERROR (MAppendUnexpected attempt);; mret false
      end
  end.

Definition append_row_with_retry (data : list value) (max_retries delay : Z)
    : M bool :=
  ws ← get_worksheet_with_retry 2 5;
  if ws : bool
  then append_loop data max_retries delay (Z.to_nat (max_retries + 1)) 0
  else log ERROR MAppendNoWorksheet;; mret false.

(** *** Telegram updates, as far as the handlers read them *)

Record tg_user := mk_user {
  user_id : Z;
  username : option text;
  first_name : text
}.

Record tg_location := mk_location { live_period : option Z }.

(** A message always belongs to a chat; [chat_id] is that chat's id. *)
Record tg_message := mk_message {
  chat_id : Z;
  message_id : Z;
  from_user : option tg_user;
  location : option tg_location
}.

Record tg_update := mk_update {
  message : option tg_message;
  edited_message : option tg_message
}.

(** *** [handle_location] *)

(** [live_period and live_period > 0] *)
Definition is_live (l : tg_location) : bool :=
  match live_period l with
  | Some p => 0 <? p
  | None => false
  end.

(** [user.username if user.username else user.first_name] *)
Definition display_name (u : tg_user) : text :=
  match username u with
  | Some (c :: s) => c :: s
  | _ => first_name u
  end.

Definition new_share (u : tg_user) (now_utc : datetime) : value :=
  VDict [(k_user_id, VInt (user_id u)); (k_username, VStr (display_name u));
         (k_start_time, VDatetime now_utc); (k_last_update, VDatetime now_utc)].

Definition handle_location (update : tg_update) (now_utc : datetime) : M unit :=
  match message update with
  | None => log DEBUG MLocIgnored
  | Some m =>
      match from_user m, location m with
      | Some user, Some current_location =>
          if is_live current_location then
            let key := (chat_id m, message_id m) in
            shares ← gets active_shares;
            (if decide (is_Some (shares !! key))
             then log WARNING (MOpenOverwrite key) else mret tt);;
            modify (fun w =>
              set_active_shares
                (<[key := new_share user now_utc]> (active_shares w)) w);;
            log INFO (MOpenStarted key);;
            shares' ← gets active_shares;
            save_state shares'
          else log DEBUG MLocNotLive
      | _, _ => log DEBUG MLocIgnored
      end
  end.

(** *** [handle_edited_location] *)

(** [not m.location or not getattr(m.location, 'live_period', None)] *)
Definition share_ended (m : tg_message) : bool :=
  match location m with
  | None => true
  | Some l => match live_period l with
              | None => true
              | Some p => p =? 0
              end
  end.

(** Reads [v.tzinfo] and attaches UTC to a naive value:
    [if v.tzinfo is None: v = UTC_TZ.localize(v)]. *)
Definition as_aware (v : value) : res datetime :=
  match v with
  | VDatetime d => match tzinfo d with
                   | None => localize_utc d
                   | Some _ => Ok d
                   end
  | _ => Raise AttributeError
  end.

Definition clock_text (d : datetime) : text :=
  pad 2 (hour d) ++ ":"%char :: pad 2 (minute d) ++ ":"%char :: pad 2 (second d).

(** The directive [%Y] of [strftime] as the C library of Linux prints it:
    the number of the year, not padded (999 for the year 999). Libraries
    that pad it to four digits print the same from the year 1000 on. *)
Definition year_text (d : datetime) : text := str_of_int (year d).

(** [d.strftime('%d/%m/%Y %H:%M:%S')] *)
Definition strftime_br (d : datetime) : text :=
  pad 2 (day d) ++ "/"%char :: pad 2 (month d) ++ "/"%char :: year_text d ++
  " "%char :: clock_text d.

(** [d.strftime('%Y-%m-%d %H:%M:%S')] *)
Definition strftime_utc (d : datetime) : text :=
  year_text d ++ "-"%char :: pad 2 (month d) ++ "-"%char :: pad 2 (day d) ++
  " "%char :: clock_text d.

Definition format_duration (total_seconds : Z) : text :=
  let total := if total_seconds <? 0 then 0 else total_seconds in
  let days := total / 86400 in
  let secs := total mod 86400 in
  let mm := secs / 60 in
  let ss := secs mod 60 in
  let hh := mm / 60 in
  let mm' := mm mod 60 in
  pad 2 (days * 24 + hh) ++ ":"%char :: pad 2 mm' ++ ":"%char :: pad 2 ss.

(** [max(0, int(duration.total_seconds()))] for a [timedelta] given in
    microseconds; [int] rounds towards zero. *)
Definition duration_seconds_of (duration : Z) : Z :=
  Z.max 0 (Z.quot duration us_per_second).

(** [d.astimezone(BR_TZ)] *)
Definition to_br (d : datetime) : res datetime :=
  astimezone (e_local_offset E) d (e_br_offset E (utc_micros d)).

(** The row handed to the sheet when a share ends. *)
Definition row_data_of (user_id username : value) (start_time_utc end_time_utc
    : datetime) : res (list value) :=
  duration ← Datetime.sub end_time_utc start_time_utc;
  let duration_seconds := duration_seconds_of duration in
  start_br ← to_br start_time_utc;
  end_br ← to_br end_time_utc;
  Ok [user_id; username;
      VStr (strftime_br start_br); VStr (strftime_br end_br);
      VStr (format_duration duration_seconds);
      VStr (strftime_utc start_time_utc); VStr (strftime_utc end_time_utc);
      VInt duration_seconds].

(** The share ended: hand the row to the sheet, then drop the entry. *)
Definition close_share (key : share_key) (share_info user_id username : value)
    (now_utc : datetime) : M unit :=
  log INFO (MCloseDetected key);;
  start ← lift (py_getitem k_start_time share_info);
  start_time_utc ← lift (as_aware start);
  row_data ← lift (row_data_of user_id username start_time_utc now_utc);
  success ← append_row_with_retry row_data 2 5;
  (if success : bool then mret tt else log ERROR (MCloseLedgerFailed key));;
  shares ← gets active_shares;
  if decide (is_Some (shares !! key)) then
    modify (fun w => set_active_shares (delete key (active_shares w)) w);;
    log INFO (MCloseRemoved key);;
    shares' ← gets active_shares;
    save_state shares'
  else mret tt.

(** The share is still live: [active_shares[key]['last_update'] = now]. *)
Definition heartbeat (key : share_key) (now_utc : datetime) : M unit :=
  catch
    (shares ← gets active_shares;
     stored ← lift (of_option KeyError (shares !! key));
     updated ← lift (py_setitem k_last_update (VDatetime now_utc) stored);
     modify (fun w => set_active_shares (<[key := updated]> (active_shares w)) w);;
     log DEBUG (MHeartbeat key);;
     shares' ← gets active_shares;
     save_state shares')
    (fun e => if subclass e KeyError then log WARNING (MHeartbeatVanished key)
              else raise e).

Definition handle_edited_location (update : tg_update) (now_utc : datetime)
    : M unit :=
  match edited_message update with
  | None => log DEBUG MEditIgnored
  | Some em =>
      if message_id em =? 0 then log DEBUG MEditIgnored
      else
        let key := (chat_id em, message_id em) in
        shares ← gets active_shares;
        match shares !! key with
        | None => log DEBUG (MEditUnknown key)
        | Some share_info =>
            if negb (truthy share_info) then log WARNING (MEditVanished key)
            else
              username ← lift (py_get k_username (VStr (T "N/A")) share_info);
              user_id ← lift (py_get k_user_id (VStr (T "N/A")) share_info);
              if share_ended em
              then close_share key share_info user_id username now_utc
              else heartbeat key now_utc
        end
  end.

(** *** [cleanup_inactive_shares] *)

(** The test of one entry: is it older than the limit? The instant judged
    is [share_info.get('last_update', share_info.get('start_time'))]. *)
Definition is_inactive (now_utc : datetime) (inactive_limit : Z)
    (share_info : value) : res bool :=
  fallback ← py_get k_start_time VNone share_info;
  last_update ← py_get k_last_update fallback share_info;
  last_update' ← as_aware last_update;
  age ← Datetime.sub now_utc last_update';
  Ok (inactive_limit <? age).

(** First loop: collects [keys_to_remove]. *)
Fixpoint mark_inactive (now_utc : datetime) (inactive_limit : Z)
    (keys : list share_key) (keys_to_remove : list share_key)
    : M (list share_key) :=
  match keys with
  | [] => mret keys_to_remove
  | key :: r =>
      shares ← gets active_shares;
      match shares !! key with
      | None => mark_inactive now_utc inactive_limit r keys_to_remove
      | Some share_info =>
          if negb (truthy share_info)
          then mark_inactive now_utc inactive_limit r keys_to_remove
          else
            match is_inactive now_utc inactive_limit share_info with
            | Ok true =>
                log INFO (MJobMark key);;
                mark_inactive now_utc inactive_limit r (keys_to_remove ++ [key])
            | Ok false => mark_inactive now_utc inactive_limit r keys_to_remove
            | Raise e =>
                (if subclass e KeyError then log WARNING (MJobKeyGone key)
                 else log ERROR (MJobCheckError key e));;
                mark_inactive now_utc inactive_limit r keys_to_remove
            end
      end
  end.

(** Second loop: deletes the marked keys that are still present; returns
    [removed_count] and [state_changed]. *)
Fixpoint remove_marked (keys : list share_key) (removed_count : nat)
    (state_changed : bool) : M (nat * bool) :=
  match keys with
  | [] => mret (removed_count, state_changed)
  | key :: r =>
      shares ← gets active_shares;
      if decide (is_Some (shares !! key)) then
        modify (fun w => set_active_shares (delete key (active_shares w)) w);;
        remove_marked r (S removed_count) true
      else remove_marked r removed_count state_changed
  end.

Definition cleanup_inactive_shares (now_utc : datetime) : M unit :=
  log INFO MJobStart;;
  inactive_limit ← lift (timedelta_hours (MAX_INACTIVE_HOURS E));
  shares ← gets active_shares;
  keys_to_remove ←
    mark_inactive now_utc inactive_limit (map fst (map_to_list shares)) [];
  match keys_to_remove with
  | [] => log INFO MJobNothing
  | _ :: _ =>
      '(removed_count, state_changed) ← remove_marked keys_to_remove 0%nat false;
      log INFO (MJobDone removed_count);;
      if state_changed : bool then
        shares' ← gets active_shares; save_state shares'
      else mret tt
  end.

End Bot.

(** *** The settings read from the environment when the module is loaded *)

(** [int(os.environ.get(name, default))], the default again when the text
    is not a number. *)
Definition int_setting (default : Z) (raw : option text) : Z :=
  match raw with
  | None => default
  | Some s => match int_of_str s with
              | Some n => n
              | None => default
              end
  end.

(** [TARGET_GROUP_ID]: [int(raw) if raw else 0], and 0 when [int] fails. *)
Definition target_group_id (raw : option text) : Z :=
  match raw with
  | Some (c :: s) => match int_of_str (c :: s) with
                     | Some n => n
                     | None => 0
                     end
  | _ => 0
  end.

(** The loop over [admin_ids_str.split(',')]: the ids collected and the
    tokens reported as invalid, in order. *)
Fixpoint add_admin_ids (tokens : list text) (ids : gset Z) (invalid : list text)
    : gset Z * list text :=
  match tokens with
  | [] => (ids, invalid)
  | admin_id :: r =>
      match strip admin_id with
      | [] => add_admin_ids r ids invalid
      | c :: s =>
          match int_of_str (c :: s) with
          | Some n => add_admin_ids r (ids ∪ {[ n ]}) invalid
          | None => add_admin_ids r ids (invalid ++ [c :: s])
          end
      end
  end.

(** [ADMIN_USER_IDS], with the tokens that were printed as ignored. *)
Definition admin_user_ids (raw : option text) : gset Z * list text :=
  match raw with
  | Some (c :: s) => add_admin_ids (split "," (c :: s)) ∅ []
  | _ => (∅, [])
  end.

(** * Vocabulary of the statements *)

(** A run of digits: what both printers produce. *)
Definition all_digits (ds : text) : Prop := Forall (fun c => is_digit c = true) ds.

(** Characters that a printed integer is made of: no blank, no colon. *)
Definition plain (c : ascii) : Prop :=
  is_space c = false /\ ch_eqb c ":" = false.

(** A session as [handle_location] creates it. *)
Definition session (uid : Z) (name : text) (st lu : datetime) : value :=
  VDict [(k_user_id, VInt uid); (k_username, VStr name);
         (k_start_time, VDatetime st); (k_last_update, VDatetime lu)].

(** A timestamp the program itself produces: a valid aware value in UTC. *)
Definition utc_stamp (d : datetime) : Prop :=
  valid d = true /\ tzinfo d = Some 0.

Definition wf_session (v : value) : Prop :=
  exists uid name st lu,
    v = session uid name st lu /\ utc_stamp st /\ utc_stamp lu.

Definition wf_registry (r : registry) : Prop :=
  forall k v, r !! k = Some v -> wf_session v.

(** The snapshot entry of a session: its key and timestamps as text. *)
Definition snapshot_entry (kv : share_key * value) : text * value :=
  (str_key (fst kv),
   match snd kv with
   | VDict [(a, uid); (b, name); (c, VDatetime st); (d, VDatetime lu)] =>
       VDict [(a, uid); (b, name); (c, VStr (isoformat st));
              (d, VStr (isoformat lu))]
   | v => v
   end).

(** No file operation up to and including the rename fails. *)
Definition plan_ok (p : io_plan) : bool :=
  negb (open_fails p) && negb (write_fails p) && negb (close_fails p) &&
  negb (replace_fails p).

(** What the canonical path held after each file operation recorded in a
    stretch of the journal. *)
Definition canonical_views (j : list event) : list (option content) :=
  omap (fun e => match e with EFile _ _ c => Some c | _ => None end) j.

(** The sheet calls recorded in a stretch of the journal. *)
Definition append_calls (j : list event) : list (list value * api_outcome) :=
  omap (fun e => match e with EAppendRow r o => Some (r, o) | _ => None end) j.

(** The sheet answers every append with a transient-class error. *)
Definition always_transient (E : env) : Prop :=
  forall n, exists status, e_append E n = ApiError status /\ transient status = true.

(** A failure that [append_row_with_retry] does not retry. *)
Definition permanent (o : api_outcome) : bool :=
  match o with
  | ApiOk => false
  | ApiError status => negb (transient status)
  | ApiFault => true
  end.

(** What the sheet operations leave alone: the registry and the files. *)
Definition same_store (w w' : world) : Prop :=
  active_shares w' = active_shares w /\ state_file w' = state_file w /\
  temp_file w' = temp_file w /\ n_save w' = n_save w /\
  exists suffix, journal w' = journal w ++ suffix /\
                 canonical_views suffix = [].

(** What fetching a worksheet leaves alone on the sheet's side. *)
Definition no_sheet_write (w w' : world) : Prop :=
  n_append w' = n_append w /\ sheet w' = sheet w /\
  exists suffix, journal w' = journal w ++ suffix /\
                 append_calls suffix = [].

(** The log records in a stretch of the journal. *)
Definition logs (j : list event) : list (level * msg) :=
  omap (fun e => match e with ELog l m => Some (l, m) | _ => None end) j.

(** An update that opens a share: its key and its sender. *)
Definition opens (update : tg_update) : option (share_key * tg_user) :=
  match message update with
  | Some m =>
      match from_user m, location m with
      | Some u, Some l =>
          if is_live l then Some ((chat_id m, message_id m), u) else None
      | _, _ => None
      end
  | None => None
  end.

(** [handle_location] on one update after the other, each with the clock
    reading of its arrival. *)
Fixpoint handle_locations (E : env) (evs : list (tg_update * datetime))
    : M unit :=
  match evs with
  | [] => mret tt
  | ev :: r => handle_location E (fst ev) (snd ev);; handle_locations E r
  end.

(** The last open of key [k] in a run of updates. *)
Fixpoint last_open (k : share_key) (evs : list (tg_update * datetime))
    : option (tg_user * datetime) :=
  match evs with
  | [] => None
  | ev :: r =>
      match last_open k r with
      | Some x => Some x
      | None =>
          match opens (fst ev) with
          | Some (k', u) => if decide (k' = k) then Some (u, snd ev) else None
          | None => None
          end
      end
  end.

(** Keys opened by a run of updates. *)
Definition opened_keys (evs : list (tg_update * datetime)) : list share_key :=
  omap (fun ev => fst <$> opens (fst ev)) evs.

(** [last_update >= start_time] for a session that has both. *)
Definition ordered (v : value) : Prop :=
  match v with
  | VDict l =>
      match dict_get k_start_time l, dict_get k_last_update l with
      | Some (VDatetime st), Some (VDatetime lu) => utc_micros st <= utc_micros lu
      | _, _ => True
      end
  | _ => True
  end.

(** The key an edited message refers to. *)
Definition key_of (m : tg_message) : share_key := (chat_id m, message_id m).

(** The verdict of the first loop of the clean-up job on one entry: it is
    marked when it is truthy and its test says "older than the limit". *)
Definition marked (now_utc : datetime) (inactive_limit : Z) (v : value) : bool :=
  truthy v &&
  match is_inactive now_utc inactive_limit v with
  | Ok true => true
  | _ => false
  end.

Definition key_marked (now_utc : datetime) (inactive_limit : Z) (r : registry)
    (k : share_key) : bool :=
  match r !! k with
  | Some v => marked now_utc inactive_limit v
  | None => false
  end.

(** A timestamp well inside the calendar: moving it by less than a day
    stays within years 1..9999. *)
Definition ordinary (d : datetime) : Prop :=
  utc_stamp d /\ 2 <= year d <= 9998.

(** The zone table of [BR_TZ] only has offsets below one day. *)
Definition zone_ok (E : env) : Prop :=
  forall t, - us_per_day < e_br_offset E t < us_per_day.

Definition setup_calls (j : list event) : list setup_outcome :=
  omap (fun e => match e with ESetup o => Some o | _ => None end) j.

Definition sleeps (j : list event) : list Z :=
  omap (fun e => match e with ESleep s => Some s | _ => None end) j.

Definition retried (o : api_outcome) : bool :=
  match o with
  | ApiError status => transient status
  | _ => false
  end.

(** A delay that [time.sleep] takes: not negative, and within what the
    clock of the C library holds. *)
Definition sleepable (delay : Z) : Prop := 0 <= delay < 2 ^ 31.

(** What a call of [append_row_with_retry] does at the sheet: it fetches
    a worksheet with [get_worksheet_with_retry], and it attempts an
    append that gets an answer. *)
Inductive step :=
| Fetched (worksheet : bool)
| Attempted (o : api_outcome).

(** The steps recorded in a stretch of the journal, in order. A fetch ends
    with the probe that passes or the connection that succeeds, or with
    the record that it gave up. *)
Definition steps (j : list event) : list step :=
  omap (fun e => match e with
                 | EProbe true | ESetup SetupOk => Some (Fetched true)
                 | ELog ERROR MWsGiveUp => Some (Fetched false)
                 | EAppendRow _ o => Some (Attempted o)
                 | _ => None
                 end) j.

(** Attempts that were each followed by a fetch that gave a worksheet. *)
Definition turns (answers : list api_outcome) : list step :=
  flat_map (fun o => [Attempted o; Fetched true]) answers.

(** How a run of the loop of [append_row_with_retry] with [rem] turns
    left can end: without a turn, on its last attempt (the answer was not
    a transient failure, or no turn was left), or on a fetch that gave no
    worksheet. *)
Definition loop_end (rem : nat) (b : bool) (sfx : list event) : Prop :=
  (rem = 0%nat /\ append_calls sfx = [] /\ steps sfx = [] /\ b = false) \/
  exists pre o,
    Forall (fun x => retried x = true) pre /\
    map snd (append_calls sfx) = pre ++ [o] /\
    ((steps sfx = turns pre ++ [Attempted o] /\
      ((retried o = false /\
        b = match o with ApiOk => true | _ => false end) \/
       (retried o = true /\ S (length pre) = rem /\ b = false))) \/
     (steps sfx = turns pre ++ [Attempted o; Fetched false] /\
      retried o = true /\ b = false)).

Definition edits_known_share (update : tg_update) (w : world) : bool :=
  match edited_message update with
  | Some em =>
      negb (message_id em =? 0) &&
      match active_shares w !! key_of em with
      | Some v => truthy v
      | None => false
      end
  | None => false
  end.


(** Text of ASCII characters only. *)
Definition is_ascii_text (s : text) : bool :=
  forallb (fun c => (nat_of_ascii c <? 128)%nat) s.

(** The attribute [k] of a snapshot value, where it is text, is in the
    layout that [isoformat] writes, which every [fromisoformat] reads. *)
Definition stamp_in_layout (k : text) (v : value) : bool :=
  match v with
  | VDict l =>
      match dict_get k l with
      | Some (VStr s) => match fromisoformat s with
                         | Some _ => true
                         | None => false
                         end
      | _ => true
      end
  | _ => true
  end.

(** The document [save_state] writes for a registry of sessions. *)
Definition snapshot_of (r : registry) : content :=
  Doc (VDict (map snapshot_entry (map_to_list r))).

(** The snapshot file holds the registry that is in memory. *)
Definition in_sync (w : world) : Prop :=
  state_file w = Some (snapshot_of (active_shares w)).

(** The value the clean-up job judges an entry by:
    [share_info.get('last_update', share_info.get('start_time'))]. *)
Definition judged_stamp (l : dict) : value :=
  match dict_get k_last_update l with
  | Some x => x
  | None => match dict_get k_start_time l with
            | Some x => x
            | None => VNone
            end
  end.

(** A date of the calendar: what [valid] asks of year, month and day. *)
Definition valid_date (c : Z * Z * Z) : Prop :=
  let '(y, m, d) := c in
  1 <= y <= 9999 /\ 1 <= m <= 12 /\ 1 <= d <= days_in_month y m.

(** The ordinal of a date, [date(y, m, d).toordinal()]. *)
Definition ordinal (c : Z * Z * Z) : Z :=
  let '(y, m, d) := c in ymd2ord y m d.


(** A clock reading in UTC that falls in the years 1000 to 9999 on every
    clock less than a day away: the years that [strftime('%Y')] prints
    with four digits on every platform. *)
Definition modern (d : datetime) : Prop :=
  utc_stamp d /\ 1001 <= year d <= 9998.

(** The row [handle_edited_location] builds for a session of user [uid],
    shown as [name], that ran from [st] to [en]; [start_br] and [end_br]
    are the two instants on the clock of [BR_TZ]. *)
Definition session_row (uid : Z) (name : text) (st en start_br end_br : datetime)
    : list value :=
  let secs := Z.max 0 ((utc_micros en - utc_micros st) / 1000000) in
  [VInt uid; VStr name;
   VStr (strftime_br start_br); VStr (strftime_br end_br);
   VStr (format_duration secs);
   VStr (strftime_utc st); VStr (strftime_utc en);
   VInt secs].

(** [",".join(parts)] *)
Fixpoint join_commas (parts : list text) : text :=
  match parts with
  | [] => []
  | [p] => p
  | p :: r => p ++ ","%char :: join_commas r
  end.

(** A running example: one chat, one user, a clock that advances. *)
Module Example.

Definition quiet : env :=
  mk_env (fun _ => ApiOk) (fun _ => true) (fun _ => SetupOk)
         (fun _ => io_fine) false (fun _ => 0) (fun _ => -3 * us_per_hour) 9.

Definition fresh : world := mk_world ∅ None None [] true 0 0 0 0 [].

Definition alice : tg_user := mk_user 42 (Some (T "alice")) (T "Alice").

Definition noon : datetime := mk_datetime 2024 3 15 12 0 0 0 (Some 0).
Definition ten_past : datetime := mk_datetime 2024 3 15 12 10 0 0 (Some 0).
Definition before_noon : datetime := mk_datetime 2024 3 15 11 59 59 0 (Some 0).
Definition that_night : datetime := mk_datetime 2024 3 15 22 10 0 0 (Some 0).

Definition key : share_key := (100, 5).

Definition one_share : registry :=
  {[ key := session 42 (T "alice") noon ten_past ]}.

Definition with_share : world :=
  mk_world one_share None None [] true 0 0 0 0 [].

(** A sheet that is down: every append is answered 503, the cached
    worksheet passes the probe once and never again, no reconnection
    succeeds. *)
Definition outage : env :=
  mk_env (fun _ => ApiError 503) (fun n => Nat.eqb n 0) (fun _ => SetupFailed)
         (fun _ => io_fine) false (fun _ => 0) (fun _ => -3 * us_per_hour) 9.

Definition some_row : list value := [VInt 42; VStr (T "alice")].

(** A snapshot with one entry whose timestamp cannot be moved to UTC
    inside years 1..9999, and one ordinary entry. *)
Definition early : text := T "0001-01-01T00:00:00+05:00".

Definition good_entry : text * value :=
  (T "100:5",
   VDict [(k_user_id, VInt 42); (k_username, VStr (T "alice"));
          (k_start_time, VStr (isoformat noon));
          (k_last_update, VStr (isoformat ten_past))]).

Definition early_entry : text * value :=
  (T "1:2",
   VDict [(k_user_id, VInt 7); (k_username, VStr (T "bob"));
          (k_start_time, VStr early); (k_last_update, VStr early)]).

Definition on_disk (items : dict) : world :=
  mk_world ∅ (Some (Doc (VDict items))) None [] true 0 0 0 0 [].

Definition live_edit : tg_update :=
  mk_update None (Some (mk_message 100 5 (Some alice)
                          (Some (mk_location (Some 3000))))).

Definition final_edit : tg_update :=
  mk_update None (Some (mk_message 100 5 (Some alice)
                          (Some (mk_location None)))).

(** A snapshot entry whose [last_update] is earlier than its
    [start_time]. *)
Definition backwards_entry : text * value :=
  (T "100:5",
   VDict [(k_user_id, VInt 42); (k_username, VStr (T "alice"));
          (k_start_time, VStr (isoformat noon));
          (k_last_update, VStr (isoformat before_noon))]).


(** A registry whose only entry has no [last_update]. *)
Definition started_only : world :=
  mk_world
    {[ key := VDict [(k_user_id, VInt 42); (k_username, VStr (T "alice"));
                     (k_start_time, VDatetime noon)] ]}
    None None [] true 0 0 0 0 [].

Definition first_location : tg_update :=
  mk_update (Some (mk_message 100 5 (Some alice)
                     (Some (mk_location (Some 3600))))) None.

Definition twenty_five_past : datetime :=
  mk_datetime 2024 3 15 12 25 0 0 (Some 0).

(** The share is opened at noon, updated ten minutes later and ended
    twenty-five minutes after it began. *)
Definition one_session : M unit :=
  handle_location quiet first_location noon;;
  handle_edited_location quiet live_edit ten_past;;
  handle_edited_location quiet final_edit twenty_five_past.

(** A snapshot entry whose key is not of the form [chat:message]. *)
Definition odd_key_entry : text * value :=
  (T "not-a-key", VDict [(k_user_id, VInt 1)]).

End Example.

(** Further worlds of the running example. *)
Module Scenario.

(** The example share is in memory and its snapshot is on disk. *)
Definition synced : world :=
  mk_world Example.one_share (Some (snapshot_of Example.one_share)) None []
           true 0 0 0 0 [].

(** A process that has just started: nothing in memory, the snapshot of
    the example share on disk. *)
Definition restarted : world :=
  mk_world ∅ (Some (snapshot_of Example.one_share)) None [] true 0 0 0 0 [].

(** An entry that has an owner but no timestamp. *)
Definition ownerless_stamp : dict :=
  [(k_user_id, VInt 42); (k_username, VStr (T "alice"))].

Definition no_stamp : world :=
  mk_world {[ Example.key := VDict ownerless_stamp ]} None None []
           true 0 0 0 0 [].


(** A sheet whose cached worksheet never passes the probe, where each
    reconnection succeeds at its second call, and which answers every
    append with 429. *)
Definition flaky : env :=
  mk_env (fun _ => ApiError 429) (fun _ => false)
         (fun n => if Nat.even n then SetupFailed else SetupOk)
         (fun _ => io_fine) false (fun _ => 0) (fun _ => 0) 9.

(** A sheet that is connected and refuses every append with 403. *)
Definition refusing : env :=
  mk_env (fun _ => ApiError 403) (fun _ => true) (fun _ => SetupOk)
         (fun _ => io_fine) false (fun _ => 0) (fun _ => 0) 9.

End Scenario.

(** * Properties *)

(** ** Text *)

Lemma small_cases (d : Z) :
  0 <= d < 10 ->
  d = 0 \/ d = 1 \/ d = 2 \/ d = 3 \/ d = 4 \/
  d = 5 \/ d = 6 \/ d = 7 \/ d = 8 \/ d = 9.
Proof. lia. Qed.

Lemma digit_char_ok (d : Z) :
  0 <= d < 10 ->
  is_digit (digit_char d) = true /\ digit_val (digit_char d) = d /\
  is_space (digit_char d) = false /\ ch_eqb (digit_char d) ":" = false /\
  ch_eqb (digit_char d) "_" = false.
Proof.
  intros H. destruct (small_cases d H) as [->|[->|[->|[->|[->|[->|[->|[->|[->| ->]]]]]]]]];
    repeat split.
Qed.

Lemma digits_value_app acc a b :
  digits_value acc (a ++ b) = digits_value (digits_value acc a) b.
Proof. unfold digits_value. apply fold_left_app. Qed.

Lemma parse_digits_run ds : forall acc rest,
  all_digits ds ->
  parse_digits (length ds) acc (ds ++ rest) = Some (digits_value acc ds, rest).
Proof.
  induction ds as [|c ds IH]; intros acc rest Hd; simpl; [reflexivity|].
  inversion Hd as [|? ? Hc Hds]; subst. rewrite Hc. apply IH, Hds.
Qed.

Lemma fixed_spec w : forall n,
  0 <= n < 10 ^ Z.of_nat w ->
  length (fixed w n) = w /\ all_digits (fixed w n) /\
  forall acc, digits_value acc (fixed w n) = acc * 10 ^ Z.of_nat w + n.
Proof.
  induction w as [|w IH]; intros n Hn.
  - simpl in *. repeat split; [constructor | intros; unfold digits_value; simpl; lia].
  - rewrite Nat2Z.inj_succ, Z.pow_succ_r in Hn by lia.
    assert (Hq : 0 <= n / 10 < 10 ^ Z.of_nat w).
    { split; [apply Z.div_pos; lia | apply Z.div_lt_upper_bound; lia]. }
    assert (Hr : 0 <= n mod 10 < 10) by (apply Z.mod_pos_bound; lia).
    destruct (IH _ Hq) as (Hl & Hd & Hv).
    destruct (digit_char_ok _ Hr) as (Hc & Hcv & _).
    simpl fixed. repeat split.
    + rewrite length_app, Hl. simpl. lia.
    + apply Forall_app. split; [exact Hd | constructor; [exact Hc | constructor]].
    + intros acc. rewrite digits_value_app, Hv. unfold digits_value. simpl.
      rewrite Hcv, Nat2Z.inj_succ, Z.pow_succ_r by lia.
      pose proof (Z.div_mod n 10). lia.
Qed.

(** What [parse_digits] reads back from a padded field. *)
Lemma parse_digits_pad w n rest :
  0 <= n < 10 ^ Z.of_nat w ->
  parse_digits w 0 (pad w n ++ rest) = Some (n, rest).
Proof.
  intros Hn. unfold pad.
  destruct (Z.ltb_spec n (10 ^ Z.of_nat w)); [|lia].
  destruct (fixed_spec w n Hn) as (Hl & Hd & Hv).
  rewrite <- Hl at 1. rewrite parse_digits_run by exact Hd.
  rewrite Hv. reflexivity.
Qed.

Lemma dec_go_unfold f n acc :
  dec_go (S f) n acc =
  if n <? 10 then digit_char (n mod 10) :: acc
  else dec_go f (n / 10) (digit_char (n mod 10) :: acc).
Proof. reflexivity. Qed.

Lemma dec_go_spec fuel : forall n acc,
  0 <= n < 2 ^ Z.of_nat (S fuel) ->
  exists ds, dec_go (S fuel) n acc = ds ++ acc /\ ds <> [] /\ all_digits ds /\
             (forall a, digits_value a ds = a * 10 ^ Z.of_nat (length ds) + n).
Proof.
  induction fuel as [|fuel IH]; intros n acc Hn;
    rewrite Nat2Z.inj_succ, Z.pow_succ_r in Hn by lia;
    assert (Hr : 0 <= n mod 10 < 10) by (apply Z.mod_pos_bound; lia);
    destruct (digit_char_ok _ Hr) as (Hc & Hcv & _);
    rewrite dec_go_unfold; destruct (Z.ltb_spec n 10) as [Hlt|Hge].
  1, 3: exists [digit_char (n mod 10)]; split; [reflexivity|];
        split; [discriminate|]; split; [constructor; [exact Hc | constructor]|];
        intros a; unfold digits_value; simpl; rewrite Hcv;
        rewrite Z.mod_small by lia; lia.
  - simpl in Hn. lia.
  - assert (Hq : 0 <= n / 10 < 2 ^ Z.of_nat (S fuel)).
    { split; [apply Z.div_pos; lia | apply Z.div_lt_upper_bound; lia]. }
    destruct (IH (n / 10) (digit_char (n mod 10) :: acc) Hq)
      as (ds & Heq & Hne & Hd & Hv).
    exists (ds ++ [digit_char (n mod 10)]).
    split; [rewrite Heq, <- app_assoc; reflexivity|].
    split; [destruct ds; discriminate|].
    split; [apply Forall_app; split; [exact Hd | constructor; [exact Hc | constructor]]|].
    intros a. rewrite digits_value_app, Hv. unfold digits_value. simpl.
    rewrite Hcv, length_app. simpl.
    replace (Z.of_nat (length ds + 1)) with (Z.succ (Z.of_nat (length ds))) by lia.
    rewrite Z.pow_succ_r by lia.
    pose proof (Z.div_mod n 10). lia.
Qed.

Lemma dec_spec n :
  0 <= n ->
  dec n <> [] /\ all_digits (dec n) /\
  forall a, digits_value a (dec n) = a * 10 ^ Z.of_nat (length (dec n)) + n.
Proof.
  intros Hn. unfold dec.
  assert (Hb : 0 <= n < 2 ^ Z.of_nat (S (Z.to_nat (Z.log2 n)))).
  { split; [exact Hn|].
    rewrite Nat2Z.inj_succ, Z2Nat.id by apply Z.log2_nonneg.
    destruct (Z.eq_dec n 0) as [->|]; [reflexivity|].
    apply Z.log2_spec. lia. }
  destruct (dec_go_spec _ n [] Hb) as (ds & Heq & Hne & Hd & Hv).
  rewrite Heq, app_nil_r. auto.
Qed.

Lemma int_body_run ds : forall acc b,
  all_digits ds -> (ds <> [] \/ b = true) ->
  int_body acc b ds = Some (digits_value acc ds).
Proof.
  induction ds as [|c ds IH]; intros acc b Hd Hne.
  - destruct Hne as [Hne| ->]; [congruence | reflexivity].
  - inversion Hd as [|? ? Hc Hds]; subst. simpl. rewrite Hc.
    apply IH; [exact Hds | right; reflexivity].
Qed.

Lemma digit_plain c : is_digit c = true -> plain c.
Proof.
  unfold is_digit, plain, is_space, ch_eqb. intros H.
  apply andb_true_iff in H as [H1 H2].
  apply Nat.leb_le in H1. apply Nat.leb_le in H2.
  split.
  - repeat match goal with
           | |- context [(?a <=? ?b)%nat] => destruct (Nat.leb_spec a b)
           | |- context [(?a =? ?b)%nat] => destruct (Nat.eqb_spec a b)
           end; cbn; try reflexivity; lia.
  - apply Ascii.eqb_neq. intros ->. vm_compute in H2. lia.
Qed.

(** What [int()] skips, [str.strip()] strips as well. *)
Lemma int_space_is_space c : is_int_space c = true -> is_space c = true.
Proof.
  unfold is_int_space, is_space.
  repeat match goal with
         | |- context [(?a <=? ?b)%nat] => destruct (Nat.leb_spec a b)
         | |- context [(?a =? ?b)%nat] => destruct (Nat.eqb_spec a b)
         end; cbn; try reflexivity; try discriminate; lia.
Qed.

Lemma plain_int_space c : plain c -> is_int_space c = false.
Proof.
  intros [H _]. destruct (is_int_space c) eqn:Hc; [|reflexivity].
  rewrite (int_space_is_space c Hc) in H. discriminate H.
Qed.

Lemma str_of_int_plain n : Forall plain (str_of_int n) /\ str_of_int n <> [].
Proof.
  unfold str_of_int. destruct (Z.ltb_spec n 0).
  - destruct (dec_spec (- n)) as (_ & Hd & _); [lia|]. split; [|discriminate].
    constructor; [split; reflexivity|].
    eapply Forall_impl; [exact Hd | apply digit_plain].
  - destruct (dec_spec n) as (Hne & Hd & _); [lia|]. split; [|exact Hne].
    eapply Forall_impl; [exact Hd | apply digit_plain].
Qed.

Lemma drop_spaces_plain s :
  match s with c :: _ => is_space c = false | [] => True end ->
  drop_spaces s = s.
Proof. destruct s as [|c r]; simpl; [reflexivity|]. intros ->. reflexivity. Qed.

Lemma strip_plain s : Forall plain s -> strip s = s.
Proof.
  intros H. unfold strip.
  rewrite (drop_spaces_plain s).
  - rewrite drop_spaces_plain, rev_involutive; [reflexivity|].
    assert (Hr : Forall plain (rev s)) by (apply Forall_rev, H).
    destruct Hr as [|c r [Hc _] _]; [exact I | exact Hc].
  - destruct H as [|c r [Hc _] _]; [exact I | exact Hc].
Qed.

Lemma drop_int_spaces_plain s :
  match s with c :: _ => is_int_space c = false | [] => True end ->
  drop_int_spaces s = s.
Proof. destruct s as [|c r]; simpl; [reflexivity|]. intros ->. reflexivity. Qed.

(** [int()] has nothing to skip around text without blanks. *)
Lemma int_strip_plain s :
  Forall plain s -> rev (drop_int_spaces (rev (drop_int_spaces s))) = s.
Proof.
  intros H.
  rewrite (drop_int_spaces_plain s).
  - rewrite drop_int_spaces_plain, rev_involutive; [reflexivity|].
    assert (Hr : Forall plain (rev s)) by (apply Forall_rev, H).
    destruct Hr as [|c r Hc _]; [exact I | exact (plain_int_space c Hc)].
  - destruct H as [|c r Hc _]; [exact I | exact (plain_int_space c Hc)].
Qed.

(** [int(f"{n}")] is [n]. *)
Lemma int_of_str_of_int n : int_of_str (str_of_int n) = Some n.
Proof.
  unfold int_of_str. rewrite int_strip_plain by apply str_of_int_plain.
  unfold str_of_int. destruct (Z.ltb_spec n 0).
  - destruct (dec_spec (- n)) as (Hne & Hd & Hv); [lia|].
    rewrite int_body_run by auto. rewrite Hv. simpl. f_equal. lia.
  - destruct (dec_spec n) as (Hne & Hd & Hv); [lia|].
    assert (Hi : int_body 0 false (dec n) = Some n).
    { rewrite int_body_run by auto. rewrite Hv. f_equal. }
    destruct (dec n) as [|c r] eqn:Hdec; [congruence|].
    inversion Hd as [|? ? Hc _]; subst.
    destruct (Ascii.eqb_spec c "-") as [->|]; [discriminate Hc|].
    destruct (Ascii.eqb_spec c "+") as [->|]; [discriminate Hc|].
    destruct c as [[] [] [] [] [] [] [] []]; try exact Hi; congruence.
Qed.

Lemma split_on_plain s : forall cur rest,
  Forall plain s ->
  split_on ":" cur (s ++ ":"%char :: rest) = (rev cur ++ s) :: split_on ":" [] rest
  /\ split_on ":" cur s = [rev cur ++ s].
Proof.
  induction s as [|c s IH]; intros cur rest Hs.
  - simpl. rewrite app_nil_r. split; reflexivity.
  - inversion Hs as [|? ? [_ Hc] Hs']; subst. simpl. rewrite Hc.
    destruct (IH (c :: cur) rest Hs') as [H1 H2]. rewrite H1, H2. simpl.
    rewrite <- !app_assoc. simpl. split; reflexivity.
Qed.

(** ** Keys and timestamps survive their text form *)

Lemma split_str_key (k : share_key) :
  split ":" (str_key k) = [str_of_int (fst k); str_of_int (snd k)].
Proof.
  unfold split, str_key.
  destruct (split_on_plain (str_of_int (fst k)) [] (str_of_int (snd k)))
    as [H _]; [apply str_of_int_plain|].
  destruct (split_on_plain (str_of_int (snd k)) [] [])
    as [_ H']; [apply str_of_int_plain|].
  rewrite H, H'. reflexivity.
Qed.

Lemma valid_fields (d : datetime) :
  valid d = true ->
  1 <= year d <= 9999 /\ 1 <= month d <= 12 /\ 1 <= day d <= 31 /\
  0 <= hour d <= 23 /\ 0 <= minute d <= 59 /\ 0 <= second d <= 59 /\
  0 <= microsecond d <= 999999.
Proof.
  unfold valid, in_range. intros H.
  repeat (apply andb_true_iff in H as [H ?]).
  repeat match goal with
         | X : (_ <=? _) = true |- _ => apply Z.leb_le in X
         end.
  assert (days_in_month (year d) (month d) <= 31).
  { unfold days_in_month.
    repeat match goal with |- context [if ?b then _ else _] => destruct b end; lia. }
  lia.
Qed.

Lemma format_offset_utc : format_offset 0 = T "+00:00".
Proof. reflexivity. Qed.

Lemma parse_offset_utc :
  parse_offset ["0"%char; "0"%char; ":"%char; "0"%char; "0"%char] = Some 0.
Proof. reflexivity. Qed.

Section IsoRoundTrip.

#[local] Opaque pad parse_digits valid.

(** [datetime.fromisoformat(d.isoformat())] gives [d] back for an aware
    UTC value. *)
Lemma fromisoformat_isoformat (d : datetime) :
  valid d = true -> tzinfo d = Some 0 ->
  fromisoformat (isoformat d) = Some d.
Proof.
  intros Hv Htz. pose proof (valid_fields d Hv) as (Hy & Hm & Hd & Hh & Hmi & Hs & Hus).
  destruct d as [y m dd h mi s us tz]. simpl in *. subst tz.
  unfold fromisoformat, parse_date, isoformat. simpl.
  rewrite parse_digits_pad by (simpl; lia). cbn.
  rewrite parse_digits_pad by (simpl; lia). cbn.
  rewrite parse_digits_pad by (simpl; lia). cbn.
  unfold parse_clock.
  rewrite parse_digits_pad by (simpl; lia). cbn.
  rewrite parse_digits_pad by (simpl; lia). cbn.
  rewrite parse_digits_pad by (simpl; lia). cbn.
  rewrite format_offset_utc.
  destruct (Z.eqb_spec us 0) as [->|Hne].
  - cbn. rewrite parse_offset_utc. cbn. unfold checked. rewrite Hv. reflexivity.
  - cbn. unfold parse_fraction.
    rewrite parse_digits_pad by (simpl; lia). cbn.
    rewrite parse_offset_utc. cbn. unfold checked. rewrite Hv. reflexivity.
Qed.

End IsoRoundTrip.

(** Shifting an aware UTC value to UTC changes nothing. *)
Lemma astimezone_utc_id (local : datetime -> Z) (d : datetime) :
  valid d = true -> tzinfo d = Some 0 ->
  astimezone local d 0 = Ok d.
Proof.
  intros Hv Htz. pose proof (valid_fields d Hv) as (Hy & Hm & Hd & Hh & Hmi & Hs & Hus).
  unfold astimezone, add_micros. rewrite Htz.
  replace (0 - 0) with 0 by lia. rewrite Z.add_0_r.
  assert (Hr : 0 <= time_of_day d < us_per_day).
  { unfold time_of_day, us_per_day, us_per_hour, us_per_minute, us_per_second. lia. }
  rewrite Z.div_small, Z.mod_small by exact Hr.
  unfold add_days. simpl.
  destruct d as [y m dd h mi s us tz]. simpl in *. subst tz.
  unfold time_of_day, us_per_day, us_per_hour, us_per_minute, us_per_second in *.
  simpl in *.
  f_equal. f_equal.
  - symmetry. apply Z.div_unique with ((mi * 60 + s) * 1000000 + us); lia.
  - assert (E1 : ((h * 60 + mi) * 60 + s) * 1000000 + us =
                 h * 3600000000 + ((mi * 60 + s) * 1000000 + us)) by lia.
    rewrite E1, Z.add_comm, Z.mod_add, Z.mod_small by lia.
    symmetry. apply Z.div_unique with (s * 1000000 + us); lia.
  - assert (E1 : ((h * 60 + mi) * 60 + s) * 1000000 + us =
                 (h * 60 + mi) * 60000000 + (s * 1000000 + us)) by lia.
    rewrite E1, Z.add_comm, Z.mod_add, Z.mod_small by lia.
    symmetry. apply Z.div_unique with us; lia.
  - assert (E1 : ((h * 60 + mi) * 60 + s) * 1000000 + us =
                 ((h * 60 + mi) * 60 + s) * 1000000 + us) by lia.
    rewrite Z.add_comm, Z.mod_add, Z.mod_small by lia. reflexivity.
Qed.

(** Whatever [astimezone] returns for target offset 0 is in UTC. *)
Lemma astimezone_utc_is_utc (local : datetime -> Z) (d u : datetime) :
  astimezone local d 0 = Ok u -> tzinfo u = Some 0.
Proof.
  unfold astimezone, add_micros.
  destruct (add_days _ _) as [[[y m] dd]|]; [|discriminate].
  intros [= <-]. reflexivity.
Qed.

(** ** Dictionaries *)

Lemma text_eqb_eq (a b : text) : text_eqb a b = true <-> a = b.
Proof.
  revert b. induction a as [|x a IH]; intros [|y b]; simpl; split;
    try congruence; try reflexivity.
  - intros H. apply andb_true_iff in H as [H1 H2].
    apply Ascii.eqb_eq in H1. apply IH in H2. congruence.
  - intros [= -> ->]. apply andb_true_iff. split.
    + apply Ascii.eqb_refl.
    + apply IH. reflexivity.
Qed.

Lemma text_eqb_neq (a b : text) : a <> b -> text_eqb a b = false.
Proof.
  intros H. destruct (text_eqb a b) eqn:Heq; [|reflexivity].
  apply text_eqb_eq in Heq. contradiction.
Qed.

Lemma dict_get_app k (a b : dict) :
  dict_get k (a ++ b) =
  match dict_get k a with Some v => Some v | None => dict_get k b end.
Proof.
  induction a as [|[k' v'] a IH]; simpl; [reflexivity|].
  destruct (text_eqb k k'); [reflexivity | exact IH].
Qed.

Lemma dict_set_fresh k v (l : dict) :
  dict_get k l = None -> dict_set k v l = l ++ [(k, v)].
Proof.
  induction l as [|[k' v'] l IH]; simpl; [reflexivity|].
  destruct (text_eqb k k'); [discriminate|].
  intros H. rewrite IH by exact H. reflexivity.
Qed.

Lemma str_key_inj (k k' : share_key) : str_key k = str_key k' -> k = k'.
Proof.
  intros H. apply (f_equal (split ":")) in H.
  rewrite !split_str_key in H. injection H as H1 H2.
  apply (f_equal int_of_str) in H1, H2.
  rewrite !int_of_str_of_int in H1, H2.
  destruct k, k'. simpl in *. congruence.
Qed.

Lemma dict_get_snapshot_fresh (items : list (share_key * value)) k :
  k ∉ items.*1 ->
  dict_get (str_key k) (map snapshot_entry items) = None.
Proof.
  induction items as [|[k' v'] items IH]; simpl; [reflexivity|].
  intros Hk. apply not_elem_of_cons in Hk as [Hne Hk].
  rewrite text_eqb_neq.
  - apply IH, Hk.
  - intros Heq. apply str_key_inj in Heq. contradiction.
Qed.

(** ** The snapshot of a well-formed registry *)

Section SnapshotRoundTrip.

Context (E : env).

#[local] Opaque isoformat fromisoformat astimezone str_key.

Lemma prepare_entry_wf k v :
  wf_session v -> prepare_entry (k, v) = Ok (snapshot_entry (k, v)).
Proof.
  intros (uid & name & st & lu & -> & _ & _). reflexivity.
Qed.

Lemma snapshot_entry_json_ok k v :
  wf_session v -> json_ok (snd (snapshot_entry (k, v))) = true.
Proof.
  intros (uid & name & st & lu & -> & _ & _). reflexivity.
Qed.

Lemma restore_field_start uid name st x :
  utc_stamp st ->
  restore_field E k_start_time
    (VDict [(k_user_id, VInt uid); (k_username, VStr name);
            (k_start_time, VStr (isoformat st)); (k_last_update, x)]) =
  Ok (VDict [(k_user_id, VInt uid); (k_username, VStr name);
             (k_start_time, VDatetime st); (k_last_update, x)]).
Proof.
  intros [Hv Hz]. unfold restore_field. cbn.
  rewrite fromisoformat_isoformat by assumption. cbn.
  rewrite astimezone_utc_id by assumption. reflexivity.
Qed.

Lemma restore_field_last uid name lu x :
  utc_stamp lu ->
  restore_field E k_last_update
    (VDict [(k_user_id, VInt uid); (k_username, VStr name);
            (k_start_time, x); (k_last_update, VStr (isoformat lu))]) =
  Ok (VDict [(k_user_id, VInt uid); (k_username, VStr name);
             (k_start_time, x); (k_last_update, VDatetime lu)]).
Proof.
  intros [Hv Hz]. unfold restore_field. cbn.
  rewrite fromisoformat_isoformat by assumption. cbn.
  rewrite astimezone_utc_id by assumption. reflexivity.
Qed.

#[local] Transparent str_key.

Lemma restore_entry_snapshot k v :
  wf_session v -> restore_entry E (snapshot_entry (k, v)) = Ok (k, v).
Proof.
  intros (uid & name & st & lu & -> & Hst & Hlu).
  unfold restore_entry, snapshot_entry, session.
  cbn [fst snd]. rewrite split_str_key, !int_of_str_of_int. cbn [of_option mbind res_bind].
  rewrite (restore_field_start uid name st) by exact Hst. cbn [mbind res_bind].
  rewrite (restore_field_last uid name lu) by exact Hlu. cbn [mbind res_bind].
  destruct k. reflexivity.
Qed.

Lemma prepare_items_wf (items : list (share_key * value)) : forall acc,
  Forall (fun kv => wf_session (snd kv)) items ->
  NoDup items.*1 ->
  Forall (fun kv => dict_get (str_key (fst kv)) acc = None) items ->
  prepare_items items acc = Ok (acc ++ map snapshot_entry items).
Proof.
  induction items as [|[k v] items IH]; intros acc Hwf Hnd Hfresh.
  - simpl. rewrite app_nil_r. reflexivity.
  - inversion Hwf as [|? ? Hv Hwf']; subst.
    inversion Hfresh as [|? ? Hk Hfresh']; subst.
    apply NoDup_cons in Hnd as [Hnotin Hnd].
    cbn [prepare_items]. rewrite prepare_entry_wf by exact Hv.
    unfold snapshot_entry at 1. cbn [mbind res_bind fst snd].
    cbn [fst snd] in Hk. rewrite dict_set_fresh by exact Hk.
    rewrite IH; [| exact Hwf' | exact Hnd |].
    + rewrite <- app_assoc. reflexivity.
    + apply Forall_forall. intros [k' v'] Hin. cbn [fst snd].
      rewrite dict_get_app.
      rewrite Forall_forall in Hfresh'. pose proof (Hfresh' _ Hin) as Hf.
      cbn [fst snd] in Hf. rewrite Hf. cbn [dict_get fst snd].
      rewrite text_eqb_neq; [reflexivity|].
      intros Heq. apply str_key_inj in Heq. subst k'.
      apply Hnotin. apply list_elem_of_fmap. exists (k, v'). split; [reflexivity | exact Hin].
Qed.

Lemma registry_items_wf (r : registry) :
  wf_registry r -> Forall (fun kv => wf_session (snd kv)) (map_to_list r).
Proof.
  intros Hwf. apply Forall_forall. intros [k v] Hin.
  apply elem_of_map_to_list in Hin. exact (Hwf k v Hin).
Qed.

Lemma prepare_wf (r : registry) :
  wf_registry r -> prepare r = Ok (map snapshot_entry (map_to_list r)).
Proof.
  intros Hwf. unfold prepare.
  rewrite prepare_items_wf; [reflexivity | | |].
  - apply registry_items_wf, Hwf.
  - apply NoDup_fst_map_to_list.
  - apply Forall_forall. intros; reflexivity.
Qed.

Lemma snapshot_json_ok (items : list (share_key * value)) :
  Forall (fun kv => wf_session (snd kv)) items ->
  json_ok (VDict (map snapshot_entry items)) = true.
Proof.
  intros H. cbn [json_ok]. apply forallb_forall. intros x Hin.
  apply in_map_iff in Hin as ([k v] & <- & Hin).
  rewrite Forall_forall in H. apply snapshot_entry_json_ok.
  apply (H (k, v)). apply list_elem_of_In. exact Hin.
Qed.

(** Restoring the snapshot entries of well-formed sessions inserts each of
    them back, and logs nothing. *)
Lemma restore_items_snapshot (items : list (share_key * value)) : forall acc w,
  Forall (fun kv => wf_session (snd kv)) items ->
  restore_items E (map snapshot_entry items) acc w =
  (Ok (foldl (fun m kv => <[fst kv := snd kv]> m) acc items), w).
Proof.
  induction items as [|[k v] items IH]; intros acc w Hwf; [reflexivity|].
  inversion Hwf as [|? ? Hv Hwf']; subst.
  cbn [map restore_items]. rewrite restore_entry_snapshot by exact Hv.
  rewrite IH by exact Hwf'. reflexivity.
Qed.

End SnapshotRoundTrip.

Lemma foldl_insert_items (l : list (share_key * value)) : forall acc : registry,
  NoDup l.*1 ->
  foldl (fun m kv => <[fst kv := snd kv]> m) acc l = list_to_map l ∪ acc.
Proof.
  induction l as [|[k v] l IH]; intros acc Hnd.
  - simpl. rewrite (left_id_L ∅ (∪)). reflexivity.
  - apply NoDup_cons in Hnd as [Hnotin Hnd].
    cbn [foldl fst snd]. rewrite IH by exact Hnd.
    cbn [list_to_map foldr fst snd].
    rewrite <- insert_union_l. rewrite insert_union_r; [reflexivity|].
    apply not_elem_of_list_to_map_1. exact Hnotin.
Qed.

Lemma foldl_insert_map_to_list (r : registry) :
  foldl (fun m kv => <[fst kv := snd kv]> m) ∅ (map_to_list r) = r.
Proof.
  rewrite foldl_insert_items by apply NoDup_fst_map_to_list.
  rewrite (right_id_L ∅ (∪)). apply list_to_map_to_list.
Qed.

(** ** [save_state] *)

Ltac run_M :=
  cbv [log emit modify gets lift raise mbind mret M_bind M_ret finally catch
       write_snapshot with_temp closing open_temp dump_temp close_temp
       replace_temp remove_temp file_event read_json startup
       set_active_shares set_state_file set_temp_file set_sheet
       set_gs_connected set_n_append set_n_probe set_n_setup set_n_save
       set_journal];
  cbn -[get_worksheet_with_retry append_row_with_retry save_state load_state
        remove_marked mark_inactive append_loop connect_loop restore_items].

(** The same, through the worksheet functions as well. *)
Ltac run_sheet :=
  cbv [setup_google_sheets probe_worksheet get_worksheet_with_retry
       append_row_with_retry];
  run_M.

Section SaveState.

Context (E : env).

#[local] Opaque json_ok.

(** Everything [save_state] does: it always returns, touches only the two
    files, its own counter and the journal, and the canonical path only
    ever holds what it held before or the complete new document. *)
Lemma save_state_spec (data : registry) (w : world) :
  exists w' suffix,
    save_state E data w = (Ok tt, w') /\
    journal w' = journal w ++ suffix /\
    active_shares w' = active_shares w /\
    sheet w' = sheet w /\
    n_append w' = n_append w /\
    append_calls suffix = [] /\
    ELog DEBUG MSaveTry ∈ suffix /\
    match prepare data with
    | Ok d =>
        Forall (fun c => c = state_file w \/ c = Some (Doc (VDict d)))
               (canonical_views suffix) /\
        state_file w' =
          (if json_ok (VDict d) && plan_ok (e_save_io E (n_save w))
           then Some (Doc (VDict d)) else state_file w) /\
        (json_ok (VDict d) && plan_ok (e_save_io E (n_save w)) = true ->
         temp_file w' = None /\
         canonical_views suffix =
           [state_file w; state_file w; state_file w; Some (Doc (VDict d))])
    | Raise _ =>
        canonical_views suffix = [] /\ state_file w' = state_file w /\
        temp_file w' = temp_file w
    end.
Proof.
  unfold save_state. destruct (prepare data) as [d|e] eqn:Hp.
  - destruct (e_save_io E (n_save w)) as [[] [] [] [] []] eqn:Hplan;
      destruct (json_ok (VDict d)) eqn:Hj; destruct (temp_file w) eqn:Ht.
    all: eexists; eexists.
    all: split;
      [ run_M; rewrite ?Hplan; cbn; rewrite ?Hj; cbn; rewrite ?Ht; cbn;
        reflexivity | ].
    all: split; [ cbn; rewrite <- !app_assoc; reflexivity | ].
    all: cbn; rewrite ?Hplan, ?Hj; cbn.
    all: do 4 (split; [reflexivity|]).
    all: split; [apply elem_of_cons; left; reflexivity|].
    all: split; [|split; [reflexivity|intros H; first [discriminate H | split; reflexivity]]].
    all: repeat (constructor; [first [left; reflexivity | right; reflexivity]|]).
    all: constructor.
  - eexists; eexists.
    split; [run_M; reflexivity|].
    split; [cbn; rewrite <- !app_assoc; reflexivity|].
    cbn. do 4 (split; [reflexivity|]).
    split; [apply elem_of_cons; left; reflexivity|]. repeat split.
Qed.

End SaveState.

(** ** [load_state] after [save_state] *)

(** C1. Saving a registry of well-formed sessions and loading the file
    back gives the same registry: the same keys, each with the same
    attribute values (timestamps to the microsecond), every restored
    timestamp in UTC. The save has to go through: no file operation
    fails, and the file can be read back. *)
Theorem save_load_roundtrip (E : env) (r : registry) (w : world) :
  wf_registry r ->
  plan_ok (e_save_io E (n_save w)) = true ->
  e_load_fault E = false ->
  exists w1 w2 r',
    save_state E r w = (Ok tt, w1) /\
    load_state E w1 = (Ok r', w2) /\
    r' = r /\ dom r' = dom r /\ wf_registry r'.
Proof.
  intros Hwf Hplan Hfault.
  destruct (save_state_spec E r w) as (w1 & suffix & Hs & _ & _ & _ & _ & _ & _ & Hm).
  rewrite (prepare_wf r Hwf) in Hm. destruct Hm as (_ & Hfile & _).
  rewrite snapshot_json_ok, Hplan in Hfile by (apply registry_items_wf, Hwf).
  cbn in Hfile.
  eexists w1, _, r. split; [exact Hs|].
  split; [|auto].
  unfold load_state. run_M. rewrite Hfile. cbn. rewrite Hfault. cbn.
  rewrite restore_items_snapshot by (apply registry_items_wf, Hwf).
  rewrite foldl_insert_map_to_list. reflexivity.
Qed.

Lemma example_registry_wf : wf_registry Example.one_share.
Proof.
  intros k v Hk. unfold Example.one_share in Hk.
  apply lookup_singleton_Some in Hk as [_ <-].
  exists 42, (T "alice"), Example.noon, Example.ten_past.
  repeat split.
Qed.

Lemma save_load_roundtrip_witness :
  wf_registry Example.one_share /\
  plan_ok (e_save_io Example.quiet (n_save Example.fresh)) = true /\
  e_load_fault Example.quiet = false /\
  exists w1 w2 r',
    save_state Example.quiet Example.one_share Example.fresh = (Ok tt, w1) /\
    load_state Example.quiet w1 = (Ok r', w2) /\
    r' = Example.one_share /\ dom r' = dom Example.one_share /\
    wf_registry r'.
Proof.
  split; [exact example_registry_wf|].
  split; [reflexivity|]. split; [reflexivity|].
  apply (save_load_roundtrip Example.quiet Example.one_share Example.fresh).
  - exact example_registry_wf.
  - reflexivity.
  - reflexivity.
Defined.

(** C6. [save_state] never raises. The new snapshot is written to the
    temporary file and moved over the canonical path in one step: while
    the temporary file is opened, written and closed the canonical path
    holds what it held before, and only the final rename installs the
    complete new document. If preparing the data, serialising it, or any
    file operation up to the rename fails, the canonical path still holds
    exactly what it held before; at no point does it hold anything but the
    old content or the complete new document. *)
Theorem save_state_atomic (E : env) (data : registry) (w : world) :
  exists w' suffix,
    save_state E data w = (Ok tt, w') /\
    journal w' = journal w ++ suffix /\
    match prepare data with
    | Ok d =>
        let new := Some (Doc (VDict d)) in
        Forall (fun c => c = state_file w \/ c = new) (canonical_views suffix) /\
        if json_ok (VDict d) && plan_ok (e_save_io E (n_save w))
        then state_file w' = new /\ temp_file w' = None /\
             canonical_views suffix =
               [state_file w; state_file w; state_file w; new]
        else state_file w' = state_file w
    | Raise _ => canonical_views suffix = [] /\ state_file w' = state_file w
    end.
Proof.
  destruct (save_state_spec E data w)
    as (w' & suffix & Hs & Hj & _ & _ & _ & _ & _ & Hm).
  exists w', suffix. split; [exact Hs|]. split; [exact Hj|].
  destruct (prepare data) as [d|e].
  - destruct Hm as (Hall & Hfile & Hok). cbn zeta. split; [exact Hall|].
    destruct (json_ok (VDict d) && plan_ok (e_save_io E (n_save w))).
    + destruct (Hok eq_refl) as [Ht Hv]. auto.
    + exact Hfile.
  - destruct Hm as (Hv & Hf & _). auto.
Qed.

(** ** [load_state] *)

Section LoadState.

Context (E : env).

(** The loop over the loaded items only ever adds to the journal. *)
Lemma restore_items_journal (items : dict) : forall acc w,
  exists suffix,
    snd (restore_items E items acc w) = set_journal (journal w ++ suffix) w.
Proof.
  induction items as [|kv items IH]; intros acc w.
  - exists []. cbn. rewrite app_nil_r. destruct w; reflexivity.
  - cbn [restore_items]. destruct (restore_entry E kv) as [[k v]|e].
    + apply IH.
    + destruct (caught_by e [ValueError; KeyError; TypeError]).
      * run_M.
        destruct (IH acc (mk_world (active_shares w) (state_file w)
                    (temp_file w) (sheet w) (gs_connected w) (n_append w)
                    (n_probe w) (n_setup w) (n_save w)
                    (journal w ++ [ELog WARNING (MLoadSkipped (fst kv) e)])))
          as [suffix Hs].
        exists (ELog WARNING (MLoadSkipped (fst kv) e) :: suffix).
        rewrite Hs. cbn. rewrite <- app_assoc. reflexivity.
      * exists []. cbn. rewrite app_nil_r. destruct w; reflexivity.
Qed.

(** What it returns does not depend on the world it runs in. *)
Lemma restore_items_result (items : dict) : forall acc w1 w2,
  fst (restore_items E items acc w1) = fst (restore_items E items acc w2).
Proof.
  induction items as [|kv items IH]; intros acc w1 w2; [reflexivity|].
  cbn [restore_items]. destruct (restore_entry E kv) as [[k v]|e].
  - apply IH.
  - destruct (caught_by e [ValueError; KeyError; TypeError]).
    + run_M. apply IH.
    + reflexivity.
Qed.

(** An entry whose key or timestamp text is rejected ([ValueError],
    [KeyError] or [TypeError] in the inner [try]) is skipped with a
    warning: the result is the one the file without that entry gives. *)
Lemma restore_items_skips (l1 l2 : dict) (kv : text * value) (e : exn) :
  restore_entry E kv = Raise e ->
  caught_by e [ValueError; KeyError; TypeError] = true ->
  forall acc w,
    fst (restore_items E (l1 ++ kv :: l2) acc w) =
    fst (restore_items E (l1 ++ l2) acc w) /\
    (forall r, fst (restore_items E (l1 ++ kv :: l2) acc w) = Ok r ->
       ELog WARNING (MLoadSkipped (fst kv) e) ∈
         journal (snd (restore_items E (l1 ++ kv :: l2) acc w))).
Proof.
  intros Hbad Hcaught. induction l1 as [|kv1 l1 IH]; intros acc w.
  - cbn [app restore_items]. rewrite Hbad, Hcaught. run_M.
    split; [apply restore_items_result|].
    intros r _.
    match goal with
    | |- context [restore_items E l2 acc ?w0] =>
        destruct (restore_items_journal l2 acc w0) as [suffix ->]
    end.
    cbn. apply elem_of_app. left. apply elem_of_app. right. constructor.
  - cbn [app restore_items]. destruct (restore_entry E kv1) as [[k v]|e1].
    + apply IH.
    + destruct (caught_by e1 [ValueError; KeyError; TypeError]).
      * run_M. apply IH.
      * split; [reflexivity|]. intros r H. discriminate H.
Qed.

(** [load_state] always returns a registry, whatever the file holds. *)
Lemma load_state_returns (w : world) :
  exists r w', load_state E w = (Ok r, w').
Proof.
  unfold load_state. run_M.
  destruct (state_file w) as [c|]; [|eexists; eexists; reflexivity].
  destruct (e_load_fault E); [eexists; eexists; reflexivity|].
  destruct c as [v| |]; try (eexists; eexists; reflexivity).
  cbn. destruct (py_items v) as [items|e]; cbn;
    [|destruct e; eexists; eexists; reflexivity].
  match goal with
  | |- context [restore_items E items ∅ ?w0] =>
      destruct (restore_items E items ∅ w0) as [[r|e] w1]
  end; cbn; [|destruct e]; eexists; eexists; reflexivity.
Qed.

(** No snapshot file: an empty registry, one INFO record. *)
Lemma load_state_absent (w : world) :
  state_file w = None ->
  fst (load_state E w) = Ok ∅ /\
  journal (snd (load_state E w)) =
    journal w ++ [ELog INFO MLoadTry; ELog INFO MLoadNoFile].
Proof.
  intros H. unfold load_state. run_M. rewrite H. cbn.
  rewrite <- app_assoc. split; reflexivity.
Qed.

(** A file that is not JSON: an empty registry, one ERROR record. *)
Lemma load_state_unparsable (w : world) (c : content) :
  state_file w = Some c ->
  e_load_fault E = false ->
  (forall v, c <> Doc v) ->
  fst (load_state E w) = Ok ∅ /\
  journal (snd (load_state E w)) =
    journal w ++ [ELog INFO MLoadTry; ELog ERROR MLoadBadJson].
Proof.
  intros H Hf Hc. unfold load_state. run_M. rewrite H. cbn. rewrite Hf.
  destruct c as [v| |]; [destruct (Hc v eq_refl)| |];
    cbn; rewrite <- app_assoc; split; reflexivity.
Qed.

(** A JSON object: what the loop over its items gives, or an empty
    registry when the loop stops on an exception it does not catch. *)
Lemma load_state_object (w : world) (items : dict) :
  state_file w = Some (Doc (VDict items)) ->
  e_load_fault E = false ->
  fst (load_state E w) =
    match fst (restore_items E items ∅ w) with
    | Ok r => Ok r
    | Raise _ => Ok ∅
    end.
Proof.
  intros H Hf. unfold load_state. run_M. rewrite H. cbn. rewrite Hf. cbn.
  match goal with
  | |- context [restore_items E items ∅ ?w0] =>
      rewrite (restore_items_result items ∅ w w0);
      destruct (restore_items E items ∅ w0) as [[r|e] w1]
  end; cbn; [reflexivity|].
  destruct e; reflexivity.
Qed.

End LoadState.

(** C5, at the input where the code departs from it. The first entry has
    a timestamp that parses but lies before year 1 once moved to UTC: the
    conversion raises [OverflowError], which the inner [try] does not
    catch, so the whole load ends in the catch-all branch with an empty
    registry and an ERROR record; the second, ordinary entry is lost and
    no warning is logged. Without the first entry the second is restored. *)
Theorem load_state_overflow_entry :
  restore_entry Example.quiet Example.early_entry = Raise OverflowError /\
  caught_by OverflowError [ValueError; KeyError; TypeError] = false /\
  fst (load_state Example.quiet
         (Example.on_disk [Example.early_entry; Example.good_entry])) = Ok ∅ /\
  journal (snd (load_state Example.quiet
         (Example.on_disk [Example.early_entry; Example.good_entry]))) =
    [ELog INFO MLoadTry; ELog ERROR (MLoadUnexpected OverflowError)] /\
  fst (load_state Example.quiet (Example.on_disk [Example.good_entry])) =
    Ok Example.one_share.
Proof.
  split; [vm_compute; reflexivity|].
  split; [reflexivity|].
  split; [vm_compute; reflexivity|].
  split; [vm_compute; reflexivity|].
  vm_compute. reflexivity.
Qed.

(** ** The sheet *)

Lemma same_store_refl w : same_store w w.
Proof.
  unfold same_store. repeat split. exists []. rewrite app_nil_r. split; reflexivity.
Qed.

Lemma canonical_views_app a b :
  canonical_views (a ++ b) = canonical_views a ++ canonical_views b.
Proof. unfold canonical_views. apply omap_app. Qed.

Lemma append_calls_app a b :
  append_calls (a ++ b) = append_calls a ++ append_calls b.
Proof. unfold append_calls. apply omap_app. Qed.

Lemma same_store_trans w1 w2 w3 :
  same_store w1 w2 -> same_store w2 w3 -> same_store w1 w3.
Proof.
  intros (Ha & Hs & Ht & Hn & s1 & Hj1 & Hv1) (Ha' & Hs' & Ht' & Hn' & s2 & Hj2 & Hv2).
  unfold same_store. rewrite Ha', Hs', Ht', Hn'. repeat split; try assumption.
  exists (s1 ++ s2). rewrite Hj2, Hj1, <- app_assoc, canonical_views_app, Hv1, Hv2.
  split; reflexivity.
Qed.

Lemma no_sheet_write_refl w : no_sheet_write w w.
Proof.
  unfold no_sheet_write. repeat split. exists []. rewrite app_nil_r. split; reflexivity.
Qed.

Lemma no_sheet_write_trans w1 w2 w3 :
  no_sheet_write w1 w2 -> no_sheet_write w2 w3 -> no_sheet_write w1 w3.
Proof.
  intros (Ha & Hs & s1 & Hj1 & Hv1) (Ha' & Hs' & s2 & Hj2 & Hv2).
  unfold no_sheet_write. rewrite Ha', Hs'. repeat split; try assumption.
  exists (s1 ++ s2). rewrite Hj2, Hj1, <- app_assoc, append_calls_app, Hv1, Hv2.
  split; reflexivity.
Qed.

(** Closes [same_store] and [no_sheet_write] goals about a world that was
    computed from [w] by journal extensions. *)
Ltac frame_done :=
  first [ apply same_store_refl | apply no_sheet_write_refl
        | unfold same_store, no_sheet_write; cbn;
          repeat (split; [reflexivity|]);
          eexists; (split; [rewrite <- ?app_assoc; reflexivity | reflexivity]) ].

Section Sheet.

Context (E : env).

Lemma setup_google_sheets_frame w :
  exists b w', setup_google_sheets E w = (Ok b, w') /\
               same_store w w' /\ no_sheet_write w w' /\
               (e_setup E (n_setup w) = SetupOk -> b = true /\ gs_connected w' = true).
Proof.
  run_sheet. destruct (e_setup E (n_setup w)); eexists; eexists;
    (split; [reflexivity|]); (split; [frame_done|]); (split; [frame_done|]);
    intros H; first [discriminate H | split; reflexivity].
Qed.

(** A length that is not negative is slept. *)
Lemma sleep_ok d : 0 <= d -> sleep d = emit (ESleep d).
Proof.
  intros H. unfold sleep. destruct (Z.ltb_spec d 0); [lia | reflexivity].
Qed.

Lemma connect_loop_frame mr d rem : 0 <= d -> forall attempt w,
  exists b w', connect_loop E mr d rem attempt w = (Ok b, w') /\
               same_store w w' /\ no_sheet_write w w'.
Proof.
  intros Hd. induction rem as [|rem IH]; intros attempt w.
  - eexists; eexists. split; [run_sheet; reflexivity|]. split; frame_done.
  - cbn [connect_loop]. rewrite (sleep_ok d Hd).
    destruct (setup_google_sheets_frame w) as (b & w1 & Hs & Hf1 & Hn1 & _).
    unfold mbind at 1. unfold M_bind at 1. rewrite Hs.
    destruct b.
    + eexists; eexists. split; [reflexivity|]. split; assumption.
    + destruct (attempt <? mr).
      * run_sheet.
        match goal with
        | |- context [connect_loop E mr d rem (attempt + 1) ?w0] =>
            destruct (IH (attempt + 1) w0) as (b & w2 & Hc & Hf2 & Hn2);
            rewrite Hc; exists b, w2; split; [reflexivity|];
            split; [eapply same_store_trans; [exact Hf1|];
                    eapply same_store_trans; [|exact Hf2]; frame_done
                   |eapply no_sheet_write_trans; [exact Hn1|];
                    eapply no_sheet_write_trans; [|exact Hn2]; frame_done]
        end.
      * run_sheet.
        destruct (IH (attempt + 1) w1) as (b & w2 & Hc & Hf2 & Hn2).
        destruct w1. cbn in *. rewrite Hc. exists b, w2. split; [reflexivity|].
        split; [eapply same_store_trans; eassumption
               |eapply no_sheet_write_trans; eassumption].
Qed.

Lemma connect_loop_first_ok mr d rem attempt w :
  e_setup E (n_setup w) = SetupOk ->
  exists w', connect_loop E mr d (S rem) attempt w = (Ok true, w') /\
             gs_connected w' = true /\ same_store w w' /\ no_sheet_write w w'.
Proof.
  intros H. cbn [connect_loop].
  destruct (setup_google_sheets_frame w) as (b & w1 & Hs & Hf1 & Hn1 & Hok).
  destruct (Hok H) as [-> Hc].
  unfold mbind at 1. unfold M_bind at 1. rewrite Hs.
  exists w1. split; [reflexivity|]. auto.
Qed.

Lemma get_worksheet_frame_for mr d w :
  0 <= d ->
  exists b w', get_worksheet_with_retry E mr d w = (Ok b, w') /\
               same_store w w' /\ no_sheet_write w w'.
Proof.
  intros Hd. run_sheet. destruct (gs_connected w) eqn:Hc.
  - destruct (e_probe E (n_probe w)); cbn.
    + eexists; eexists. split; [reflexivity|]. split; frame_done.
    + match goal with
      | |- context [connect_loop E mr d ?r ?a ?w0] =>
          destruct (connect_loop_frame mr d r Hd a w0) as (b & w2 & Hl & Hf & Hn);
          rewrite Hl; exists b, w2; split; [reflexivity|];
          split; [eapply same_store_trans; [|exact Hf]; frame_done
                 |eapply no_sheet_write_trans; [|exact Hn]; frame_done]
      end.
  - match goal with
    | |- context [connect_loop E mr d ?r ?a ?w0] =>
        destruct (connect_loop_frame mr d r Hd a w0) as (b & w2 & Hl & Hf & Hn);
        rewrite Hl; exists b, w2; split; [reflexivity|];
        split; [eapply same_store_trans; [|exact Hf]; frame_done
               |eapply no_sheet_write_trans; [|exact Hn]; frame_done]
    end.
Qed.

(** The same for the calls the program makes, with its default arguments. *)
Lemma get_worksheet_frame w :
  exists b w', get_worksheet_with_retry E 2 5 w = (Ok b, w') /\
               same_store w w' /\ no_sheet_write w w'.
Proof. apply get_worksheet_frame_for. lia. Qed.

End Sheet.

Section Append.

Context (E : env) (data : list value) (max_retries delay : Z).

(** One turn of the loop, up to the point where a retry is decided. *)
Lemma append_loop_unfold rem attempt w :
  append_loop E data max_retries delay (S rem) attempt w =
  (n ← gets n_append;
   modify (set_n_append (S n));;
   let o := e_append E n in
   emit (EAppendRow data o);;
   match o with
   | ApiOk =>
       modify (fun w => set_sheet (sheet w ++ [data]) w);;
       log INFO MAppendOk;; mret true
   | ApiError status =>
       log ERROR (MAppendApiError attempt status);;
       if transient status then
         if attempt <? max_retries then
           log WARNING MAppendRetrying;;
           sleep delay;;
           ws ← get_worksheet_with_retry E 2 5;
           if ws : bool
           then append_loop E data max_retries delay rem (attempt + 1)
           else log ERROR MAppendNoWorksheetRetry;; mret false
         else log ERROR MAppendGaveUp;; mret false
       else log ERROR (MAppendNotRecoverable status);; mret false
   | ApiFault => log ERROR (MAppendUnexpected attempt);; mret false
   end) w.
Proof. reflexivity. Qed.

(** The loop always returns, and leaves the registry and the files alone. *)
Lemma append_loop_frame rem : 0 <= delay -> forall attempt w,
  exists b w', append_loop E data max_retries delay rem attempt w = (Ok b, w') /\
               same_store w w'.
Proof.
  intros Hd. induction rem as [|rem IH]; intros attempt w.
  - eexists; eexists. split; [reflexivity|]. frame_done.
  - rewrite append_loop_unfold, (sleep_ok delay Hd). run_M.
    destruct (e_append E (n_append w)) as [|status|]; cbn.
    + eexists; eexists. split; [reflexivity|]. frame_done.
    + destruct (transient status); cbn;
        [|eexists; eexists; split; [reflexivity|frame_done]].
      destruct (attempt <? max_retries); cbn;
        [|eexists; eexists; split; [reflexivity|frame_done]].
      match goal with
      | |- context [get_worksheet_with_retry E 2 5 ?w0] =>
          destruct (get_worksheet_frame E w0) as (b & w1 & Hg & Hf & _)
      end.
      rewrite Hg. destruct b; cbn.
      * destruct (IH (attempt + 1) w1) as (b & w2 & Hl & Hf2).
        rewrite Hl. exists b, w2. split; [reflexivity|].
        eapply same_store_trans; [|exact Hf2].
        eapply same_store_trans; [|exact Hf]. frame_done.
      * destruct w1. eexists; eexists. split; [reflexivity|].
        eapply same_store_trans;
          [eapply same_store_trans; [|exact Hf]; frame_done|].
        frame_done.
    + eexists; eexists. split; [reflexivity|]. frame_done.
Qed.

End Append.

Section RetryPolicy.

Context (E : env) (data : list value) (max_retries delay : Z).

(** [append_row_with_retry] always returns, and leaves the registry and
    the files alone. *)
Lemma append_row_frame w :
  0 <= delay ->
  exists b w', append_row_with_retry E data max_retries delay w = (Ok b, w') /\
               same_store w w'.
Proof.
  intros Hd. unfold append_row_with_retry. run_M.
  destruct (get_worksheet_frame E w) as (b & w1 & Hg & Hf & _).
  rewrite Hg. destruct b.
  - destruct (append_loop_frame E data max_retries delay
                (Z.to_nat (max_retries + 1)) Hd 0 w1) as (b & w2 & Hl & Hf2).
    rewrite Hl. exists b, w2. split; [reflexivity|].
    eapply same_store_trans; eassumption.
  - destruct w1. cbn. eexists; eexists. split; [reflexivity|].
    eapply same_store_trans; [exact Hf|]. frame_done.
Qed.

Lemma steps_app a b : steps (a ++ b) = steps a ++ steps b.
Proof. unfold steps. apply omap_app. Qed.

Lemma retried_not_permanent o : retried o = true -> permanent o = false.
Proof. destruct o as [|status|]; cbn; try discriminate. intros ->. reflexivity. Qed.

(** Every call of [get_worksheet_with_retry] leaves its answer in the
    journal, once, and makes no append. *)
Lemma connect_loop_steps mr d rem : 0 <= d -> forall attempt w,
  exists b w' sfx,
    connect_loop E mr d rem attempt w = (Ok b, w') /\
    journal w' = journal w ++ sfx /\
    steps sfx = [Fetched b] /\ append_calls sfx = [].
Proof.
  intros Hd. induction rem as [|rem IH]; intros attempt w.
  - exists false. eexists. exists [ELog ERROR MWsGiveUp].
    split; [run_sheet; reflexivity|]. repeat split.
  - cbn [connect_loop]. rewrite (sleep_ok d Hd). run_sheet.
    destruct (e_setup E (n_setup w)) eqn:Ho; cbn.
    + exists true. eexists. exists [ESetup SetupOk].
      split; [reflexivity|]. repeat split.
    + destruct (attempt <? mr); cbn;
        match goal with
        | |- context [connect_loop E mr d rem (attempt + 1) ?w0] =>
            destruct (IH (attempt + 1) w0) as (b & w2 & sfx & Hl & Hj & Hf & Hc);
            rewrite Hl; exists b, w2; eexists (ESetup SetupBadHeaders :: _);
            (split; [reflexivity|]);
            (split; [rewrite Hj; cbn; rewrite <- ?app_assoc; cbn; reflexivity|]);
            split; assumption
        end.
    + destruct (attempt <? mr); cbn;
        match goal with
        | |- context [connect_loop E mr d rem (attempt + 1) ?w0] =>
            destruct (IH (attempt + 1) w0) as (b & w2 & sfx & Hl & Hj & Hf & Hc);
            rewrite Hl; exists b, w2; eexists (ESetup SetupFailed :: _);
            (split; [reflexivity|]);
            (split; [rewrite Hj; cbn; rewrite <- ?app_assoc; cbn; reflexivity|]);
            split; assumption
        end.
Qed.

Lemma get_worksheet_steps w :
  exists b w' sfx,
    get_worksheet_with_retry E 2 5 w = (Ok b, w') /\
    journal w' = journal w ++ sfx /\
    steps sfx = [Fetched b] /\ append_calls sfx = [].
Proof.
  run_sheet. destruct (gs_connected w) eqn:Hc.
  - destruct (e_probe E (n_probe w)) eqn:Hp; cbn.
    + exists true. eexists. exists [EProbe true; ELog DEBUG MWsValid].
      split; [reflexivity|]. split; [cbn; rewrite <- !app_assoc; reflexivity|].
      repeat split.
    + match goal with
      | |- context [connect_loop E 2 5 ?r ?a ?w1] =>
          destruct (connect_loop_steps 2 5 r ltac:(lia) a w1)
            as (b & w2 & sfx & Hl & Hj & Hf & Hcl)
      end.
      rewrite Hl. exists b, w2.
      exists ([EProbe false; ELog WARNING MWsInvalid; ELog INFO MWsConnecting] ++ sfx).
      split; [reflexivity|].
      split; [rewrite Hj; cbn; rewrite <- !app_assoc; reflexivity|].
      rewrite steps_app, append_calls_app, Hf, Hcl. split; reflexivity.
  - match goal with
    | |- context [connect_loop E 2 5 ?r ?a ?w1] =>
        destruct (connect_loop_steps 2 5 r ltac:(lia) a w1)
          as (b & w2 & sfx & Hl & Hj & Hf & Hcl)
    end.
    rewrite Hl. exists b, w2.
    exists ([ELog INFO MWsConnecting] ++ sfx).
    split; [reflexivity|].
    split; [rewrite Hj; cbn; rewrite <- !app_assoc; reflexivity|].
    rewrite steps_app, append_calls_app, Hf, Hcl. split; reflexivity.
Qed.

Lemma append_loop_run rem : 0 <= delay -> forall attempt w,
  rem = Z.to_nat (max_retries + 1 - attempt) ->
  exists b w' sfx,
    append_loop E data max_retries delay rem attempt w = (Ok b, w') /\
    journal w' = journal w ++ sfx /\ loop_end rem b sfx.
Proof.
  intros Hd. induction rem as [|rem IH]; intros attempt w Hn.
  - exists false, w, []. rewrite app_nil_r.
    split; [reflexivity|]. split; [reflexivity|].
    left. repeat split.
  - rewrite append_loop_unfold, (sleep_ok delay Hd). run_M.
    destruct (e_append E (n_append w)) as [|status|] eqn:Ho; cbn.
    + exists true. eexists. exists [EAppendRow data ApiOk; ELog INFO MAppendOk].
      split; [reflexivity|]. split; [cbn; rewrite <- !app_assoc; reflexivity|].
      right. exists [], ApiOk. split; [constructor|]. split; [reflexivity|].
      left. split; [reflexivity|]. left. split; reflexivity.
    + destruct (transient status) eqn:Htr; cbn.
      2:{ exists false. eexists.
          exists [EAppendRow data (ApiError status);
                  ELog ERROR (MAppendApiError attempt status);
                  ELog ERROR (MAppendNotRecoverable status)].
          split; [reflexivity|]. split; [cbn; rewrite <- !app_assoc; reflexivity|].
          right. exists [], (ApiError status). split; [constructor|].
          split; [reflexivity|].
          left. split; [reflexivity|]. left. cbn. rewrite Htr. split; reflexivity. }
      destruct (Z.ltb_spec attempt max_retries) as [Hlt|Hge]; cbn.
      2:{ exists false. eexists.
          exists [EAppendRow data (ApiError status);
                  ELog ERROR (MAppendApiError attempt status);
                  ELog ERROR MAppendGaveUp].
          split; [reflexivity|]. split; [cbn; rewrite <- !app_assoc; reflexivity|].
          right. exists [], (ApiError status). split; [constructor|].
          split; [reflexivity|].
          left. split; [reflexivity|]. right. cbn. rewrite Htr.
          split; [reflexivity|]. split; [lia | reflexivity]. }
      match goal with
      | |- context [get_worksheet_with_retry E 2 5 ?w0] =>
          destruct (get_worksheet_steps w0)
            as (ws & w1 & sfx1 & Hg & Hj1 & Hf1 & Hc1)
      end.
      rewrite Hg. cbn in Hj1. destruct ws; cbn.
      * destruct (IH (attempt + 1) w1) as (b & w2 & sfx2 & Hl & Hj2 & Hend); [lia|].
        rewrite Hl. exists b, w2.
        exists ([EAppendRow data (ApiError status);
                 ELog ERROR (MAppendApiError attempt status);
                 ELog WARNING MAppendRetrying; ESleep delay] ++ sfx1 ++ sfx2).
        split; [reflexivity|].
        split; [rewrite Hj2, Hj1, <- !app_assoc; reflexivity|].
        unfold loop_end in *.
        rewrite !append_calls_app, !steps_app, Hc1, Hf1.
        change (append_calls [EAppendRow data (ApiError status);
                 ELog ERROR (MAppendApiError attempt status);
                 ELog WARNING MAppendRetrying; ESleep delay])
          with [(data, ApiError status)].
        change (steps [EAppendRow data (ApiError status);
                 ELog ERROR (MAppendApiError attempt status);
                 ELog WARNING MAppendRetrying; ESleep delay])
          with [Attempted (ApiError status)].
        cbn [app map].
        remember (append_calls sfx2) as calls eqn:Ecalls.
        remember (steps sfx2) as ss eqn:Ess.
        right.
        destruct Hend as [(Hr0 & _)|(pre & o & Hpre & Hcalls & Hcase)]; [lia|].
        exists (ApiError status :: pre), o.
        split; [constructor; [exact Htr | exact Hpre]|].
        split; [rewrite Hcalls; reflexivity|].
        destruct Hcase as [(Hss & Ho2)|(Hss & Ho2)]; [left | right];
          (split; [rewrite Hss; reflexivity|]).
        -- destruct Ho2 as [Ho2|(Ho2 & Hlen & Hb)]; [left; exact Ho2 | right].
           split; [exact Ho2|]. split; [cbn; lia | exact Hb].
        -- exact Ho2.
      * exists false. eexists.
        exists ([EAppendRow data (ApiError status);
                 ELog ERROR (MAppendApiError attempt status);
                 ELog WARNING MAppendRetrying; ESleep delay] ++ sfx1 ++
                [ELog ERROR MAppendNoWorksheetRetry]).
        split; [reflexivity|].
        split; [cbn; rewrite Hj1, <- !app_assoc; reflexivity|].
        right. exists [], (ApiError status). split; [constructor|].
        rewrite !append_calls_app, !steps_app, Hc1, Hf1.
        split; [reflexivity|]. right. cbn. rewrite Htr. repeat split.
    + exists false. eexists.
      exists [EAppendRow data ApiFault; ELog ERROR (MAppendUnexpected attempt)].
      split; [reflexivity|]. split; [cbn; rewrite <- !app_assoc; reflexivity|].
      right. exists [], ApiFault. split; [constructor|]. split; [reflexivity|].
      left. split; [reflexivity|]. left. split; reflexivity.
Qed.

(** The whole call: no worksheet and no attempt, or a worksheet and a run
    of the loop. *)
Lemma append_row_run w :
  0 <= delay ->
  exists b w' sfx,
    append_row_with_retry E data max_retries delay w = (Ok b, w') /\
    journal w' = journal w ++ sfx /\
    ((b = false /\ append_calls sfx = [] /\ steps sfx = [Fetched false]) \/
     exists sfx2,
       append_calls sfx = append_calls sfx2 /\
       steps sfx = Fetched true :: steps sfx2 /\
       loop_end (Z.to_nat (max_retries + 1)) b sfx2).
Proof.
  intros Hd. unfold append_row_with_retry. run_M.
  destruct (get_worksheet_steps w) as (ws & w1 & sfx1 & Hg & Hj1 & Hf1 & Hc1).
  rewrite Hg. destruct ws; cbn.
  - destruct (append_loop_run (Z.to_nat (max_retries + 1)) Hd 0 w1)
      as (b & w2 & sfx2 & Hl & Hj2 & Hend); [f_equal; lia|].
    rewrite Hl. exists b, w2, (sfx1 ++ sfx2).
    split; [reflexivity|]. split; [rewrite Hj2, Hj1, <- app_assoc; reflexivity|].
    right. exists sfx2. rewrite append_calls_app, steps_app, Hc1, Hf1.
    repeat split. exact Hend.
  - exists false. eexists. exists (sfx1 ++ [ELog ERROR MAppendNoWorksheet]).
    split; [reflexivity|]. split; [cbn; rewrite Hj1, <- app_assoc; reflexivity|].
    left. rewrite append_calls_app, steps_app, Hc1, Hf1. repeat split.
Qed.

(** In a list that ends with the only item of its kind, that item is
    followed by nothing. *)
Lemma only_at_the_end {A} (P : A -> Prop) (l : list A) (x : A) :
  Forall P l -> forall before c after,
  ~ P c -> l ++ [x] = before ++ c :: after -> after = [] /\ c = x.
Proof.
  induction 1 as [|a l Ha Hl IH]; intros before c after Hc Heq.
  - destruct before as [|b before]; cbn in Heq.
    + injection Heq as <- <-. split; reflexivity.
    + injection Heq as _ Heq. destruct before; discriminate Heq.
  - destruct before as [|b before]; cbn in Heq.
    + injection Heq as -> _. contradiction.
    + injection Heq as _ Heq. exact (IH _ _ _ Hc Heq).
Qed.

Lemma turns_fine (pre : list api_outcome) :
  Forall (fun x => retried x = true) pre ->
  Forall (fun s => s <> Fetched false /\
                   forall o, s = Attempted o -> permanent o = false) (turns pre).
Proof.
  induction 1 as [|o pre Ho _ IH]; cbn; [constructor|].
  constructor.
  - split; [discriminate|]. intros o' [= <-]. exact (retried_not_permanent o Ho).
  - constructor; [|exact IH]. split; [discriminate | discriminate].
Qed.

Lemma turns_attempts (pre : list api_outcome) :
  Forall (fun s => match s with
                   | Fetched ws => ws = true
                   | Attempted o => retried o = true
                   end) (turns pre) ->
  Forall (fun x => retried x = true) pre.
Proof.
  induction pre as [|o pre IH]; cbn; intros H; [constructor|].
  inversion H as [|? ? Ho H1]; subst. inversion H1 as [|? ? _ H2]; subst.
  constructor; [exact Ho | exact (IH H2)].
Qed.

End RetryPolicy.

(** C4, as the code has it, on what one run of [append_row_with_retry]
    does at the sheet ([steps]: the worksheets it fetched and the appends
    it attempted, in order). For a delay that [time.sleep] takes, the
    call returns, and:
    - if every fetch gave a worksheet and every attempt met a transient
      failure (429, 500, 503), the append was attempted exactly
      [max_retries + 1] times and is reported as failed;
    - a fetch that gave no worksheet, before the first attempt or before a
      retry, is the last step: failure at once, no further attempt;
    - an attempt that met a failure which is not transient is the last
      step: failure at once, no further attempt and no further fetch. *)
Theorem append_retry_policy (E : env) (data : list value)
    (max_retries delay : Z) (w : world) :
  sleepable delay ->
  exists b w' suffix,
    append_row_with_retry E data max_retries delay w = (Ok b, w') /\
    journal w' = journal w ++ suffix /\
    (0 <= max_retries ->
     Forall (fun s => match s with
                      | Fetched worksheet => worksheet = true
                      | Attempted o => retried o = true
                      end) (steps suffix) ->
     b = false /\ length (append_calls suffix) = Z.to_nat (max_retries + 1)) /\
    (forall before after,
       steps suffix = before ++ Fetched false :: after ->
       after = [] /\ b = false) /\
    (forall before o after,
       steps suffix = before ++ Attempted o :: after -> permanent o = true ->
       after = [] /\ b = false).
Proof.
  intros [Hd _].
  destruct (append_row_run E data max_retries delay w Hd)
    as (b & w' & sfx & Hrun & Hj & Hcase).
  exists b, w', sfx. split; [exact Hrun|]. split; [exact Hj|].
  destruct Hcase as [(Hb & Hcalls & Hss)|(sfx2 & Hcalls & Hss & Hend)].
  - rewrite Hss, Hcalls. split; [|split].
    + intros _ Hall. inversion Hall as [|? ? Hf _]. discriminate Hf.
    + intros before after Heq. destruct before as [|s before]; cbn in Heq.
      * injection Heq as <-. split; [reflexivity | exact Hb].
      * injection Heq as _ Heq. destruct before; discriminate Heq.
    + intros before o after Heq _. destruct before as [|s before]; cbn in Heq;
        [discriminate Heq|].
      injection Heq as _ Heq. destruct before; discriminate Heq.
  - rewrite Hss, Hcalls.
    destruct Hend as [(Hrem & Hc0 & Hs0 & Hb)|(pre & o & Hpre & Hcs & Hshape)].
    + rewrite Hs0. split; [|split].
      * intros Hm _. lia.
      * intros before after Heq. destruct before as [|s before]; cbn in Heq;
          [discriminate Heq|].
        injection Heq as _ Heq. destruct before; discriminate Heq.
      * intros before o after Heq _. destruct before as [|s before]; cbn in Heq;
          [discriminate Heq|].
        injection Heq as _ Heq. destruct before; discriminate Heq.
    + assert (Hlen : length (append_calls sfx2) = S (length pre)).
      { rewrite <- (length_map snd), Hcs, length_app. cbn. lia. }
      pose proof (turns_fine pre Hpre) as Hfine.
      destruct Hshape as [(Hs & Ho)|(Hs & Ho & Hb)]; rewrite Hs.
      * split; [|split].
        -- intros Hm Hall. rewrite app_comm_cons in Hall.
           apply Forall_app in Hall as [_ Hlast].
           inversion Hlast as [|? ? Hro _]; subst.
           destruct Ho as [(Hno & _)|(_ & Hn & Hb)]; [congruence|].
           split; [exact Hb | lia].
        -- intros before after Heq. exfalso.
           assert (Hall : Forall (fun s => s <> Fetched false)
                            (Fetched true :: turns pre ++ [Attempted o])).
           { constructor; [discriminate|]. apply Forall_app. split.
             - eapply Forall_impl; [exact Hfine|]. intros s [H _]. exact H.
             - constructor; [discriminate | constructor]. }
           rewrite Heq in Hall. apply Forall_app in Hall as [_ Hall].
           inversion Hall as [|? ? Hx _]. apply Hx. reflexivity.
        -- intros before c after Heq Hperm. rewrite app_comm_cons in Heq.
           destruct (only_at_the_end
                       (fun s => forall o, s = Attempted o -> permanent o = false)
                       (Fetched true :: turns pre) (Attempted o))
             with (before := before) (c := Attempted c) (after := after)
             as [Hafter Hc].
           { constructor; [discriminate|].
             eapply Forall_impl; [exact Hfine|]. intros s [_ H]. exact H. }
           { intros H. rewrite (H c eq_refl) in Hperm. discriminate Hperm. }
           { exact Heq. }
           injection Hc as ->. split; [exact Hafter|].
           destruct Ho as [(_ & Hb)|(_ & _ & Hb)]; [|exact Hb].
           rewrite Hb. destruct o; [discriminate Hperm | reflexivity | reflexivity].
      * split; [|split].
        -- intros _ Hall. exfalso. rewrite app_comm_cons in Hall.
           apply Forall_app in Hall as [_ Hlast].
           inversion Hlast as [|? ? _ Hl2]; subst.
           inversion Hl2 as [|? ? Hf _]; subst. discriminate Hf.
        -- intros before after Heq.
           replace (Fetched true :: turns pre ++ [Attempted o; Fetched false])
             with ((Fetched true :: turns pre ++ [Attempted o]) ++ [Fetched false])
             in Heq by (cbn; rewrite <- app_assoc; reflexivity).
           destruct (only_at_the_end (fun s => s <> Fetched false)
                       (Fetched true :: turns pre ++ [Attempted o]) (Fetched false))
             with (before := before) (c := Fetched false) (after := after)
             as [Hafter _].
           { constructor; [discriminate|]. apply Forall_app. split.
             - eapply Forall_impl; [exact Hfine|]. intros s [H _]. exact H.
             - constructor; [discriminate | constructor]. }
           { intros H. apply H. reflexivity. }
           { exact Heq. }
           split; [exact Hafter | exact Hb].
        -- intros before c after Heq Hperm. exfalso.
           assert (Hall : Forall (fun s => forall o, s = Attempted o ->
                                    permanent o = false)
                            (Fetched true :: turns pre ++ [Attempted o; Fetched false])).
           { constructor; [discriminate|]. apply Forall_app. split.
             - eapply Forall_impl; [exact Hfine|]. intros s [_ H]. exact H.
             - constructor.
               + intros o' [= <-]. exact (retried_not_permanent o Ho).
               + constructor; [discriminate | constructor]. }
           rewrite Heq in Hall. apply Forall_app in Hall as [_ Hall].
           inversion Hall as [|? ? Hx _]. rewrite (Hx c eq_refl) in Hperm.
           discriminate Hperm.
Qed.

(** The sheet is flaky: the cached worksheet never passes the probe, each
    reconnection succeeds only at its second call, and every append is
    answered 429. *)
Lemma append_retry_policy_witness :
  sleepable 5 /\
  exists b w' suffix,
    append_row_with_retry Scenario.flaky Example.some_row 2 5 Example.fresh
      = (Ok b, w') /\
    journal w' = journal Example.fresh ++ suffix /\
    (0 <= 2 ->
     Forall (fun s => match s with
                      | Fetched worksheet => worksheet = true
                      | Attempted o => retried o = true
                      end) (steps suffix) ->
     b = false /\ length (append_calls suffix) = Z.to_nat (2 + 1)) /\
    (forall before after,
       steps suffix = before ++ Fetched false :: after ->
       after = [] /\ b = false) /\
    (forall before o after,
       steps suffix = before ++ Attempted o :: after -> permanent o = true ->
       after = [] /\ b = false).
Proof.
  split; [unfold sleepable; lia|].
  apply (append_retry_policy Scenario.flaky Example.some_row 2 5 Example.fresh).
  unfold sleepable. lia.
Defined.

(** On that sheet every fetch gives a worksheet, by a reconnection, and
    the three attempts are made. *)
Lemma flaky_sheet_is_retried :
  exists w',
    append_row_with_retry Scenario.flaky Example.some_row 2 5 Example.fresh
      = (Ok false, w') /\
    steps (journal w') =
      [Fetched true; Attempted (ApiError 429);
       Fetched true; Attempted (ApiError 429);
       Fetched true; Attempted (ApiError 429)] /\
    setup_calls (journal w') =
      [SetupFailed; SetupOk; SetupFailed; SetupOk; SetupFailed; SetupOk].
Proof. eexists. split; [vm_compute; reflexivity|]. split; reflexivity. Qed.

(** When the sheet is down, the run ends on the fetch that gave no
    worksheet, after one attempt. *)
Lemma outage_ends_on_the_fetch :
  exists w',
    append_row_with_retry Example.outage Example.some_row 2 5 Example.fresh
      = (Ok false, w') /\
    steps (journal w') =
      [Fetched true; Attempted (ApiError 503); Fetched false].
Proof. eexists. split; [vm_compute; reflexivity|]. reflexivity. Qed.

(** An append that is refused with 403 ends the run: one attempt, and no
    fetch after it. *)
Lemma refused_append_is_not_retried :
  permanent (ApiError 403) = true /\
  exists w',
    append_row_with_retry Scenario.refusing Example.some_row 2 5 Example.fresh
      = (Ok false, w') /\
    steps (journal w') = [Fetched true; Attempted (ApiError 403)].
Proof.
  split; [reflexivity|]. eexists. split; [vm_compute; reflexivity|]. reflexivity.
Qed.

(** C4 as stated fails when the sheet is down altogether: every attempt
    made is answered 503, yet there is one attempt and not
    [max_retries + 1 = 3], because no worksheet can be re-obtained for the
    retry. *)
Lemma append_gives_up_without_worksheet :
  always_transient Example.outage /\
  exists w',
    append_row_with_retry Example.outage Example.some_row 2 5 Example.fresh
      = (Ok false, w') /\
    n_append w' = 1%nat /\ Z.to_nat (2 + 1) = 3%nat /\
    append_calls (journal w') = [(Example.some_row, ApiError 503)].
Proof.
  split.
  - intros n. exists 503. split; reflexivity.
  - eexists. split; [vm_compute; reflexivity|]. repeat split.
Qed.

(** ** [handle_location] *)

Section HandleLocation.

Context (E : env).

(** One open: the entry is (over)written with both timestamps at [now],
    a warning is logged when the key was there, and nothing is raised. *)
Lemma handle_location_opens update now_utc w k u :
  opens update = Some (k, u) ->
  exists w' suffix,
    handle_location E update now_utc w = (Ok tt, w') /\
    active_shares w' = <[k := new_share u now_utc]> (active_shares w) /\
    journal w' = journal w ++ suffix /\
    sheet w' = sheet w /\
    (is_Some (active_shares w !! k) ->
       ELog WARNING (MOpenOverwrite k) ∈ suffix).
Proof.
  unfold opens, handle_location. intros H.
  destruct (message update) as [m|]; [|discriminate].
  destruct (from_user m) as [user|]; [|discriminate].
  destruct (location m) as [l|]; [|discriminate].
  destruct (is_live l); [|discriminate]. injection H as <- <-.
  run_M. destruct (decide (is_Some (active_shares w !! (chat_id m, message_id m))))
    as [Hin|Hout]; cbn.
  - match goal with
    | |- context [save_state E ?r ?w0] =>
        destruct (save_state_spec E r w0) as (w' & sfx & Hs & Hj & Ha & Hsh & _)
    end.
    rewrite Hs. exists w'. eexists. split; [reflexivity|].
    cbn in Hj, Ha, Hsh. rewrite Ha, Hj, Hsh, <- !app_assoc.
    repeat split. intros _. apply elem_of_cons. left. reflexivity.
  - match goal with
    | |- context [save_state E ?r ?w0] =>
        destruct (save_state_spec E r w0) as (w' & sfx & Hs & Hj & Ha & Hsh & _)
    end.
    rewrite Hs. exists w'. eexists. split; [reflexivity|].
    cbn in Hj, Ha, Hsh. rewrite Ha, Hj, Hsh, <- !app_assoc.
    repeat split. intros Hin. contradiction.
Qed.

(** Whatever the update, [handle_location] returns. *)
Lemma handle_location_returns update now_utc w :
  exists w', handle_location E update now_utc w = (Ok tt, w').
Proof.
  destruct (opens update) as [[k u]|] eqn:Ho.
  - destruct (handle_location_opens update now_utc w k u Ho) as (w' & _ & H & _).
    exists w'. exact H.
  - unfold opens in Ho. unfold handle_location.
    destruct (message update) as [m|]; [|eexists; reflexivity].
    destruct (from_user m) as [user|]; [|eexists; reflexivity].
    destruct (location m) as [l|]; [|eexists; reflexivity].
    destruct (is_live l); [discriminate|]. eexists; reflexivity.
Qed.

End HandleLocation.

Section Opens.

Context (E : env).

Lemma handle_location_ignores update now_utc w :
  opens update = None ->
  exists w' suffix,
    handle_location E update now_utc w = (Ok tt, w') /\
    active_shares w' = active_shares w /\
    journal w' = journal w ++ suffix.
Proof.
  unfold opens, handle_location. intros Ho.
  destruct (message update) as [m|];
    [|eexists; eexists; split; [reflexivity|split; reflexivity]].
  destruct (from_user m) as [user|];
    [|eexists; eexists; split; [reflexivity|split; reflexivity]].
  destruct (location m) as [l|];
    [|eexists; eexists; split; [reflexivity|split; reflexivity]].
  destruct (is_live l); [discriminate|].
  eexists; eexists; split; [reflexivity|split; reflexivity].
Qed.

Lemma opened_keys_cons ev r :
  opened_keys (ev :: r) =
  match opens (fst ev) with
  | Some (k, _) => k :: opened_keys r
  | None => opened_keys r
  end.
Proof.
  unfold opened_keys. cbn. destruct (opens (fst ev)) as [[k u]|]; reflexivity.
Qed.

Lemma last_open_opened k evs :
  is_Some (last_open k evs) <-> k ∈ opened_keys evs.
Proof.
  induction evs as [|ev r IH]; cbn.
  - split; [intros [x H]; discriminate | intros H; inversion H].
  - unfold opened_keys in *. cbn [omap].
    destruct (last_open k r) as [x|] eqn:Hl.
    + split; [intros _|eauto].
      destruct (opens (fst ev)) as [[k' u]|]; cbn.
      * apply elem_of_cons. right. apply IH. eauto.
      * apply IH. eauto.
    + destruct (opens (fst ev)) as [[k' u]|]; cbn.
      * destruct (decide (k' = k)) as [->|Hne].
        -- split; [intros _; apply elem_of_cons; left; reflexivity | eauto].
        -- split; [intros [x H]; discriminate|].
           intros H. apply elem_of_cons in H as [->|H]; [contradiction|].
           apply IH in H. exact H.
      * exact IH.
Qed.

Lemma handle_locations_spec evs : forall w,
  exists w' suffix,
    handle_locations E evs w = (Ok tt, w') /\
    journal w' = journal w ++ suffix /\
    (forall k, active_shares w' !! k =
       match last_open k evs with
       | Some (u, now) => Some (new_share u now)
       | None => active_shares w !! k
       end) /\
    (forall pre ev post k u,
       evs = pre ++ ev :: post -> opens (fst ev) = Some (k, u) ->
       is_Some (active_shares w !! k) \/ k ∈ opened_keys pre ->
       ELog WARNING (MOpenOverwrite k) ∈ suffix).
Proof.
  induction evs as [|ev r IH]; intros w.
  - exists w, []. split; [reflexivity|]. rewrite app_nil_r.
    split; [reflexivity|]. split; [reflexivity|].
    intros [|? ?] ? ? ? ? H; discriminate H.
  - cbn [handle_locations].
    destruct (opens (fst ev)) as [[k0 u0]|] eqn:Ho.
    + destruct (handle_location_opens E (fst ev) (snd ev) w k0 u0 Ho)
        as (w1 & s1 & H1 & Ha1 & Hj1 & _ & Hw1).
      destruct (IH w1) as (w' & s2 & H2 & Hj2 & Hl2 & Hw2).
      exists w', (s1 ++ s2). unfold mbind, M_bind. rewrite H1.
      split; [exact H2|]. split; [rewrite Hj2, Hj1, app_assoc; reflexivity|].
      split.
      * intros k. rewrite Hl2. cbn [last_open]. rewrite Ho.
        destruct (last_open k r) as [[u now]|]; [reflexivity|].
        rewrite Ha1. destruct (decide (k0 = k)) as [->|Hne].
        -- rewrite lookup_insert_eq. reflexivity.
        -- rewrite lookup_insert_ne by exact Hne. reflexivity.
      * intros pre ev' post k u Hev Hk Hin. apply elem_of_app.
        destruct pre as [|p pre]; cbn in Hev; injection Hev as <- ->.
        -- left. rewrite Ho in Hk. injection Hk as -> ->. apply Hw1.
           destruct Hin as [Hin|Hin]; [exact Hin | inversion Hin].
        -- right. apply (Hw2 pre ev' post k u eq_refl Hk).
           rewrite Ha1. destruct (decide (k0 = k)) as [->|Hne].
           ++ left. rewrite lookup_insert_eq. eauto.
           ++ rewrite lookup_insert_ne by exact Hne.
              destruct Hin as [Hin|Hin]; [left; exact Hin|].
              rewrite opened_keys_cons, Ho in Hin.
              apply elem_of_cons in Hin as [->|Hin];
                [contradiction | right; exact Hin].
    + destruct (handle_location_ignores (fst ev) (snd ev) w Ho)
        as (w1 & s1 & H1 & Ha1 & Hj1).
      destruct (IH w1) as (w' & s2 & H2 & Hj2 & Hl2 & Hw2).
      exists w', (s1 ++ s2). unfold mbind, M_bind. rewrite H1.
      split; [exact H2|]. split; [rewrite Hj2, Hj1, app_assoc; reflexivity|].
      split.
      * intros k. rewrite Hl2. cbn [last_open]. rewrite Ho, Ha1.
        destruct (last_open k r) as [[u now]|]; reflexivity.
      * intros pre ev' post k u Hev Hk Hin. apply elem_of_app.
        destruct pre as [|p pre]; cbn in Hev; injection Hev as <- ->.
        -- rewrite Ho in Hk. discriminate.
        -- right. apply (Hw2 pre ev' post k u eq_refl Hk). rewrite Ha1.
           destruct Hin as [Hin|Hin]; [left; exact Hin|right].
           rewrite opened_keys_cons, Ho in Hin. exact Hin.
Qed.

End Opens.

(** C7. After any run of updates through [handle_location], every key
    holds at most one session: the one written by the last open of that
    key, with [start_time = last_update = now] of that open; keys never
    opened keep what they had, so the registry's keys are the old ones
    plus the opened ones. An open of a key that is already there overwrites
    it and logs a warning. No update makes the handler raise. *)
Theorem opens_overwrite_per_key (E : env) (evs : list (tg_update * datetime))
    (w : world) :
  exists w' suffix,
    handle_locations E evs w = (Ok tt, w') /\
    journal w' = journal w ++ suffix /\
    (forall k, active_shares w' !! k =
       match last_open k evs with
       | Some (u, now) =>
           Some (VDict [(k_user_id, VInt (user_id u));
                        (k_username, VStr (display_name u));
                        (k_start_time, VDatetime now);
                        (k_last_update, VDatetime now)])
       | None => active_shares w !! k
       end) /\
    dom (active_shares w') =
      dom (active_shares w) ∪ list_to_set (opened_keys evs) /\
    (forall pre ev post k u,
       evs = pre ++ ev :: post -> opens (fst ev) = Some (k, u) ->
       is_Some (active_shares w !! k) \/ k ∈ opened_keys pre ->
       ELog WARNING (MOpenOverwrite k) ∈ suffix).
Proof.
  destruct (handle_locations_spec E evs w) as (w' & sfx & H & Hj & Hl & Hw).
  exists w', sfx. split; [exact H|]. split; [exact Hj|]. split; [exact Hl|].
  split; [|exact Hw].
  apply set_eq. intros k.
  rewrite elem_of_union, !elem_of_dom, elem_of_list_to_set, <- last_open_opened, Hl.
  destruct (last_open k evs) as [[u now]|]; split; eauto.
  intros [H1|[x H1]]; [exact H1 | discriminate].
Qed.

(** ** [handle_edited_location] *)

Section HandleEdited.

Context (E : env).

(** A heartbeat on a session: [last_update] becomes the clock reading,
    whatever it is; everything else stays. *)
Lemma heartbeat_sets_last_update update now_utc w em uid name st lu :
  edited_message update = Some em -> message_id em <> 0 ->
  share_ended em = false ->
  active_shares w !! key_of em = Some (session uid name st lu) ->
  exists w' suffix,
    handle_edited_location E update now_utc w = (Ok tt, w') /\
    active_shares w' =
      <[key_of em := session uid name st now_utc]> (active_shares w) /\
    journal w' = journal w ++ ELog DEBUG (MHeartbeat (key_of em)) :: suffix /\
    sheet w' = sheet w /\ append_calls suffix = [].
Proof.
  intros Hem Hid Hlive Hk. unfold handle_edited_location. rewrite Hem.
  destruct (Z.eqb_spec (message_id em) 0) as [|_]; [contradiction|].
  unfold key_of in *. run_M. rewrite Hk. cbn. rewrite Hlive.
  unfold heartbeat. run_M. rewrite Hk. cbn.
  match goal with
  | |- context [save_state E ?r ?w0] =>
      destruct (save_state_spec E r w0) as (w' & sfx & Hs & Hj & Ha & Hsh & _ & Hc & _)
  end.
  rewrite Hs. cbn. exists w', sfx. split; [reflexivity|].
  cbn in Hj, Ha, Hsh. rewrite Ha, Hj, Hsh, <- app_assoc. repeat split. exact Hc.
Qed.


End HandleEdited.


(** C8, as the code has it. An open stores one clock reading as both
    [start_time] and [last_update]. A heartbeat stores the current clock
    reading as [last_update] without looking at [start_time]: afterwards
    [last_update >= start_time] holds exactly when that reading is not
    earlier than [start_time]; no value is clamped. A restore gives back
    the timestamps that were saved. None of the three raises. *)
Theorem timestamps_follow_the_clock (E : env) :
  (forall update now_utc w k u,
     opens update = Some (k, u) ->
     exists w', handle_location E update now_utc w = (Ok tt, w') /\
                active_shares w' !! k
                  = Some (session (user_id u) (display_name u) now_utc now_utc) /\
                ordered (session (user_id u) (display_name u) now_utc now_utc)) /\
  (forall update now_utc w em uid name st lu,
     edited_message update = Some em -> message_id em <> 0 ->
     share_ended em = false ->
     active_shares w !! key_of em = Some (session uid name st lu) ->
     exists w', handle_edited_location E update now_utc w = (Ok tt, w') /\
                active_shares w' !! key_of em
                  = Some (session uid name st now_utc) /\
                (ordered (session uid name st now_utc)
                 <-> utc_micros st <= utc_micros now_utc)) /\
  (forall k v, wf_session v ->
     restore_entry E (snapshot_entry (k, v)) = Ok (k, v)).
Proof.
  split; [|split].
  - intros update now_utc w k u Ho.
    destruct (handle_location_opens E update now_utc w k u Ho)
      as (w' & sfx & H & Ha & _).
    exists w'. split; [exact H|]. split.
    + rewrite Ha, lookup_insert_eq. reflexivity.
    + cbn. lia.
  - intros update now_utc w em uid name st lu Hem Hid Hlive Hk.
    destruct (heartbeat_sets_last_update E update now_utc w em uid name st lu
                Hem Hid Hlive Hk) as (w' & sfx & H & Ha & _).
    exists w'. split; [exact H|]. split.
    + rewrite Ha, lookup_insert_eq. reflexivity.
    + cbn. reflexivity.
  - intros k v Hv. apply restore_entry_snapshot. exact Hv.
Qed.

Lemma timestamps_follow_the_clock_witness :
  exists w',
    handle_edited_location Example.quiet Example.live_edit Example.that_night
      Example.with_share = (Ok tt, w') /\
    active_shares w' !! Example.key
      = Some (session 42 (T "alice") Example.noon Example.that_night) /\
    (ordered (session 42 (T "alice") Example.noon Example.that_night)
     <-> utc_micros Example.noon <= utc_micros Example.that_night).
Proof.
  apply (proj1 (proj2 (timestamps_follow_the_clock Example.quiet))
           Example.live_edit Example.that_night Example.with_share
           (mk_message 100 5 (Some Example.alice) (Some (mk_location (Some 3000))))
           42 (T "alice") Example.noon Example.ten_past).
  - reflexivity.
  - discriminate.
  - reflexivity.
  - reflexivity.
Defined.

(** C8 as stated fails: a heartbeat that arrives with a clock reading one
    second before the session's [start_time] is stored as it is, so
    [last_update < start_time] in the registry; the handler logs its usual
    records and nothing about the order. A snapshot whose entry has
    [last_update] before [start_time] is restored as it is, too. *)
Lemma heartbeat_before_start_not_clamped :
  exists w',
    handle_edited_location Example.quiet Example.live_edit Example.before_noon
      Example.with_share = (Ok tt, w') /\
    active_shares w' !! Example.key
      = Some (session 42 (T "alice") Example.noon Example.before_noon) /\
    utc_micros Example.before_noon < utc_micros Example.noon /\
    logs (journal w')
      = [(DEBUG, MHeartbeat Example.key); (DEBUG, MSaveTry); (INFO, MSaveOk 1)] /\
    fst (load_state Example.quiet (Example.on_disk [Example.backwards_entry]))
      = Ok {[ Example.key := session 42 (T "alice") Example.noon Example.before_noon ]}.
Proof.
  eexists. split; [vm_compute; reflexivity|].
  split; [vm_compute; reflexivity|].
  split; [vm_compute; reflexivity|].
  split; [vm_compute; reflexivity|].
  vm_compute. reflexivity.
Qed.

(** ** [cleanup_inactive_shares] *)

Section Cleanup.

Context (E : env) (now_utc : datetime) (inactive_limit : Z).

Lemma fst_map_to_list (r : registry) :
  map fst (map_to_list r) = (map_to_list r).*1.
Proof. reflexivity. Qed.

(** The first loop reads the registry and only writes to the journal: it
    returns the keys whose entries are marked, in the order visited. *)
Lemma mark_inactive_spec keys : forall acc w,
  exists suffix,
    mark_inactive now_utc inactive_limit keys acc w =
      (Ok (acc ++ List.filter (key_marked now_utc inactive_limit (active_shares w)) keys),
       set_journal (journal w ++ suffix) w) /\
    append_calls suffix = [] /\ canonical_views suffix = [].
Proof.
  induction keys as [|key keys IH]; intros acc w.
  - exists []. cbn. rewrite !app_nil_r. destruct w. repeat split.
  - cbn [mark_inactive List.filter]. unfold key_marked at 1. run_M.
    destruct (active_shares w !! key) as [v|] eqn:Hk;
      [|destruct (IH acc w) as (sfx & -> & Ha & Hc); exists sfx;
        repeat split; assumption].
    unfold marked. destruct (truthy v); cbn;
      [|destruct (IH acc w) as (sfx & -> & Ha & Hc); exists sfx;
        repeat split; assumption].
    destruct (is_inactive now_utc inactive_limit v) as [[]|e]; cbn.
    + match goal with
      | |- context [mark_inactive now_utc inactive_limit keys ?a ?w0] =>
          destruct (IH a w0) as (sfx & -> & Ha & Hc)
      end.
      exists (ELog INFO (MJobMark key) :: sfx).
      split; [|split; [exact Ha | exact Hc]].
      unfold set_journal. cbn. rewrite <- !app_assoc. reflexivity.
    + destruct (IH acc w) as (sfx & -> & Ha & Hc). exists sfx.
      repeat split; assumption.
    + destruct (subclass e KeyError); cbn;
        match goal with
        | |- context [mark_inactive now_utc inactive_limit keys ?a ?w0] =>
            destruct (IH a w0) as (sfx & -> & Ha & Hc)
        end;
        eexists (_ :: sfx);
        (split; [unfold set_journal; cbn; rewrite <- !app_assoc; reflexivity
                |split; [exact Ha | exact Hc]]).
Qed.

(** The second loop on distinct keys that are all present: every one of
    them is deleted and counted. *)
Lemma remove_marked_spec keys : forall n b w,
  NoDup keys ->
  (forall k, k ∈ keys -> is_Some (active_shares w !! k)) ->
  exists r',
    remove_marked keys n b w =
      (Ok ((n + length keys)%nat, b || match keys with [] => false | _ => true end),
       set_active_shares r' w) /\
    (forall k, r' !! k = if decide (k ∈ keys) then None else active_shares w !! k) /\
    (size r' + length keys = size (active_shares w))%nat.
Proof.
  induction keys as [|key keys IH]; intros n b w Hnd Hin.
  - exists (active_shares w). cbn. rewrite Nat.add_0_r, orb_false_r.
    destruct w. cbn. split; [reflexivity|]. split; [|lia].
    intros k. destruct (decide (k ∈ [])) as [H|_]; [inversion H | reflexivity].
  - apply NoDup_cons in Hnd as [Hnotin Hnd].
    cbn [remove_marked]. run_M.
    destruct (decide (is_Some (active_shares w !! key))) as [Hp|Hn];
      [|destruct Hn; apply Hin; apply elem_of_cons; left; reflexivity].
    cbn.
    match goal with
    | |- context [remove_marked keys ?n0 ?b0 ?w0] =>
        destruct (IH n0 b0 w0 Hnd) as (r' & -> & Hl & Hs)
    end.
    { cbn. intros k Hk. rewrite lookup_delete_ne.
      - apply Hin. apply elem_of_cons. right. exact Hk.
      - intros ->. contradiction. }
    exists r'. cbn in *. split; [|split].
    + rewrite orb_true_r, Nat.add_succ_r. reflexivity.
    + intros k. rewrite Hl.
      destruct (decide (k ∈ keys)) as [Hk|Hk].
      * rewrite decide_True by (apply elem_of_cons; right; exact Hk). reflexivity.
      * destruct (decide (k = key)) as [->|Hne].
        -- rewrite decide_True by (apply elem_of_cons; left; reflexivity).
           apply lookup_delete_eq.
        -- rewrite decide_False.
           ++ apply lookup_delete_ne. congruence.
           ++ intros H. apply elem_of_cons in H as [H|H]; contradiction.
    + rewrite map_size_delete_Some in Hs by exact Hp.
      assert (size (active_shares w) <> 0%nat).
      { destruct Hp as [v Hv]. intros H0. apply map_size_empty_iff in H0.
        rewrite H0 in Hv. rewrite lookup_empty in Hv. discriminate. }
      lia.
Qed.

End Cleanup.

Section CleanupJob.

Context (E : env) (now_utc : datetime) (inactive_limit : Z).

Lemma marked_keys_elem (r : registry) k :
  k ∈ List.filter (key_marked now_utc inactive_limit r) (map fst (map_to_list r))
  <-> key_marked now_utc inactive_limit r k = true.
Proof.
  rewrite list_elem_of_In, filter_In. split; [intros [_ H]; exact H|].
  intros H. split; [|exact H].
  unfold key_marked in H. destruct (r !! k) as [v|] eqn:Hk; [|discriminate].
  apply list_elem_of_In. rewrite fst_map_to_list.
  apply list_elem_of_fmap. exists (k, v). split; [reflexivity|].
  apply elem_of_map_to_list. exact Hk.
Qed.

Lemma marked_keys_NoDup (r : registry) :
  NoDup (List.filter (key_marked now_utc inactive_limit r) (map fst (map_to_list r))).
Proof.
  apply NoDup_ListNoDup, List.NoDup_filter, NoDup_ListNoDup.
  rewrite fst_map_to_list. apply NoDup_fst_map_to_list.
Qed.

(** The whole job, once the limit has been built: exactly the marked
    entries are removed, their number is logged, the snapshot is saved
    again when there were any, and the sheet is never touched. *)
Lemma cleanup_spec w :
  timedelta_hours (MAX_INACTIVE_HOURS E) = Ok inactive_limit ->
  exists w' suffix,
    cleanup_inactive_shares E now_utc w = (Ok tt, w') /\
    (forall k, active_shares w' !! k =
       if key_marked now_utc inactive_limit (active_shares w) k
       then None else active_shares w !! k) /\
    journal w' = journal w ++ suffix /\
    sheet w' = sheet w /\ n_append w' = n_append w /\
    append_calls suffix = [] /\
    let removed :=
      length (List.filter (key_marked now_utc inactive_limit (active_shares w))
                (map fst (map_to_list (active_shares w)))) in
    (size (active_shares w') + removed = size (active_shares w))%nat /\
    match removed with
    | O => ELog INFO MJobNothing ∈ suffix
    | S _ => ELog INFO (MJobDone removed) ∈ suffix /\
             ELog DEBUG MSaveTry ∈ suffix
    end.
Proof.
  intros Hlim. unfold cleanup_inactive_shares. run_M. rewrite Hlim. cbn.
  match goal with
  | |- context [mark_inactive now_utc inactive_limit ?ks ?a ?w0] =>
      destruct (mark_inactive_spec now_utc inactive_limit ks a w0)
        as (sfx & -> & Ha & _)
  end.
  cbn [app active_shares].
  pose proof (marked_keys_elem (active_shares w)) as Helem.
  pose proof (marked_keys_NoDup (active_shares w)) as Hnd.
  destruct (List.filter (key_marked now_utc inactive_limit (active_shares w))
              (map fst (map_to_list (active_shares w)))) as [|k0 ks] eqn:Hf.
  - eexists; eexists. split; [run_M; reflexivity|]. cbn.
    split; [|split; [rewrite <- !app_assoc; reflexivity|]].
    + intros k. destruct (key_marked now_utc inactive_limit (active_shares w) k) eqn:Hm;
        [|reflexivity].
      apply Helem in Hm. inversion Hm.
    + repeat split; try lia.
      * rewrite !append_calls_app, Ha. reflexivity.
      * apply elem_of_app. right. apply elem_of_app. right. constructor.
  - run_M.
    match goal with
    | |- context [remove_marked (k0 :: ks) ?n0 ?b0 ?w0] =>
        destruct (remove_marked_spec (k0 :: ks) n0 b0 w0 Hnd) as (r' & -> & Hl & Hs)
    end.
    { cbn. intros k Hk. apply Helem in Hk. unfold key_marked in Hk.
      destruct (active_shares w !! k); [eauto | discriminate]. }
    cbn in Hl, Hs |- *.
    match goal with
    | |- context [save_state E ?r ?w0] =>
        destruct (save_state_spec E r w0)
          as (w' & sfx2 & -> & Hj2 & Ha2 & Hsh2 & Hn2 & Hc2 & Htry & _)
    end.
    cbn in Hj2, Ha2, Hsh2, Hn2.
    exists w'. eexists. split; [reflexivity|].
    split; [|split; [rewrite Hj2, <- !app_assoc; reflexivity|]].
    + intros k. rewrite Ha2, Hl.
      destruct (decide (k ∈ k0 :: ks)) as [Hin|Hout].
      * apply Helem in Hin. rewrite Hin. reflexivity.
      * destruct (key_marked now_utc inactive_limit (active_shares w) k) eqn:Hm;
          [|reflexivity].
        apply Helem in Hm. contradiction.
    + rewrite Hsh2, Hn2, Ha2. repeat split; try lia.
      * rewrite !append_calls_app, Ha, Hc2. reflexivity.
      * apply elem_of_app. right. apply elem_of_app. right.
        apply elem_of_cons. left. reflexivity.
      * apply elem_of_app. right. apply elem_of_app. right.
        apply elem_of_cons. right. exact Htry.
Qed.


(** When the limit itself cannot be built the job stops before it looks at
    the registry. *)
Lemma cleanup_no_limit w e :
  timedelta_hours (MAX_INACTIVE_HOURS E) = Raise e ->
  cleanup_inactive_shares E now_utc w =
    (Raise e, set_journal (journal w ++ [ELog INFO MJobStart]) w).
Proof.
  intros H. unfold cleanup_inactive_shares. run_M. rewrite H. reflexivity.
Qed.

(** The verdict on a session with an aware [last_update]. *)
Lemma marked_session uid name st lu :
  is_Some (tzinfo now_utc) -> is_Some (tzinfo lu) ->
  marked now_utc inactive_limit (session uid name st lu) =
    (inactive_limit <? utc_micros now_utc - utc_micros lu).
Proof.
  intros [a Ha] [b Hb]. unfold marked, is_inactive, session. cbn.
  rewrite Hb. cbn. unfold Datetime.sub. rewrite Ha, Hb. cbn.
  destruct (inactive_limit <? utc_micros now_utc - utc_micros lu); reflexivity.
Qed.

(** The verdict on an entry without [last_update]: [start_time] is judged
    in its place. *)
Lemma marked_without_last_update (l : dict) st :
  is_Some (tzinfo now_utc) -> is_Some (tzinfo st) ->
  dict_get k_last_update l = None ->
  dict_get k_start_time l = Some (VDatetime st) ->
  marked now_utc inactive_limit (VDict l) =
    (inactive_limit <? utc_micros now_utc - utc_micros st).
Proof.
  intros [a Ha] [b Hb] Hl Hs. unfold marked, is_inactive.
  assert (Ht : truthy (VDict l) = true) by (destruct l; [discriminate Hs | reflexivity]).
  rewrite Ht. cbn [py_get mbind res_bind andb]. rewrite Hs, Hl. cbn.
  rewrite Hb. cbn. unfold Datetime.sub. rewrite Ha, Hb. cbn.
  destruct (inactive_limit <? utc_micros now_utc - utc_micros st); reflexivity.
Qed.

End CleanupJob.

(** C3. One sweep of [cleanup_inactive_shares] at clock reading [now]
    removes a session exactly when [now - last_update] exceeds the limit
    [timedelta(hours=MAX_INACTIVE_HOURS)]; a session within the limit is
    left as it was; and the number of entries removed is what the job
    logs. *)
Theorem cleanup_removes_exactly_the_stale (E : env) (now_utc : datetime)
    (inactive_limit : Z) (w : world) :
  timedelta_hours (MAX_INACTIVE_HOURS E) = Ok inactive_limit ->
  is_Some (tzinfo now_utc) ->
  exists w' suffix,
    cleanup_inactive_shares E now_utc w = (Ok tt, w') /\
    journal w' = journal w ++ suffix /\
    (forall k uid name st lu,
       active_shares w !! k = Some (session uid name st lu) ->
       is_Some (tzinfo lu) ->
       (active_shares w' !! k = None
        <-> inactive_limit < utc_micros now_utc - utc_micros lu) /\
       (utc_micros now_utc - utc_micros lu <= inactive_limit ->
        active_shares w' !! k = Some (session uid name st lu))) /\
    match (size (active_shares w) - size (active_shares w'))%nat with
    | O => ELog INFO MJobNothing ∈ suffix
    | S n => ELog INFO (MJobDone (S n)) ∈ suffix
    end.
Proof.
  intros Hlim Hnow.
  destruct (cleanup_spec E now_utc inactive_limit w Hlim)
    as (w' & sfx & H & Hl & Hj & _ & _ & _ & Hsize & Hlog).
  exists w', sfx. split; [exact H|]. split; [exact Hj|]. split.
  - intros k uid name st lu Hk Hlu. rewrite Hl. unfold key_marked. rewrite Hk.
    rewrite marked_session by assumption.
    destruct (Z.ltb_spec inactive_limit (utc_micros now_utc - utc_micros lu)).
    + split; [split; [intros _; assumption | reflexivity] | lia].
    + split; [split; [discriminate | lia] | reflexivity].
  - cbn zeta in Hsize, Hlog.
    replace (size (active_shares w) - size (active_shares w'))%nat
      with (length (List.filter (key_marked now_utc inactive_limit (active_shares w))
                      (map fst (map_to_list (active_shares w))))) by lia.
    destruct (length _); [|destruct Hlog as [Hlog _]]; exact Hlog.
Qed.

Lemma cleanup_removes_exactly_the_stale_witness :
  timedelta_hours (MAX_INACTIVE_HOURS Example.quiet) = Ok (9 * us_per_hour) /\
  is_Some (tzinfo Example.that_night) /\
  exists w' suffix,
    cleanup_inactive_shares Example.quiet Example.that_night Example.with_share
      = (Ok tt, w') /\
    journal w' = journal Example.with_share ++ suffix /\
    (forall k uid name st lu,
       active_shares Example.with_share !! k = Some (session uid name st lu) ->
       is_Some (tzinfo lu) ->
       (active_shares w' !! k = None
        <-> 9 * us_per_hour < utc_micros Example.that_night - utc_micros lu) /\
       (utc_micros Example.that_night - utc_micros lu <= 9 * us_per_hour ->
        active_shares w' !! k = Some (session uid name st lu))) /\
    match (size (active_shares Example.with_share) - size (active_shares w'))%nat with
    | O => ELog INFO MJobNothing ∈ suffix
    | S n => ELog INFO (MJobDone (S n)) ∈ suffix
    end.
Proof.
  split; [reflexivity|]. split; [eexists; reflexivity|].
  apply (cleanup_removes_exactly_the_stale Example.quiet Example.that_night
           (9 * us_per_hour) Example.with_share).
  - reflexivity.
  - eexists; reflexivity.
Defined.

(** C10. An entry without a [last_update] attribute is judged by its
    [start_time]: the sweep removes it exactly when [now - start_time]
    exceeds the limit, and leaves it as it was otherwise. *)
Theorem cleanup_falls_back_to_start_time (E : env) (now_utc : datetime)
    (inactive_limit : Z) (w : world) :
  timedelta_hours (MAX_INACTIVE_HOURS E) = Ok inactive_limit ->
  is_Some (tzinfo now_utc) ->
  exists w',
    cleanup_inactive_shares E now_utc w = (Ok tt, w') /\
    forall k l st,
      active_shares w !! k = Some (VDict l) ->
      dict_get k_last_update l = None ->
      dict_get k_start_time l = Some (VDatetime st) ->
      is_Some (tzinfo st) ->
      (active_shares w' !! k = None
       <-> inactive_limit < utc_micros now_utc - utc_micros st) /\
      (utc_micros now_utc - utc_micros st <= inactive_limit ->
       active_shares w' !! k = Some (VDict l)).
Proof.
  intros Hlim Hnow.
  destruct (cleanup_spec E now_utc inactive_limit w Hlim)
    as (w' & sfx & H & Hl & _).
  exists w'. split; [exact H|].
  intros k l st Hk Hlast Hstart Hst. rewrite Hl. unfold key_marked. rewrite Hk.
  rewrite (marked_without_last_update now_utc inactive_limit l st) by assumption.
  destruct (Z.ltb_spec inactive_limit (utc_micros now_utc - utc_micros st)).
  - split; [split; [intros _; assumption | reflexivity] | lia].
  - split; [split; [discriminate | lia] | reflexivity].
Qed.

Lemma cleanup_falls_back_to_start_time_witness :
  timedelta_hours (MAX_INACTIVE_HOURS Example.quiet) = Ok (9 * us_per_hour) /\
  is_Some (tzinfo Example.that_night) /\
  exists w',
    cleanup_inactive_shares Example.quiet Example.that_night Example.started_only
      = (Ok tt, w') /\
    forall k l st,
      active_shares Example.started_only !! k = Some (VDict l) ->
      dict_get k_last_update l = None ->
      dict_get k_start_time l = Some (VDatetime st) ->
      is_Some (tzinfo st) ->
      (active_shares w' !! k = None
       <-> 9 * us_per_hour < utc_micros Example.that_night - utc_micros st) /\
      (utc_micros Example.that_night - utc_micros st <= 9 * us_per_hour ->
       active_shares w' !! k = Some (VDict l)).
Proof.
  split; [reflexivity|]. split; [eexists; reflexivity|].
  apply (cleanup_falls_back_to_start_time Example.quiet Example.that_night
           (9 * us_per_hour) Example.started_only).
  - reflexivity.
  - eexists; reflexivity.
Defined.

(** C9. A sweep never appends to the sheet: whatever the registry holds
    and whatever the clock says, [cleanup_inactive_shares] makes no
    [append_row] call and leaves the rows of the sheet as they were. When
    it removes an entry it saves the snapshot again. *)
Theorem cleanup_never_appends (E : env) (now_utc : datetime) (w : world) :
  exists r w' suffix,
    cleanup_inactive_shares E now_utc w = (r, w') /\
    journal w' = journal w ++ suffix /\
    append_calls suffix = [] /\
    sheet w' = sheet w /\ n_append w' = n_append w /\
    (forall k, is_Some (active_shares w !! k) -> active_shares w' !! k = None ->
       ELog DEBUG MSaveTry ∈ suffix).
Proof.
  destruct (timedelta_hours (MAX_INACTIVE_HOURS E)) as [limit|e] eqn:Hlim.
  - destruct (cleanup_spec E now_utc limit w Hlim)
      as (w' & sfx & H & Hl & Hj & Hs & Hn & Ha & _ & Hlog).
    exists (Ok tt), w', sfx. repeat split; try assumption.
    intros k [v Hk] Hgone. cbn zeta in Hlog.
    rewrite Hl, Hk in Hgone.
    destruct (key_marked now_utc limit (active_shares w) k) eqn:Hm; [|discriminate].
    apply (marked_keys_elem now_utc limit) in Hm.
    destruct (List.filter _ _); [inversion Hm|]. cbn in Hlog. apply Hlog.
  - rewrite (cleanup_no_limit E now_utc w e Hlim).
    eexists; eexists; eexists. split; [reflexivity|]. cbn.
    repeat split. intros k [v Hk] Hgone. rewrite Hk in Hgone. discriminate.
Qed.

(** ** The end of a share always returns, inside the calendar *)

Lemma add_micros_ordinary (d : datetime) (delta : Z) (tz : option Z) :
  valid d = true -> 2 <= year d <= 9998 ->
  - us_per_day < delta < us_per_day ->
  exists d', add_micros d delta tz = Ok d'.
Proof.
  intros Hv Hy Hd. pose proof (valid_fields d Hv) as (_ & Hm & Hdd & Hh & Hmi & Hs & Hus).
  unfold add_micros.
  assert (Ht : 0 <= time_of_day d < us_per_day).
  { unfold time_of_day, us_per_day, us_per_hour, us_per_minute, us_per_second. lia. }
  assert (Hq : -1 <= (time_of_day d + delta) / us_per_day <= 1).
  { unfold us_per_day, us_per_hour, us_per_minute, us_per_second in *.
    split.
    - apply Z.div_le_lower_bound; lia.
    - assert ((time_of_day d + delta) / (24 * (60 * (60 * 1000000))) < 2); [|lia].
      apply Z.div_lt_upper_bound; lia. }
  assert (Hc : exists c, add_days (year d, month d, day d)
                           ((time_of_day d + delta) / us_per_day) = Some c).
  { unfold add_days.
    destruct (Z.leb_spec 0 ((time_of_day d + delta) / us_per_day)) as [Hp|Hn].
    - assert ((time_of_day d + delta) / us_per_day = 0
              \/ (time_of_day d + delta) / us_per_day = 1) as [-> | ->] by lia.
      + eexists; reflexivity.
      + change (Z.to_nat 1) with 1%nat. cbn [step_days]. unfold next_day.
        destruct (day d <? days_in_month (year d) (month d)); [eauto|].
        destruct (month d <? 12); [eauto|].
        destruct (Z.ltb_spec (year d) 9999); [eauto | lia].
    - assert ((time_of_day d + delta) / us_per_day = -1) as -> by lia.
      change (Z.to_nat (- -1)) with 1%nat. cbn [step_days]. unfold prev_day.
      destruct (1 <? day d); [eauto|].
      destruct (1 <? month d); [eauto|].
      destruct (Z.ltb_spec 1 (year d)); [eauto | lia]. }
  destruct Hc as [[[y m] dd] ->]. eexists; reflexivity.
Qed.

Lemma row_data_of_ordinary (E : env) (uid name : value) (st now_utc : datetime) :
  zone_ok E -> ordinary st -> ordinary now_utc ->
  exists row, row_data_of E uid name st now_utc = Ok row.
Proof.
  intros Hz [[Hvs Hts] Hys] [[Hvn Htn] Hyn].
  unfold row_data_of, Datetime.sub, to_br, astimezone. rewrite Hts, Htn. cbn.
  destruct (add_micros_ordinary st (e_br_offset E (utc_micros st) - 0)
              (Some (e_br_offset E (utc_micros st))) Hvs Hys) as [a ->].
  { pose proof (Hz (utc_micros st)). lia. }
  destruct (add_micros_ordinary now_utc (e_br_offset E (utc_micros now_utc) - 0)
              (Some (e_br_offset E (utc_micros now_utc))) Hvn Hyn) as [b ->].
  { pose proof (Hz (utc_micros now_utc)). lia. }
  cbn. eexists; reflexivity.
Qed.

(** For a session and a clock reading inside the calendar the handler
    returns on a close event: the hypothesis "the handler returns" of
    [close_share_removes] is met. *)
Lemma close_share_returns (E : env) update now_utc w em uid name st lu :
  edited_message update = Some em -> message_id em <> 0 ->
  share_ended em = true ->
  active_shares w !! key_of em = Some (session uid name st lu) ->
  zone_ok E -> ordinary st -> ordinary now_utc ->
  exists w', handle_edited_location E update now_utc w = (Ok tt, w').
Proof.
  intros Hem Hid Hend Hk Hz Hst Hnow.
  destruct (row_data_of_ordinary E (VInt uid) (VStr name) st now_utc Hz Hst Hnow)
    as [row Hrow].
  destruct Hst as [[_ Hts] _].
  unfold handle_edited_location. rewrite Hem.
  destruct (Z.eqb_spec (message_id em) 0) as [|_]; [contradiction|].
  unfold key_of in *. run_M. rewrite Hk. cbn. rewrite Hend.
  unfold close_share. run_M. rewrite Hts. cbn. rewrite Hrow. cbn.
  match goal with
  | |- context [append_row_with_retry E row 2 5 ?w0] =>
      destruct (append_row_frame E row 2 5 w0 ltac:(lia)) as (b & w1 & -> & Ha1 & _)
  end.
  cbn in Ha1.
  assert (Hk1 : is_Some (active_shares w1 !! (chat_id em, message_id em)))
    by (rewrite Ha1, Hk; eauto).
  destruct b; cbn;
    (destruct (decide (is_Some (active_shares w1 !! (chat_id em, message_id em))))
      as [_|Hno]; [|contradiction]);
    cbn;
    match goal with
    | |- context [save_state E ?r ?w0] =>
        destruct (save_state_spec E r w0) as (w2 & sfx & -> & _)
    end;
    eexists; reflexivity.
Qed.

(** ** Further properties of the snapshot loader and of a whole session *)

(** X1. [load_state] never lets an exception out: it always returns a
    registry, and an empty one when the file is absent, when it is not
    JSON, when reading it hits an I/O error, and when the document in it
    is not an object. *)
Theorem load_state_never_raises (E : env) (w : world) :
  exists r w',
    load_state E w = (Ok r, w') /\
    match state_file w with
    | None | Some (Partial _) | Some (Junk _) => r = ∅
    | Some (Doc v) =>
        e_load_fault E = true \/ (forall items, v <> VDict items) -> r = ∅
    end.
Proof.
  destruct (load_state_returns E w) as (r & w' & H).
  exists r, w'. split; [exact H|].
  revert H. unfold load_state. run_M.
  destruct (state_file w) as [[v| |]|];
    [| destruct (e_load_fault E); cbn; intros [= <- _]; reflexivity ..].
  destruct (e_load_fault E) eqn:Hf; cbn.
  - intros [= <- _] _. reflexivity.
  - intros H [Hfault|Hv]; [discriminate Hfault|].
    destruct v as [|b|n|s|d|l|items]; try (destruct (Hv items eq_refl));
      cbn in H; injection H as <- _; reflexivity.
Qed.

(** X2. An entry that the inner [try] of [load_state] rejects with
    [ValueError], [KeyError] or [TypeError] because of its key (at most
    4300 ASCII characters that are not [int:int]) or because its value is
    not a mapping is skipped: the registry returned is the one the same
    file without that entry gives. Rejections because of a timestamp are
    left aside: where the timestamps of the entry are text, they are in
    the layout that [isoformat] writes. *)
Theorem load_state_skips_rejected_entry (E : env) (w : world)
    (l1 l2 : dict) (kv : text * value) (e : exn) :
  state_file w = Some (Doc (VDict (l1 ++ kv :: l2))) ->
  e_load_fault E = false ->
  is_ascii_text (fst kv) = true -> (length (fst kv) <= 4300)%nat ->
  stamp_in_layout k_start_time (snd kv) = true ->
  stamp_in_layout k_last_update (snd kv) = true ->
  restore_entry E kv = Raise e ->
  caught_by e [ValueError; KeyError; TypeError] = true ->
  fst (load_state E w) =
  fst (load_state E (set_state_file (Some (Doc (VDict (l1 ++ l2)))) w)).
Proof.
  intros Hf Hfault _ _ _ _ Hbad Hcaught.
  rewrite (load_state_object E w (l1 ++ kv :: l2) Hf Hfault).
  rewrite (load_state_object E (set_state_file (Some (Doc (VDict (l1 ++ l2)))) w)
             (l1 ++ l2) eq_refl Hfault).
  destruct (restore_items_skips E l1 l2 kv e Hbad Hcaught ∅ w) as [-> _].
  rewrite (restore_items_result E (l1 ++ l2) ∅ w
             (set_state_file (Some (Doc (VDict (l1 ++ l2)))) w)).
  reflexivity.
Qed.

Lemma load_state_skips_rejected_entry_witness :
  is_ascii_text (fst Example.odd_key_entry) = true /\
  (length (fst Example.odd_key_entry) <= 4300)%nat /\
  stamp_in_layout k_start_time (snd Example.odd_key_entry) = true /\
  stamp_in_layout k_last_update (snd Example.odd_key_entry) = true /\
  restore_entry Example.quiet Example.odd_key_entry = Raise ValueError /\
  fst (load_state Example.quiet
         (Example.on_disk [Example.odd_key_entry; Example.good_entry])) =
  fst (load_state Example.quiet
         (set_state_file (Some (Doc (VDict [Example.good_entry])))
            (Example.on_disk [Example.odd_key_entry; Example.good_entry]))).
Proof.
  split; [reflexivity|]. split; [cbn; lia|].
  split; [reflexivity|]. split; [reflexivity|].
  split; [vm_compute; reflexivity|].
  apply (load_state_skips_rejected_entry Example.quiet
           (Example.on_disk [Example.odd_key_entry; Example.good_entry])
           [] [Example.good_entry] Example.odd_key_entry ValueError).
  - reflexivity.
  - reflexivity.
  - reflexivity.
  - cbn. lia.
  - reflexivity.
  - reflexivity.
  - vm_compute. reflexivity.
  - reflexivity.
Defined.

(** The running example from end to end: the share is opened at noon,
    updated ten minutes later and ended at twenty-five past. The sheet
    receives one row with a duration of 1500 seconds, and the entry is
    gone from the registry and from the snapshot. *)
Theorem one_session_is_recorded :
  exists w',
    Example.one_session Example.fresh = (Ok tt, w') /\
    active_shares w' = ∅ /\
    state_file w' = Some (Doc (VDict [])) /\
    sheet w' =
      [[VInt 42; VStr (T "alice");
        VStr (T "15/03/2024 09:00:00"); VStr (T "15/03/2024 09:25:00");
        VStr (T "00:25:00");
        VStr (T "2024-03-15 12:00:00"); VStr (T "2024-03-15 12:25:00");
        VInt 1500]].
Proof.
  eexists. split; [vm_compute; reflexivity|]. repeat split.
Qed.

(** ** The sheet, whatever it answers *)

Lemma setup_calls_app a b :
  setup_calls (a ++ b) = setup_calls a ++ setup_calls b.
Proof. unfold setup_calls. apply omap_app. Qed.

Lemma sleeps_app a b : sleeps (a ++ b) = sleeps a ++ sleeps b.
Proof. unfold sleeps. apply omap_app. Qed.

Section Connect.

Context (E : env) (max_retries delay : Z).

(** The rest of a turn whose reconnection failed with outcome [o], the
    journal having grown by [pre] before the next turn. *)
Ltac failed_setup o pre IH Hc :=
  match goal with
  | |- context [connect_loop _ _ ?d ?rem (?attempt + 1) ?w0] =>
      destruct (IH (attempt + 1) w0)
        as (b & w2 & sfx & Hl & Hj & Hg & Hlen & Hsl & Hyes & Hno);
        [lia | cbn; try exact Hc; reflexivity |];
      assert (Hpos : (rem = 0 \/ 1 <= length (setup_calls sfx))%nat)
        by (destruct b;
            [ destruct (Hyes eq_refl) as (p & Hp & _); rewrite Hp;
              rewrite length_app; cbn; lia
            | destruct (Hno eq_refl) as [Hn _]; lia ]);
      rewrite Hl; exists b, w2, (pre ++ sfx);
      split; [reflexivity|];
      split; [rewrite Hj; cbn; rewrite <- !app_assoc; reflexivity|];
      split; [exact Hg|];
      rewrite setup_calls_app, sleeps_app;
      remember (setup_calls sfx) as sc eqn:Esc;
      remember (sleeps sfx) as sl eqn:Esl;
      cbn;
      split; [lia|];
      split;
        [ rewrite Hsl;
          destruct (length sc) as [|c] eqn:Hc2;
          first [ lia | cbn; rewrite ?Nat.sub_0_r; reflexivity ]
        | split;
          [ intros Hb; destruct (Hyes Hb) as (p & Hp & Hf);
            exists (o :: p); rewrite Hp; split;
            [reflexivity | constructor; [discriminate | exact Hf]]
          | intros Hb; destruct (Hno Hb) as [Hn Hf]; split;
            [lia | constructor; [discriminate | exact Hf]] ] ]
  end.

Lemma connect_loop_outcome rem : 0 <= delay -> forall attempt w,
  rem = Z.to_nat (max_retries + 1 - attempt) ->
  gs_connected w = false ->
  exists b w' suffix,
    connect_loop E max_retries delay rem attempt w = (Ok b, w') /\
    journal w' = journal w ++ suffix /\
    gs_connected w' = b /\
    (length (setup_calls suffix) <= rem)%nat /\
    sleeps suffix = replicate (length (setup_calls suffix) - 1) delay /\
    (b = true -> exists pre,
       setup_calls suffix = pre ++ [SetupOk] /\
       Forall (fun o => o <> SetupOk) pre) /\
    (b = false ->
       length (setup_calls suffix) = rem /\
       Forall (fun o => o <> SetupOk) (setup_calls suffix)).
Proof.
  intros Hd. induction rem as [|rem IH]; intros attempt w Hrem Hc.
  - eexists false, _, [ELog ERROR MWsGiveUp].
    split; [run_sheet; reflexivity|]. cbn.
    split; [reflexivity|]. split; [exact Hc|]. split; [lia|].
    split; [reflexivity|].
    split; [intros H; discriminate H | intros _; split; [reflexivity | constructor]].
  - cbn [connect_loop]. rewrite (sleep_ok delay Hd). run_sheet.
    destruct (e_setup E (n_setup w)) eqn:Ho; cbn.
    + eexists true, _, [ESetup SetupOk].
      split; [reflexivity|]. cbn. split; [reflexivity|]. split; [reflexivity|].
      split; [lia|]. split; [reflexivity|].
      split; [intros _; exists []; split; [reflexivity | constructor]
             |intros H; discriminate H].
    + destruct (Z.ltb_spec attempt max_retries) as [Hlt|Hge]; cbn.
      * failed_setup SetupBadHeaders
          [ESetup SetupBadHeaders; ELog WARNING (MWsRetry attempt); ESleep delay] IH Hc.
      * failed_setup SetupBadHeaders [ESetup SetupBadHeaders] IH Hc.
    + destruct (Z.ltb_spec attempt max_retries) as [Hlt|Hge]; cbn.
      * failed_setup SetupFailed
          [ESetup SetupFailed; ELog WARNING (MWsRetry attempt); ESleep delay] IH Hc.
      * failed_setup SetupFailed [ESetup SetupFailed] IH Hc.
Qed.

End Connect.

(** X5. For a delay that [time.sleep] takes, [get_worksheet_with_retry]
    always returns, and it returns a worksheet exactly when the connection
    globals are set afterwards. It reconnects at most [max_retries + 1]
    times and pauses [delay] seconds between two reconnections, never
    after the last. With a worksheet: either the cached one passed the
    probe and nothing was reconnected, or the last reconnection is the one
    that succeeded. Without: every one of the [max_retries + 1]
    reconnections failed. The registry, the files and the rows of the
    sheet are not touched. *)
Theorem worksheet_fetch_outcome (E : env) (max_retries delay : Z) (w : world) :
  sleepable delay ->
  exists b w' suffix,
    get_worksheet_with_retry E max_retries delay w = (Ok b, w') /\
    journal w' = journal w ++ suffix /\
    gs_connected w' = b /\
    (length (setup_calls suffix) <= Z.to_nat (max_retries + 1))%nat /\
    sleeps suffix = replicate (length (setup_calls suffix) - 1) delay /\
    (b = true ->
       (setup_calls suffix = [] /\ gs_connected w = true) \/
       exists pre, setup_calls suffix = pre ++ [SetupOk] /\
                   Forall (fun o => o <> SetupOk) pre) /\
    (b = false ->
       length (setup_calls suffix) = Z.to_nat (max_retries + 1) /\
       Forall (fun o => o <> SetupOk) (setup_calls suffix)) /\
    same_store w w' /\ sheet w' = sheet w /\ append_calls suffix = [].
Proof.
  intros [Hd _].
  destruct (get_worksheet_frame_for E max_retries delay w Hd)
    as (b0 & w0 & Hg0 & Hst & _ & Hsh & _).
  assert (Hcalls : forall sfx, journal w0 = journal w ++ sfx -> append_calls sfx = []).
  { intros sfx Hs. destruct (get_worksheet_frame_for E max_retries delay w Hd)
      as (b1 & w1 & Hg1 & _ & _ & _ & sfx1 & Hj1 & Hc1).
    rewrite Hg0 in Hg1. injection Hg1 as <- <-.
    rewrite Hj1 in Hs. apply app_inv_head in Hs. subst sfx1. exact Hc1. }
  revert Hg0. run_sheet. destruct (gs_connected w) eqn:Hc.
  - destruct (e_probe E (n_probe w)) eqn:Hp; cbn.
    + intros [= <- <-]. eexists true, _, [EProbe true; ELog DEBUG MWsValid].
      split; [reflexivity|].
      split; [cbn; rewrite <- !app_assoc; reflexivity|].
      split; [exact Hc|]. split; [cbn; lia|].
      split; [reflexivity|].
      split; [intros _; left; split; reflexivity|].
      split; [intros H; discriminate H|].
      split; [exact Hst|]. split; [exact Hsh | reflexivity].
    + match goal with
      | |- context [connect_loop E max_retries delay ?r ?a ?w1] =>
          destruct (connect_loop_outcome E max_retries delay r Hd a w1)
            as (b & w2 & sfx & Hl & Hj & Hg & Hlen & Hsl & Hyes & Hno);
            [lia | reflexivity |]
      end.
      rewrite Hl. intros [= <- <-]. exists b, w2.
      exists ([EProbe false; ELog WARNING MWsInvalid; ELog INFO MWsConnecting] ++ sfx).
      assert (Hjj : journal w2 = journal w ++
                [EProbe false; ELog WARNING MWsInvalid; ELog INFO MWsConnecting] ++ sfx)
        by (rewrite Hj; cbn; rewrite <- !app_assoc; reflexivity).
      split; [reflexivity|]. split; [exact Hjj|]. split; [exact Hg|].
      rewrite setup_calls_app, sleeps_app. cbn [setup_calls sleeps omap app].
      cbn [list_omap app].
      split; [exact Hlen|]. split; [exact Hsl|].
      split; [intros Hb; right; exact (Hyes Hb)|].
      split; [exact Hno|].
      split; [exact Hst|]. split; [exact Hsh | exact (Hcalls _ Hjj)].
  - match goal with
    | |- context [connect_loop E max_retries delay ?r ?a ?w1] =>
        destruct (connect_loop_outcome E max_retries delay r Hd a w1)
          as (b & w2 & sfx & Hl & Hj & Hg & Hlen & Hsl & Hyes & Hno);
          [lia | exact Hc |]
    end.
    rewrite Hl. intros [= <- <-]. exists b, w2.
    exists ([ELog INFO MWsConnecting] ++ sfx).
    assert (Hjj : journal w2 = journal w ++ [ELog INFO MWsConnecting] ++ sfx)
      by (rewrite Hj; cbn; rewrite <- !app_assoc; reflexivity).
    split; [reflexivity|]. split; [exact Hjj|]. split; [exact Hg|].
    rewrite setup_calls_app, sleeps_app. cbn [setup_calls sleeps omap app].
    cbn [list_omap app].
    split; [exact Hlen|]. split; [exact Hsl|].
    split; [intros Hb; right; exact (Hyes Hb)|].
    split; [exact Hno|].
    split; [exact Hst|]. split; [exact Hsh | exact (Hcalls _ Hjj)].
Qed.

Lemma worksheet_fetch_outcome_witness :
  sleepable 5 /\
  exists b w' suffix,
    get_worksheet_with_retry Scenario.flaky 2 5 Example.fresh = (Ok b, w') /\
    journal w' = journal Example.fresh ++ suffix /\
    gs_connected w' = b /\
    (length (setup_calls suffix) <= Z.to_nat (2 + 1))%nat /\
    sleeps suffix = replicate (length (setup_calls suffix) - 1) 5 /\
    (b = true ->
       (setup_calls suffix = [] /\ gs_connected Example.fresh = true) \/
       exists pre, setup_calls suffix = pre ++ [SetupOk] /\
                   Forall (fun o => o <> SetupOk) pre) /\
    (b = false ->
       length (setup_calls suffix) = Z.to_nat (2 + 1) /\
       Forall (fun o => o <> SetupOk) (setup_calls suffix)) /\
    same_store Example.fresh w' /\ sheet w' = sheet Example.fresh /\
    append_calls suffix = [].
Proof.
  split; [unfold sleepable; lia|].
  apply (worksheet_fetch_outcome Scenario.flaky 2 5 Example.fresh).
  unfold sleepable. lia.
Defined.

(** With a negative delay the first pause is refused: the [ValueError] of
    [time.sleep] leaves [get_worksheet_with_retry], and, raised in the
    handler of the [APIError], leaves [append_row_with_retry] as well. *)
Lemma negative_delay_is_refused :
  fst (get_worksheet_with_retry Scenario.flaky 2 (-1) Example.fresh)
    = Raise ValueError /\
  fst (append_row_with_retry Scenario.flaky Example.some_row 2 (-1) Example.fresh)
    = Raise ValueError.
Proof. split; vm_compute; reflexivity. Qed.

Section AppendOnce.

Context (E : env) (data : list value) (max_retries delay : Z).

Ltac single_refusal :=
  split; [reflexivity|];
  split; [cbn; rewrite <- ?app_assoc; cbn; reflexivity|]; cbn;
  split; [reflexivity|]; split; [lia|];
  split; [repeat constructor|];
  split; [intros H; discriminate H|intros _; repeat constructor; discriminate].

Lemma append_loop_once rem : 0 <= delay -> forall attempt w,
  exists b w' suffix,
    append_loop E data max_retries delay rem attempt w = (Ok b, w') /\
    journal w' = journal w ++ suffix /\
    sheet w' = (if b then sheet w ++ [data] else sheet w) /\
    (length (append_calls suffix) <= rem)%nat /\
    Forall (fun c => fst c = data) (append_calls suffix) /\
    (b = true -> exists pre,
       append_calls suffix = pre ++ [(data, ApiOk)] /\
       Forall (fun c => retried (snd c) = true) pre) /\
    (b = false -> Forall (fun c => snd c <> ApiOk) (append_calls suffix)).
Proof.
  intros Hd. induction rem as [|rem IH]; intros attempt w.
  - exists false, w, []. rewrite app_nil_r. cbn.
    split; [reflexivity|]. split; [reflexivity|]. split; [reflexivity|].
    split; [lia|]. split; [constructor|].
    split; [intros H; discriminate H | intros _; constructor].
  - rewrite append_loop_unfold, (sleep_ok delay Hd). run_M.
    destruct (e_append E (n_append w)) as [|status|] eqn:Ho; cbn.
    + exists true. eexists. exists [EAppendRow data ApiOk; ELog INFO MAppendOk].
      split; [reflexivity|]. cbn. rewrite <- !app_assoc. cbn.
      split; [reflexivity|]. split; [reflexivity|]. split; [lia|].
      split; [repeat constructor|].
      split; [intros _; exists []; split; [reflexivity | constructor]
             |intros H; discriminate H].
    + destruct (transient status) eqn:Htr; cbn.
      2:{ exists false. eexists.
          eexists (EAppendRow data (ApiError status) :: _ :: [_]).
          single_refusal. }
      destruct (attempt <? max_retries); cbn.
      2:{ exists false. eexists.
          eexists (EAppendRow data (ApiError status) :: _ :: [_]).
          single_refusal. }
      match goal with
      | |- context [get_worksheet_with_retry E 2 5 ?w0] =>
          destruct (get_worksheet_frame E w0)
            as (ws & w1 & Hg & _ & _ & Hs1 & sfx1 & Hj1 & Hc1)
      end.
      rewrite Hg. cbn in Hs1, Hj1. destruct ws; cbn.
      * destruct (IH (attempt + 1) w1)
          as (b & w2 & sfx2 & Hl & Hj2 & Hs2 & Hlen & Hall & Hyes & Hno).
        rewrite Hl. exists b, w2.
        exists ([EAppendRow data (ApiError status);
                 ELog ERROR (MAppendApiError attempt status);
                 ELog WARNING MAppendRetrying; ESleep delay] ++ sfx1 ++ sfx2).
        split; [reflexivity|].
        split; [rewrite Hj2, Hj1, <- !app_assoc; reflexivity|].
        split; [rewrite Hs2, Hs1; reflexivity|].
        rewrite !append_calls_app, Hc1. cbn.
        split; [lia|]. split; [constructor; [reflexivity | exact Hall]|].
        split.
        -- intros Hb. destruct (Hyes Hb) as (pre & Hp & Hf).
           exists ((data, ApiError status) :: pre). rewrite Hp.
           split; [reflexivity|]. constructor; [exact Htr | exact Hf].
        -- intros Hb. constructor; [discriminate | exact (Hno Hb)].
      * exists false. eexists.
        exists ([EAppendRow data (ApiError status);
                 ELog ERROR (MAppendApiError attempt status);
                 ELog WARNING MAppendRetrying; ESleep delay] ++ sfx1 ++
                [ELog ERROR MAppendNoWorksheetRetry]).
        split; [reflexivity|]. cbn.
        split; [rewrite Hj1, <- !app_assoc; reflexivity|].
        split; [exact Hs1|].
        rewrite !append_calls_app, Hc1. cbn.
        split; [lia|]. split; [repeat constructor|].
        split; [intros H; discriminate H|intros _; repeat constructor; discriminate].
    + exists false. eexists. eexists (EAppendRow data ApiFault :: [_]).
      single_refusal.
Qed.

End AppendOnce.

(** [append_row_with_retry], whatever the sheet answers: it returns, the
    registry and the snapshot are as before, and the sheet has grown by the
    row exactly when the answer is [True]. *)
Lemma append_row_outcome (E : env) (data : list value)
    (max_retries delay : Z) (w : world) :
  0 <= delay ->
  exists b w' suffix,
    append_row_with_retry E data max_retries delay w = (Ok b, w') /\
    journal w' = journal w ++ suffix /\
    sheet w' = (if b then sheet w ++ [data] else sheet w) /\
    active_shares w' = active_shares w /\ state_file w' = state_file w /\
    (length (append_calls suffix) <= Z.to_nat (max_retries + 1))%nat /\
    Forall (fun c => fst c = data) (append_calls suffix) /\
    (b = true -> exists pre,
       append_calls suffix = pre ++ [(data, ApiOk)] /\
       Forall (fun c => retried (snd c) = true) pre) /\
    (b = false -> Forall (fun c => snd c <> ApiOk) (append_calls suffix)).
Proof.
  intros Hd. unfold append_row_with_retry. run_M.
  destruct (get_worksheet_frame E w)
    as (ws & w1 & Hg & (Ha1 & Hf1 & _) & _ & Hs1 & sfx1 & Hj1 & Hc1).
  rewrite Hg. destruct ws; cbn.
  - destruct (append_loop_once E data max_retries delay
                (Z.to_nat (max_retries + 1)) Hd 0 w1)
      as (b & w2 & sfx2 & Hl & Hj2 & Hs2 & Hlen & Hall & Hyes & Hno).
    destruct (append_loop_frame E data max_retries delay
                (Z.to_nat (max_retries + 1)) Hd 0 w1) as (b' & w2' & Hl' & Ha2 & Hf2 & _).
    rewrite Hl in Hl'. injection Hl' as <- <-.
    rewrite Hl. exists b, w2, (sfx1 ++ sfx2).
    split; [reflexivity|].
    split; [rewrite Hj2, Hj1, <- !app_assoc; reflexivity|].
    split; [rewrite Hs2, Hs1; reflexivity|].
    split; [rewrite Ha2, Ha1; reflexivity|].
    split; [rewrite Hf2, Hf1; reflexivity|].
    rewrite !append_calls_app, Hc1. cbn.
    split; [exact Hlen|]. split; [exact Hall|]. split; assumption.
  - exists false. eexists. exists (sfx1 ++ [ELog ERROR MAppendNoWorksheet]).
    split; [reflexivity|]. cbn.
    split; [rewrite Hj1, <- !app_assoc; reflexivity|].
    split; [exact Hs1|]. split; [exact Ha1|]. split; [exact Hf1|].
    rewrite !append_calls_app, Hc1. cbn.
    split; [lia|]. split; [constructor|].
    split; [intros H; discriminate H | intros _; constructor].
Qed.

(** X4. [append_row_with_retry], whatever the sheet answers, for a delay
    that [time.sleep] takes: it always returns, it calls [append_row] at
    most [max_retries + 1] times and always with the row it was given, and
    it stops at the first call that succeeds. It answers [True] exactly
    when its last call succeeded, all calls before it having failed with a
    transient status; the sheet has then grown by the row, once. It
    answers [False] when no call succeeded, the sheet being as before. The
    registry and the snapshot file are not touched. *)
Theorem append_writes_the_row_once (E : env) (data : list value)
    (max_retries delay : Z) (w : world) :
  sleepable delay ->
  exists b w' suffix,
    append_row_with_retry E data max_retries delay w = (Ok b, w') /\
    journal w' = journal w ++ suffix /\
    sheet w' = (if b then sheet w ++ [data] else sheet w) /\
    active_shares w' = active_shares w /\ state_file w' = state_file w /\
    (length (append_calls suffix) <= Z.to_nat (max_retries + 1))%nat /\
    Forall (fun c => fst c = data) (append_calls suffix) /\
    (b = true -> exists pre,
       append_calls suffix = pre ++ [(data, ApiOk)] /\
       Forall (fun c => retried (snd c) = true) pre) /\
    (b = false -> Forall (fun c => snd c <> ApiOk) (append_calls suffix)).
Proof. intros [Hd _]. exact (append_row_outcome E data max_retries delay w Hd). Qed.

Lemma append_writes_the_row_once_witness :
  sleepable 5 /\
  exists b w' suffix,
    append_row_with_retry Scenario.flaky Example.some_row 2 5 Example.fresh
      = (Ok b, w') /\
    journal w' = journal Example.fresh ++ suffix /\
    sheet w' = (if b then sheet Example.fresh ++ [Example.some_row]
                else sheet Example.fresh) /\
    active_shares w' = active_shares Example.fresh /\
    state_file w' = state_file Example.fresh /\
    (length (append_calls suffix) <= Z.to_nat (2 + 1))%nat /\
    Forall (fun c => fst c = Example.some_row) (append_calls suffix) /\
    (b = true -> exists pre,
       append_calls suffix = pre ++ [(Example.some_row, ApiOk)] /\
       Forall (fun c => retried (snd c) = true) pre) /\
    (b = false -> Forall (fun c => snd c <> ApiOk) (append_calls suffix)).
Proof.
  split; [unfold sleepable; lia|].
  apply (append_writes_the_row_once Scenario.flaky Example.some_row 2 5
           Example.fresh).
  unfold sleepable. lia.
Defined.

(** ** Edits: what they touch, and an entry that cannot be closed *)

Section EditFrame.

Context (E : env).

(** Closes the case of a path that changes nothing but the journal. *)
Ltac no_change :=
  split; [reflexivity|];
  split; [cbn; rewrite ?app_nil_r; reflexivity|];
  split; [intros; reflexivity|];
  split; [left; reflexivity|];
  first [ intros H; discriminate H
        | intros _; cbn; repeat (split; [reflexivity|]); reflexivity ].

Lemma handle_edited_frame update now_utc w :
  exists r w' suffix,
    handle_edited_location E update now_utc w = (r, w') /\
    journal w' = journal w ++ suffix /\
    (forall k, (forall em, edited_message update = Some em -> k <> key_of em) ->
       active_shares w' !! k = active_shares w !! k) /\
    (sheet w' = sheet w \/ exists row, sheet w' = sheet w ++ [row]) /\
    (edits_known_share update w = false ->
       r = Ok tt /\ active_shares w' = active_shares w /\
       state_file w' = state_file w /\ temp_file w' = temp_file w /\
       sheet w' = sheet w /\
       canonical_views suffix = [] /\ append_calls suffix = []).
Proof.
  unfold handle_edited_location, edits_known_share.
  destruct (edited_message update) as [em|] eqn:Hem.
  2:{ eexists (Ok tt), _, [ELog DEBUG MEditIgnored].
      run_M. no_change. }
  destruct (Z.eqb_spec (message_id em) 0) as [Hz|Hnz].
  { eexists (Ok tt), _, [ELog DEBUG MEditIgnored].
    run_M. no_change. }
  unfold key_of in *. run_M.
  destruct (active_shares w !! (chat_id em, message_id em)) as [v|] eqn:Hk.
  2:{ eexists (Ok tt), _, [ELog DEBUG (MEditUnknown _)].
      no_change. }
  cbn. destruct (truthy v) eqn:Htrue; cbn.
  2:{ eexists (Ok tt), _, [ELog WARNING (MEditVanished _)].
      no_change. }
  assert (Hother : forall k : share_key,
            (forall em0, Some em = Some em0 -> k <> (chat_id em0, message_id em0)) ->
            k <> (chat_id em, message_id em))
    by (intros k H; exact (H em eq_refl)).
  destruct v as [|b0|n0|s0|d0|l0|l];
    try (eexists (Raise AttributeError), w, []; no_change).
  cbn. destruct (share_ended em).
  - unfold close_share. run_M.
    match goal with
    | |- context [of_option KeyError (dict_get ?k l)] =>
        destruct (dict_get k l) as [start|]; cbn
    end.
    2:{ eexists (Raise KeyError), _, [ELog INFO (MCloseDetected _)].
        no_change. }
    destruct (as_aware start) as [st|e]; cbn.
    2:{ eexists (Raise e), _, [ELog INFO (MCloseDetected _)].
        no_change. }
    match goal with
    | |- context [row_data_of E ?u ?n st now_utc] =>
        destruct (row_data_of E u n st now_utc) as [row|e]; cbn
    end.
    2:{ eexists (Raise e), _, [ELog INFO (MCloseDetected _)].
        no_change. }
    match goal with
    | |- context [append_row_with_retry E row 2 5 ?w0] =>
        destruct (append_row_outcome E row 2 5 w0 ltac:(lia))
          as (b & w1 & sfx1 & Hr & Hj1 & Hs1 & Ha1 & Hf1 & _)
    end.
    rewrite Hr. cbn in Hj1, Hs1, Ha1, Hf1.
    assert (Hk1 : is_Some (active_shares w1 !! (chat_id em, message_id em)))
      by (rewrite Ha1, Hk; eauto).
    assert (Hsheet : sheet w1 = sheet w \/ exists row, sheet w1 = sheet w ++ [row])
      by (rewrite Hs1; destruct b; [right; eexists; reflexivity | left; reflexivity]).
    destruct b; cbn;
      (destruct (decide (is_Some _)) as [_|Hno]; [|contradiction]); cbn;
      match goal with
      | |- context [save_state E ?r ?w0] =>
          destruct (save_state_spec E r w0) as (w2 & sfx & Hs & Hj & Ha & Hsh & _)
      end;
      rewrite Hs; cbn in Hj, Ha, Hsh; exists (Ok tt), w2; eexists;
      (split; [reflexivity|]);
      (split; [rewrite Hj, Hj1, <- !app_assoc; reflexivity|]);
      (split; [intros k Hne; rewrite Ha, lookup_delete_ne, Ha1;
               [reflexivity | apply not_eq_sym, Hother, Hne]|]);
      (split; [rewrite Hsh; exact Hsheet | intros H; discriminate H]).
  - unfold heartbeat. run_M. rewrite Hk. cbn.
    match goal with
    | |- context [save_state E ?r ?w0] =>
        destruct (save_state_spec E r w0) as (w2 & sfx & Hs & Hj & Ha & Hsh & _)
    end.
    rewrite Hs. cbn in Hj, Ha, Hsh. exists (Ok tt), w2. eexists.
    split; [reflexivity|].
    split; [rewrite Hj, <- !app_assoc; reflexivity|].
    split; [intros k Hne; rewrite Ha, lookup_insert_ne;
            [reflexivity | apply not_eq_sym, Hother, Hne]|].
    split; [left; exact Hsh | intros H; discriminate H].
Qed.

End EditFrame.

(** X6. What [handle_edited_location] can change. Entries under other keys
    than the one of the edited message are as before, whether the handler
    returns or raises; the sheet is as before or has grown by one row. An
    edit that does not refer to a live entry (no edited message, message id
    0, unknown key, or an entry Python counts as false) changes nothing but
    the log: registry, both files and sheet are as before, and the handler
    returns. *)
Theorem edit_touches_only_its_key (E : env) (update : tg_update)
    (now_utc : datetime) (w : world) :
  exists r w' suffix,
    handle_edited_location E update now_utc w = (r, w') /\
    journal w' = journal w ++ suffix /\
    (forall k, (forall em, edited_message update = Some em -> k <> key_of em) ->
       active_shares w' !! k = active_shares w !! k) /\
    (sheet w' = sheet w \/ exists row, sheet w' = sheet w ++ [row]) /\
    (edits_known_share update w = false ->
       r = Ok tt /\ active_shares w' = active_shares w /\
       state_file w' = state_file w /\ temp_file w' = temp_file w /\
       sheet w' = sheet w /\
       canonical_views suffix = [] /\ append_calls suffix = []).
Proof. exact (handle_edited_frame E update now_utc w). Qed.

Section EditEdges.

Context (E : env).

(** X7. The end of a share whose entry has no usable [start_time]: the
    attribute is missing ([KeyError]) or is not a [datetime]
    ([AttributeError]). The handler raises, after the one INFO record that
    announces the end; the entry stays in the registry, no row is handed to
    the sheet, no file is written. *)
Theorem close_needs_start_time update now_utc w em l :
  edited_message update = Some em -> message_id em <> 0 ->
  share_ended em = true ->
  active_shares w !! key_of em = Some (VDict l) -> l <> [] ->
  (forall d, dict_get k_start_time l <> Some (VDatetime d)) ->
  handle_edited_location E update now_utc w =
    (Raise (match dict_get k_start_time l with
            | None => KeyError
            | Some _ => AttributeError
            end),
     set_journal (journal w ++ [ELog INFO (MCloseDetected (key_of em))]) w).
Proof.
  intros Hem Hid Hend Hk Hl Hst.
  unfold handle_edited_location. rewrite Hem.
  destruct (Z.eqb_spec (message_id em) 0) as [|_]; [contradiction|].
  assert (Htrue : match l with [] => false | _ :: _ => true end = true)
    by (destruct l; [contradiction | reflexivity]).
  unfold key_of in *. run_M. rewrite Hk. cbn. rewrite Htrue. cbn.
  rewrite Hend. unfold close_share. run_M.
  match goal with
  | |- context [of_option KeyError (dict_get ?k l)] => change k with k_start_time
  end.
  destruct (dict_get k_start_time l) as [[| | | |d| |]|] eqn:Hs; cbn;
    try reflexivity.
  exfalso. exact (Hst d eq_refl).
Qed.

End EditEdges.

Lemma close_needs_start_time_witness :
  edited_message Example.final_edit
    = Some (mk_message 100 5 (Some Example.alice) (Some (mk_location None))) /\
  active_shares Scenario.no_stamp !! Example.key
    = Some (VDict Scenario.ownerless_stamp) /\
  handle_edited_location Example.quiet Example.final_edit Example.that_night
    Scenario.no_stamp =
    (Raise KeyError,
     set_journal (journal Scenario.no_stamp ++
                  [ELog INFO (MCloseDetected Example.key)]) Scenario.no_stamp).
Proof.
  split; [reflexivity|]. split; [reflexivity|].
  apply (close_needs_start_time Example.quiet Example.final_edit Example.that_night
           Scenario.no_stamp
           (mk_message 100 5 (Some Example.alice) (Some (mk_location None)))
           Scenario.ownerless_stamp).
  - reflexivity.
  - discriminate.
  - reflexivity.
  - reflexivity.
  - discriminate.
  - intros d. discriminate.
Defined.

(** ** The temporary file of [save_state] *)

Section SaveStateMore.

Context (E : env).

#[local] Opaque json_ok.

(** What [save_state] leaves of the connection and of the temporary file. *)
Lemma save_state_rest (data : registry) (w : world) :
  let w' := snd (save_state E data w) in
  gs_connected w' = gs_connected w /\ n_probe w' = n_probe w /\
  n_setup w' = n_setup w /\
  match prepare data with
  | Ok _ =>
      n_save w' = S (n_save w) /\
      (temp_file w' = None \/
       remove_fails (e_save_io E (n_save w)) = true /\
       exists pre, journal w' = pre ++ [ELog ERROR MTmpRemoveFailed])
  | Raise _ => n_save w' = n_save w /\ temp_file w' = temp_file w
  end.
Proof.
  unfold save_state. destruct (prepare data) as [d|e] eqn:Hp.
  - destruct (e_save_io E (n_save w)) as [[] [] [] [] []] eqn:Hplan;
      destruct (json_ok (VDict d)) eqn:Hj; destruct (temp_file w) eqn:Ht.
    all: run_M; rewrite ?Hplan; cbn; rewrite ?Hj; cbn; rewrite ?Ht; cbn.
    all: do 4 (split; [reflexivity|]).
    all: first [left; reflexivity | right; split; [reflexivity|]; eexists; reflexivity].
  - run_M. repeat split.
Qed.

End SaveStateMore.

(** X8. [save_state] and its temporary file. Once the data has been
    prepared, whatever else fails, the temporary file is gone when
    [save_state] returns, unless removing it failed: then the last log
    record is the ERROR about the removal. *)
Theorem save_state_leaves_no_temp_file (E : env) (data : registry) (w : world)
    (d : dict) :
  prepare data = Ok d ->
  let w' := snd (save_state E data w) in
  temp_file w' = None \/
  remove_fails (e_save_io E (n_save w)) = true /\
  exists pre, journal w' = pre ++ [ELog ERROR MTmpRemoveFailed].
Proof.
  intros Hp. pose proof (save_state_rest E data w) as H. cbn in H.
  rewrite Hp in H. destruct H as (_ & _ & _ & _ & H). exact H.
Qed.

Lemma save_state_leaves_no_temp_file_witness :
  prepare Example.one_share = Ok (map snapshot_entry (map_to_list Example.one_share)) /\
  let w' := snd (save_state Example.quiet Example.one_share Example.fresh) in
  temp_file w' = None \/
  remove_fails (e_save_io Example.quiet (n_save Example.fresh)) = true /\
  exists pre, journal w' = pre ++ [ELog ERROR MTmpRemoveFailed].
Proof.
  split; [vm_compute; reflexivity|].
  apply (save_state_leaves_no_temp_file Example.quiet Example.one_share Example.fresh
           (map snapshot_entry (map_to_list Example.one_share))).
  vm_compute. reflexivity.
Defined.

(** ** The registry and its snapshot stay in step *)

Section Sync.

Context (E : env).

(** Saving a registry of sessions when the file operations succeed: the
    canonical file then holds its snapshot. *)
Lemma save_state_in_sync (r : registry) (w : world) :
  wf_registry r -> plan_ok (e_save_io E (n_save w)) = true ->
  exists w' suffix,
    save_state E r w = (Ok tt, w') /\
    journal w' = journal w ++ suffix /\
    active_shares w' = active_shares w /\ sheet w' = sheet w /\
    state_file w' = Some (snapshot_of r).
Proof.
  intros Hwf Hplan.
  destruct (save_state_spec E r w) as (w' & sfx & Hs & Hj & Ha & Hsh & _ & _ & _ & Hd).
  rewrite (prepare_wf r Hwf) in Hd. destruct Hd as (_ & Hf & _).
  rewrite (snapshot_json_ok _ (registry_items_wf r Hwf)), Hplan in Hf.
  exists w', sfx. repeat split; assumption.
Qed.

Lemma wf_registry_insert (r : registry) k v :
  wf_registry r -> wf_session v -> wf_registry (<[k := v]> r).
Proof.
  intros Hr Hv k' v' H. destruct (decide (k = k')) as [->|Hne].
  - rewrite lookup_insert_eq in H. injection H as <-. exact Hv.
  - rewrite lookup_insert_ne in H by exact Hne. exact (Hr _ _ H).
Qed.

Lemma wf_registry_delete (r : registry) k :
  wf_registry r -> wf_registry (delete k r).
Proof.
  intros Hr k' v' H. destruct (decide (k = k')) as [->|Hne].
  - rewrite lookup_delete_eq in H. discriminate H.
  - rewrite lookup_delete_ne in H by exact Hne. exact (Hr _ _ H).
Qed.

Lemma wf_new_share u now_utc : utc_stamp now_utc -> wf_session (new_share u now_utc).
Proof.
  intros H. exists (user_id u), (display_name u), now_utc, now_utc.
  split; [reflexivity|]. split; exact H.
Qed.

(** Loading a file that holds the snapshot of a registry of sessions. *)
Lemma load_snapshot (r : registry) (w : world) :
  wf_registry r -> state_file w = Some (snapshot_of r) ->
  e_load_fault E = false ->
  fst (load_state E w) = Ok r.
Proof.
  intros Hwf Hf Hl. rewrite (load_state_object E w _ Hf Hl).
  rewrite (restore_items_snapshot E (map_to_list r) ∅ w (registry_items_wf r Hwf)).
  cbn. rewrite foldl_insert_map_to_list. reflexivity.
Qed.

End Sync.

Section SyncHandlers.

Context (E : env) (now_utc : datetime) (w : world).

Hypothesis Hnow : utc_stamp now_utc.
Hypothesis Hwf : wf_registry (active_shares w).

(** After a save of the registry in memory the invariants hold. *)
Lemma saved_in_sync (w0 : world) :
  wf_registry (active_shares w0) -> n_save w0 = n_save w ->
  let w' := snd (save_state E (active_shares w0) w0) in
  wf_registry (active_shares w') /\
  (plan_ok (e_save_io E (n_save w)) = true -> in_sync w').
Proof.
  intros Hwf0 Hn. cbn.
  destruct (save_state_spec E (active_shares w0) w0) as (w' & sfx & Hs & _ & Ha & _).
  rewrite Hs. cbn. split; [rewrite Ha; exact Hwf0|].
  intros Hplan. rewrite <- Hn in Hplan.
  destruct (save_state_in_sync E (active_shares w0) w0 Hwf0 Hplan)
    as (w2 & sfx2 & Hs2 & _ & Ha2 & _ & Hf2).
  rewrite Hs in Hs2. injection Hs2 as <-.
  unfold in_sync. rewrite Hf2, Ha2. reflexivity.
Qed.

Lemma handle_location_sync update :
  let w' := snd (handle_location E update now_utc w) in
  wf_registry (active_shares w') /\
  (plan_ok (e_save_io E (n_save w)) = true -> in_sync w -> in_sync w').
Proof.
  unfold handle_location.
  destruct (message update) as [m|]; [|split; [exact Hwf | intros _ H; exact H]].
  destruct (from_user m) as [user|], (location m) as [loc|];
    try (split; [exact Hwf | intros _ H; exact H]).
  destruct (is_live loc); [|split; [exact Hwf | intros _ H; exact H]].
  run_M.
  destruct (decide (is_Some (active_shares w !! (chat_id m, message_id m)))); cbn;
    match goal with
    | |- context [save_state E ?r ?w0] =>
        destruct (saved_in_sync w0) as [H1 H2];
          [apply wf_registry_insert; [exact Hwf | apply wf_new_share, Hnow]
          |reflexivity|];
        split; [exact H1 | intros Hp _; exact (H2 Hp)]
    end.
Qed.

(** Closes the case of a path on which the registry and the file stay. *)
Ltac kept := split; [exact Hwf | intros _ H; exact H].

Lemma handle_edited_location_sync update :
  let w' := snd (handle_edited_location E update now_utc w) in
  wf_registry (active_shares w') /\
  (plan_ok (e_save_io E (n_save w)) = true -> in_sync w -> in_sync w').
Proof.
  unfold handle_edited_location.
  destruct (edited_message update) as [em|]; [|kept].
  destruct (message_id em =? 0); [kept|].
  run_M.
  destruct (active_shares w !! (chat_id em, message_id em)) as [v|] eqn:Hk; [|kept].
  cbn. destruct (truthy v) eqn:Htrue; cbn; [|kept].
  destruct (Hwf _ _ Hk) as (uid & name & st & lu & -> & Hst & Hlu).
  cbn. destruct (share_ended em).
  - unfold close_share. run_M. destruct Hst as [Hv Hz]. rewrite Hz. cbn.
    match goal with
    | |- context [row_data_of E ?u ?n st now_utc] =>
        destruct (row_data_of E u n st now_utc) as [row|e]; cbn; [|kept]
    end.
    match goal with
    | |- context [append_row_with_retry E row 2 5 ?w0] =>
        destruct (append_row_frame E row 2 5 w0 ltac:(lia))
          as (b & w1 & Hr & Ha1 & Hf1 & _ & Hn1 & _)
    end.
    rewrite Hr. cbn in Ha1, Hf1, Hn1.
    assert (Hk1 : is_Some (active_shares w1 !! (chat_id em, message_id em)))
      by (rewrite Ha1, Hk; eauto).
    destruct b; cbn;
      (destruct (decide (is_Some _)) as [_|Hno]; [|contradiction]); cbn;
      match goal with
      | |- context [save_state E ?r ?w0] =>
          destruct (saved_in_sync w0) as [H1 H2];
            [cbn; rewrite Ha1; apply wf_registry_delete, Hwf
            |cbn; exact Hn1|];
          split; [exact H1 | intros Hp _; exact (H2 Hp)]
      end.
  - unfold heartbeat. run_M. rewrite Hk. cbn.
    match goal with
    | |- context [save_state E ?r ?w0] =>
        destruct (saved_in_sync w0) as [H1 H2];
          [apply wf_registry_insert; [exact Hwf|];
           exists uid, name, st, now_utc; split; [reflexivity|]; split; assumption
          |reflexivity|];
        destruct (save_state_spec E r w0) as (w2 & sfx & Hs & _);
        cbn -[save_state] in H1, H2; rewrite Hs in H1, H2 |- *;
        split; [exact H1 | intros Hp _; exact (H2 Hp)]
    end.
Qed.

Lemma cleanup_sync :
  let w' := snd (cleanup_inactive_shares E now_utc w) in
  wf_registry (active_shares w') /\
  (plan_ok (e_save_io E (n_save w)) = true -> in_sync w -> in_sync w').
Proof.
  unfold cleanup_inactive_shares. run_M.
  destruct (timedelta_hours (MAX_INACTIVE_HOURS E)) as [inactive_limit|e]; cbn; [|kept].
  match goal with
  | |- context [mark_inactive now_utc inactive_limit ?ks ?a ?w0] =>
      destruct (mark_inactive_spec now_utc inactive_limit ks a w0)
        as (sfx & -> & _ & _)
  end.
  cbn [app active_shares].
  pose proof (marked_keys_elem now_utc inactive_limit (active_shares w)) as Helem.
  pose proof (marked_keys_NoDup now_utc inactive_limit (active_shares w)) as Hnd.
  destruct (List.filter (key_marked now_utc inactive_limit (active_shares w))
              (map fst (map_to_list (active_shares w)))) as [|k0 ks] eqn:Hf.
  - run_M. kept.
  - run_M.
    match goal with
    | |- context [remove_marked (k0 :: ks) ?n0 ?b0 ?w0] =>
        destruct (remove_marked_spec (k0 :: ks) n0 b0 w0 Hnd) as (r' & -> & Hl & _)
    end.
    { cbn. intros k Hk. apply Helem in Hk. unfold key_marked in Hk.
      destruct (active_shares w !! k); [eauto | discriminate]. }
    cbn in Hl |- *.
    match goal with
    | |- context [save_state E ?r ?w0] =>
        destruct (saved_in_sync w0) as [H1 H2];
          [|reflexivity|
           split; [exact H1 | intros Hp _; exact (H2 Hp)]]
    end.
    cbn. intros k v Hv. rewrite Hl in Hv.
    destruct (decide (k ∈ k0 :: ks)); [discriminate Hv|]. exact (Hwf _ _ Hv).
Qed.

End SyncHandlers.

(** X9. The two location handlers and the clean-up job keep the registry
    a registry of sessions: if every entry has the four attributes the
    opening handler writes, with valid UTC timestamps, and the clock reads a
    valid UTC time, the same holds of the registry they leave behind,
    whether they return or raise and whatever the sheet and the disk do. *)
Theorem handlers_keep_sessions_well_formed (E : env) (now_utc : datetime)
    (w : world) :
  utc_stamp now_utc -> wf_registry (active_shares w) ->
  (forall update,
     wf_registry (active_shares (snd (handle_location E update now_utc w)))) /\
  (forall update,
     wf_registry (active_shares (snd (handle_edited_location E update now_utc w)))) /\
  wf_registry (active_shares (snd (cleanup_inactive_shares E now_utc w))).
Proof.
  intros Hnow Hwf. split; [|split].
  - intros update. apply (handle_location_sync E now_utc w Hnow Hwf update).
  - intros update. apply (handle_edited_location_sync E now_utc w Hnow Hwf update).
  - apply (cleanup_sync E now_utc w Hwf).
Qed.

Lemma example_stamp : utc_stamp Example.that_night.
Proof. split; reflexivity. Qed.

Lemma handlers_keep_sessions_well_formed_witness :
  utc_stamp Example.that_night /\
  wf_registry (active_shares Example.with_share) /\
  (forall update,
     wf_registry (active_shares
       (snd (handle_location Example.quiet update Example.that_night
               Example.with_share)))) /\
  (forall update,
     wf_registry (active_shares
       (snd (handle_edited_location Example.quiet update Example.that_night
               Example.with_share)))) /\
  wf_registry (active_shares
    (snd (cleanup_inactive_shares Example.quiet Example.that_night
            Example.with_share))).
Proof.
  split; [exact example_stamp|]. split; [exact example_registry_wf|].
  apply (handlers_keep_sessions_well_formed Example.quiet Example.that_night
           Example.with_share).
  - exact example_stamp.
  - exact example_registry_wf.
Defined.

(** X10. The snapshot file follows the registry. If the registry holds
    sessions, the file holds its snapshot, and the file operations of the
    next [save_state] succeed, then after either location handler or the
    clean-up job the file again holds the snapshot of the registry: of the
    changed one when the handler changed it, of the same one otherwise. *)
Theorem handlers_keep_snapshot_in_sync (E : env) (now_utc : datetime)
    (w : world) :
  utc_stamp now_utc -> wf_registry (active_shares w) ->
  plan_ok (e_save_io E (n_save w)) = true -> in_sync w ->
  (forall update, in_sync (snd (handle_location E update now_utc w))) /\
  (forall update, in_sync (snd (handle_edited_location E update now_utc w))) /\
  in_sync (snd (cleanup_inactive_shares E now_utc w)).
Proof.
  intros Hnow Hwf Hplan Hsync. split; [|split].
  - intros update.
    apply (handle_location_sync E now_utc w Hnow Hwf update); assumption.
  - intros update.
    apply (handle_edited_location_sync E now_utc w Hnow Hwf update); assumption.
  - apply (cleanup_sync E now_utc w Hwf); assumption.
Qed.

Lemma handlers_keep_snapshot_in_sync_witness :
  utc_stamp Example.that_night /\
  wf_registry (active_shares Scenario.synced) /\
  plan_ok (e_save_io Example.quiet (n_save Scenario.synced)) = true /\
  in_sync Scenario.synced /\
  (forall update,
     in_sync (snd (handle_location Example.quiet update Example.that_night
                     Scenario.synced))) /\
  (forall update,
     in_sync (snd (handle_edited_location Example.quiet update Example.that_night
                     Scenario.synced))) /\
  in_sync (snd (cleanup_inactive_shares Example.quiet Example.that_night
                  Scenario.synced)).
Proof.
  split; [exact example_stamp|]. split; [exact example_registry_wf|].
  split; [reflexivity|]. split; [reflexivity|].
  apply (handlers_keep_snapshot_in_sync Example.quiet Example.that_night
           Scenario.synced).
  - exact example_stamp.
  - exact example_registry_wf.
  - reflexivity.
  - reflexivity.
Defined.

(** X11. A restart restores the registry: when the file holds the snapshot
    of a registry of sessions, [active_shares = load_state(STATE_FILENAME)]
    in a process that starts from that file leaves exactly that registry
    in memory. *)
Theorem restart_restores_registry (E : env) (w w0 : world) :
  wf_registry (active_shares w) -> in_sync w ->
  state_file w0 = state_file w -> e_load_fault E = false ->
  exists w1, startup E w0 = (Ok tt, w1) /\ active_shares w1 = active_shares w.
Proof.
  intros Hwf Hsync Hfile Hload.
  pose proof (load_snapshot E (active_shares w) w0 Hwf) as Hl.
  rewrite Hfile in Hl. specialize (Hl Hsync Hload).
  unfold startup. run_M.
  destruct (load_state E w0) as [r w1]. cbn in Hl. subst r.
  eexists. split; reflexivity.
Qed.

Lemma restart_restores_registry_witness :
  wf_registry (active_shares Scenario.synced) /\ in_sync Scenario.synced /\
  state_file Scenario.restarted = state_file Scenario.synced /\
  e_load_fault Example.quiet = false /\
  exists w1, startup Example.quiet Scenario.restarted = (Ok tt, w1) /\
             active_shares w1 = active_shares Scenario.synced.
Proof.
  split; [exact example_registry_wf|]. split; [reflexivity|].
  split; [reflexivity|]. split; [reflexivity|].
  apply (restart_restores_registry Example.quiet Scenario.synced Scenario.restarted).
  - exact example_registry_wf.
  - reflexivity.
  - reflexivity.
  - reflexivity.
Defined.

(** ** The clean-up job: entries it cannot judge, and a second sweep *)

Section CleanupEdges.

Context (E : env) (now_utc : datetime) (inactive_limit : Z).

(** An entry whose judged value is not a [datetime] cannot be judged. *)
Lemma is_inactive_no_stamp (l : dict) :
  (forall d, judged_stamp l <> VDatetime d) ->
  is_inactive now_utc inactive_limit (VDict l) = Raise AttributeError.
Proof.
  intros H. unfold is_inactive, judged_stamp in *. cbn [py_get mbind res_bind].
  destruct (dict_get k_last_update l) as [x|];
    [|destruct (dict_get k_start_time l) as [x|]];
    try (destruct x as [|b|n|s|d|l0|l1]; try reflexivity; destruct (H d eq_refl)).
  reflexivity.
Qed.

(** The first loop reports every entry it could not judge. *)
Lemma mark_inactive_reports keys : forall acc w k v e,
  k ∈ keys -> active_shares w !! k = Some v -> truthy v = true ->
  is_inactive now_utc inactive_limit v = Raise e ->
  subclass e KeyError = false ->
  exists suffix,
    snd (mark_inactive now_utc inactive_limit keys acc w)
      = set_journal (journal w ++ suffix) w /\
    ELog ERROR (MJobCheckError k e) ∈ suffix.
Proof.
  induction keys as [|key keys IH]; intros acc w k v e Hin Hk Ht Hi He.
  - inversion Hin.
  - cbn [mark_inactive]. run_M.
    destruct (decide (k = key)) as [->|Hne].
    + rewrite Hk. cbn. rewrite Ht. cbn. rewrite Hi. rewrite He. cbn.
      match goal with
      | |- context [mark_inactive now_utc inactive_limit keys ?a ?w0] =>
          destruct (mark_inactive_spec now_utc inactive_limit keys a w0)
            as (sfx & -> & _)
      end.
      exists (ELog ERROR (MJobCheckError key e) :: sfx). cbn.
      split; [unfold set_journal; cbn; rewrite <- !app_assoc; reflexivity|].
      apply elem_of_cons. left. reflexivity.
    + assert (Hin' : k ∈ keys)
        by (apply elem_of_cons in Hin as [?|?]; [contradiction | assumption]).
      assert (Hstep : forall a pre,
                exists suffix,
                  snd (mark_inactive now_utc inactive_limit keys a
                         (set_journal (journal w ++ pre) w))
                    = set_journal (journal w ++ suffix) w /\
                  ELog ERROR (MJobCheckError k e) ∈ suffix).
      { intros a pre.
        destruct (IH a (set_journal (journal w ++ pre) w) k v e Hin' Hk Ht Hi He)
          as (sfx & -> & Hm).
        exists (pre ++ sfx). split.
        - unfold set_journal. cbn. rewrite <- app_assoc. reflexivity.
        - apply elem_of_app. right. exact Hm. }
      assert (Hsame : forall a,
                exists suffix,
                  snd (mark_inactive now_utc inactive_limit keys a w)
                    = set_journal (journal w ++ suffix) w /\
                  ELog ERROR (MJobCheckError k e) ∈ suffix)
        by (intros a; exact (IH a w k v e Hin' Hk Ht Hi He)).
      unfold set_journal in Hstep. cbn in Hstep.
      destruct (active_shares w !! key) as [v'|]; [|apply Hsame].
      cbn. destruct (truthy v'); cbn; [|apply Hsame].
      destruct (is_inactive now_utc inactive_limit v') as [[]|e']; cbn.
      * apply Hstep.
      * apply Hsame.
      * destruct (subclass e' KeyError); cbn; apply Hstep.
Qed.

End CleanupEdges.

(** X12. The clean-up job and an entry it cannot judge: a non-empty entry
    whose [last_update], or failing that [start_time], is missing or is not
    a [datetime]. The job reports it at ERROR level ([AttributeError]),
    leaves it in the registry, and goes on to return normally. *)
Theorem sweep_keeps_entry_without_timestamp (E : env) (now_utc : datetime)
    (inactive_limit : Z) (w : world) (k : share_key) (l : dict) :
  timedelta_hours (MAX_INACTIVE_HOURS E) = Ok inactive_limit ->
  active_shares w !! k = Some (VDict l) -> l <> [] ->
  (forall d, judged_stamp l <> VDatetime d) ->
  exists w' suffix,
    cleanup_inactive_shares E now_utc w = (Ok tt, w') /\
    journal w' = journal w ++ suffix /\
    active_shares w' !! k = Some (VDict l) /\
    ELog ERROR (MJobCheckError k AttributeError) ∈ suffix.
Proof.
  intros Hlim Hk Hl Hj.
  assert (Ht : truthy (VDict l) = true) by (destruct l; [contradiction | reflexivity]).
  pose proof (is_inactive_no_stamp now_utc inactive_limit l Hj) as Hi.
  assert (Hnot : key_marked now_utc inactive_limit (active_shares w) k = false)
    by (unfold key_marked, marked; rewrite Hk, Hi, Ht; reflexivity).
  unfold cleanup_inactive_shares. run_M. rewrite Hlim. cbn.
  match goal with
  | |- context [mark_inactive now_utc inactive_limit ?ks ?a ?w0] =>
      destruct (mark_inactive_spec now_utc inactive_limit ks a w0)
        as (sfx & Hm & _);
      destruct (mark_inactive_reports now_utc inactive_limit ks a w0 k (VDict l)
                  AttributeError) as (sfx' & Hm' & Hin);
        [ change (k ∈ (map_to_list (active_shares w)).*1);
          apply list_elem_of_fmap; exists (k, VDict l);
          split; [reflexivity | apply elem_of_map_to_list; exact Hk]
        | exact Hk | exact Ht | exact Hi | reflexivity | ]
  end.
  rewrite Hm in Hm'. unfold set_journal in Hm'. cbn in Hm'.
  injection Hm' as Hm'. apply app_inv_head in Hm'. subst sfx'.
  rewrite Hm. clear Hm.
  cbn [app active_shares].
  pose proof (marked_keys_elem now_utc inactive_limit (active_shares w)) as Helem.
  pose proof (marked_keys_NoDup now_utc inactive_limit (active_shares w)) as Hnd.
  destruct (List.filter (key_marked now_utc inactive_limit (active_shares w))
              (map fst (map_to_list (active_shares w)))) as [|k0 ks] eqn:Hf.
  - eexists; eexists. split; [run_M; reflexivity|]. cbn.
    split; [rewrite <- !app_assoc; reflexivity|].
    split; [exact Hk|].
    apply elem_of_app. right. apply elem_of_app. left. exact Hin.
  - run_M.
    match goal with
    | |- context [remove_marked (k0 :: ks) ?n0 ?b0 ?w0] =>
        destruct (remove_marked_spec (k0 :: ks) n0 b0 w0 Hnd) as (r' & -> & Hlk & _)
    end.
    { cbn. intros k' Hk'. apply Helem in Hk'. unfold key_marked in Hk'.
      destruct (active_shares w !! k'); [eauto | discriminate]. }
    cbn in Hlk |- *.
    match goal with
    | |- context [save_state E ?r ?w0] =>
        destruct (save_state_spec E r w0) as (w' & sfx2 & -> & Hj2 & Ha2 & _)
    end.
    cbn in Hj2, Ha2. exists w'. eexists. split; [reflexivity|].
    split; [rewrite Hj2, <- !app_assoc; reflexivity|].
    split.
    + rewrite Ha2, Hlk. destruct (decide (k ∈ k0 :: ks)) as [Hin'|_]; [|exact Hk].
      apply Helem in Hin'. congruence.
    + apply elem_of_app. right. apply elem_of_app. left. exact Hin.
Qed.

Lemma sweep_keeps_entry_without_timestamp_witness :
  timedelta_hours (MAX_INACTIVE_HOURS Example.quiet) = Ok (9 * us_per_hour) /\
  active_shares Scenario.no_stamp !! Example.key
    = Some (VDict Scenario.ownerless_stamp) /\
  exists w' suffix,
    cleanup_inactive_shares Example.quiet Example.that_night Scenario.no_stamp
      = (Ok tt, w') /\
    journal w' = journal Scenario.no_stamp ++ suffix /\
    active_shares w' !! Example.key = Some (VDict Scenario.ownerless_stamp) /\
    ELog ERROR (MJobCheckError Example.key AttributeError) ∈ suffix.
Proof.
  split; [reflexivity|]. split; [reflexivity|].
  apply (sweep_keeps_entry_without_timestamp Example.quiet Example.that_night
           (9 * us_per_hour) Scenario.no_stamp Example.key Scenario.ownerless_stamp).
  - reflexivity.
  - reflexivity.
  - discriminate.
  - intros d. discriminate.
Defined.

Section CleanupQuiet.

Context (E : env) (now_utc : datetime) (inactive_limit : Z).

(** A sweep that marks nothing only writes to the journal. *)
Lemma cleanup_nothing_marked w :
  timedelta_hours (MAX_INACTIVE_HOURS E) = Ok inactive_limit ->
  (forall k, key_marked now_utc inactive_limit (active_shares w) k = false) ->
  exists suffix,
    cleanup_inactive_shares E now_utc w
      = (Ok tt, set_journal (journal w ++ suffix) w) /\
    canonical_views suffix = [] /\ append_calls suffix = [] /\
    ELog INFO MJobNothing ∈ suffix.
Proof.
  intros Hlim Hnone. unfold cleanup_inactive_shares. run_M. rewrite Hlim. cbn.
  match goal with
  | |- context [mark_inactive now_utc inactive_limit ?ks ?a ?w0] =>
      destruct (mark_inactive_spec now_utc inactive_limit ks a w0)
        as (sfx & -> & Ha & Hc)
  end.
  cbn [app active_shares].
  pose proof (marked_keys_elem now_utc inactive_limit (active_shares w)) as Helem.
  destruct (List.filter (key_marked now_utc inactive_limit (active_shares w))
              (map fst (map_to_list (active_shares w)))) as [|k0 ks] eqn:Hf.
  - exists ([ELog INFO MJobStart] ++ sfx ++ [ELog INFO MJobNothing]).
    split; [run_M; rewrite <- !app_assoc; reflexivity|].
    rewrite !canonical_views_app, !append_calls_app, Ha, Hc.
    split; [reflexivity|]. split; [reflexivity|].
    apply elem_of_app. right. apply elem_of_app. right. constructor.
  - assert (Hin : k0 ∈ k0 :: ks) by (apply elem_of_cons; left; reflexivity).
    apply Helem in Hin. rewrite Hnone in Hin. discriminate Hin.
Qed.

End CleanupQuiet.

(** X13. Two sweeps at the same clock reading: the second finds nothing
    to remove. It leaves the registry as the first left it, performs no
    file operation (snapshot and temporary file are as before) and logs
    that nothing inactive was found. *)
Theorem sweep_is_idempotent (E : env) (now_utc : datetime) (inactive_limit : Z)
    (w : world) :
  timedelta_hours (MAX_INACTIVE_HOURS E) = Ok inactive_limit ->
  exists w1 w2 suffix,
    cleanup_inactive_shares E now_utc w = (Ok tt, w1) /\
    cleanup_inactive_shares E now_utc w1 = (Ok tt, w2) /\
    active_shares w2 = active_shares w1 /\
    state_file w2 = state_file w1 /\ temp_file w2 = temp_file w1 /\
    journal w2 = journal w1 ++ suffix /\
    canonical_views suffix = [] /\
    ELog INFO MJobNothing ∈ suffix.
Proof.
  intros Hlim.
  destruct (cleanup_spec E now_utc inactive_limit w Hlim)
    as (w1 & sfx1 & Hc1 & Hl1 & _).
  destruct (cleanup_nothing_marked E now_utc inactive_limit w1 Hlim)
    as (sfx & Hc2 & Hv & _ & Hn).
  { intros k. unfold key_marked. rewrite Hl1.
    destruct (key_marked now_utc inactive_limit (active_shares w) k) eqn:Hm;
      [reflexivity|].
    exact Hm. }
  exists w1, (set_journal (journal w1 ++ sfx) w1), sfx.
  repeat split; assumption.
Qed.

Lemma sweep_is_idempotent_witness :
  timedelta_hours (MAX_INACTIVE_HOURS Example.quiet) = Ok (9 * us_per_hour) /\
  exists w1 w2 suffix,
    cleanup_inactive_shares Example.quiet Example.that_night Example.with_share
      = (Ok tt, w1) /\
    cleanup_inactive_shares Example.quiet Example.that_night w1 = (Ok tt, w2) /\
    active_shares w2 = active_shares w1 /\
    state_file w2 = state_file w1 /\ temp_file w2 = temp_file w1 /\
    journal w2 = journal w1 ++ suffix /\
    canonical_views suffix = [] /\
    ELog INFO MJobNothing ∈ suffix.
Proof.
  split; [reflexivity|].
  apply (sweep_is_idempotent Example.quiet Example.that_night (9 * us_per_hour)
           Example.with_share).
  reflexivity.
Defined.

(** ** Instants: the calendar behind [astimezone] *)

Section Calendar.

Lemma days_in_month_bounds y m : 28 <= days_in_month y m <= 31.
Proof.
  unfold days_in_month.
  destruct (m =? 2); [destruct (is_leap y); lia|].
  destruct ((m =? 4) || (m =? 6) || (m =? 9) || (m =? 11)); lia.
Qed.

Lemma days_before_month_succ y m :
  1 <= m ->
  days_before_month y (m + 1) = days_before_month y m + days_in_month y m.
Proof.
  intros Hm. unfold days_before_month.
  replace (Z.to_nat (m + 1 - 1)) with (S (Z.to_nat (m - 1))) by lia.
  cbn [days_before_month_go]. f_equal. f_equal. lia.
Qed.

Lemma days_before_year_succ y :
  days_before_year (y + 1) =
  days_before_year y + (if is_leap y then 366 else 365).
Proof.
  unfold days_before_year, is_leap.
  replace (y + 1 - 1) with y by lia.
  destruct (Z.eqb_spec (y mod 4) 0) as [H4|H4];
    destruct (Z.eqb_spec (y mod 100) 0) as [H100|H100];
    destruct (Z.eqb_spec (y mod 400) 0) as [H400|H400]; cbn;
    Z.div_mod_to_equations; lia.
Qed.

Lemma year_length y :
  days_before_month y 12 + 31 = (if is_leap y then 366 else 365).
Proof.
  unfold days_before_month. change (Z.to_nat (12 - 1)) with 11%nat.
  cbn [days_before_month_go]. unfold days_in_month.
  destruct (is_leap y); reflexivity.
Qed.

Lemma next_day_ord c c' :
  valid_date c -> next_day c = Some c' ->
  valid_date c' /\ ordinal c' = ordinal c + 1.
Proof.
  destruct c as [[y m] d]. unfold valid_date, next_day, ordinal, ymd2ord.
  intros (Hy & Hm & Hd).
  destruct (Z.ltb_spec d (days_in_month y m)) as [Hlt|Hge].
  - intros [= <-]. split; [repeat split; lia | lia].
  - destruct (Z.ltb_spec m 12) as [Hm12|Hm12].
    + intros [= <-]. pose proof (days_in_month_bounds y (m + 1)).
      split; [repeat split; lia|].
      rewrite days_before_month_succ by lia. lia.
    + destruct (Z.ltb_spec y 9999) as [Hy9|Hy9]; [|discriminate].
      intros [= <-]. pose proof (days_in_month_bounds (y + 1) 1).
      split; [repeat split; lia|].
      assert (m = 12) as -> by lia.
      rewrite days_before_year_succ. pose proof (year_length y) as Hl.
      change (days_in_month y 12) with 31 in Hd, Hge.
      change (days_before_month (y + 1) 1) with 0. lia.
Qed.

Lemma prev_day_ord c c' :
  valid_date c -> prev_day c = Some c' ->
  valid_date c' /\ ordinal c' = ordinal c - 1.
Proof.
  destruct c as [[y m] d]. unfold valid_date, prev_day, ordinal, ymd2ord.
  intros (Hy & Hm & Hd).
  destruct (Z.ltb_spec 1 d) as [Hlt|Hge].
  - intros [= <-]. split; [repeat split; lia | lia].
  - destruct (Z.ltb_spec 1 m) as [Hm1|Hm1].
    + intros [= <-]. pose proof (days_in_month_bounds y (m - 1)).
      split; [repeat split; lia|].
      pose proof (days_before_month_succ y (m - 1)) as Hs.
      replace (m - 1 + 1) with m in Hs by lia. rewrite Hs by lia. lia.
    + destruct (Z.ltb_spec 1 y) as [Hy1|Hy1]; [|discriminate].
      intros [= <-]. change (days_in_month (y - 1) 12) with 31.
      split; [repeat split; lia|].
      assert (m = 1) as -> by lia.
      pose proof (days_before_year_succ (y - 1)) as Hs.
      replace (y - 1 + 1) with y in Hs by lia.
      pose proof (year_length (y - 1)) as Hl.
      change (days_before_month y 1) with 0. lia.
Qed.

Lemma step_next_ord n : forall c c',
  valid_date c -> step_days next_day n c = Some c' ->
  valid_date c' /\ ordinal c' = ordinal c + Z.of_nat n.
Proof.
  induction n as [|n IH]; intros c c' Hv; cbn [step_days].
  - intros [= <-]. split; [exact Hv | lia].
  - destruct (next_day c) as [c1|] eqn:Hn; [|discriminate].
    destruct (next_day_ord c c1 Hv Hn) as [Hv1 Ho1].
    intros H. destruct (IH c1 c' Hv1 H) as [Hv' Ho']. split; [exact Hv' | lia].
Qed.

Lemma step_prev_ord n : forall c c',
  valid_date c -> step_days prev_day n c = Some c' ->
  valid_date c' /\ ordinal c' = ordinal c - Z.of_nat n.
Proof.
  induction n as [|n IH]; intros c c' Hv; cbn [step_days].
  - intros [= <-]. split; [exact Hv | lia].
  - destruct (prev_day c) as [c1|] eqn:Hn; [|discriminate].
    destruct (prev_day_ord c c1 Hv Hn) as [Hv1 Ho1].
    intros H. destruct (IH c1 c' Hv1 H) as [Hv' Ho']. split; [exact Hv' | lia].
Qed.

(** [add_days] moves the ordinal by the number of days asked for. *)
Lemma add_days_ord c q c' :
  valid_date c -> add_days c q = Some c' ->
  valid_date c' /\ ordinal c' = ordinal c + q.
Proof.
  intros Hv. unfold add_days. destruct (Z.leb_spec 0 q) as [Hq|Hq]; intros H.
  - destruct (step_next_ord _ _ _ Hv H) as [Hv' Ho]. split; [exact Hv' | lia].
  - destruct (step_prev_ord _ _ _ Hv H) as [Hv' Ho]. split; [exact Hv' | lia].
Qed.

Lemma valid_parts (d : datetime) :
  valid d = true ->
  valid_date (year d, month d, day d) /\ 0 <= time_of_day d < us_per_day.
Proof.
  intros Hv. pose proof (valid_fields d Hv) as (Hy & Hm & _ & Hh & Hmi & Hs & Hus).
  split.
  - unfold valid, in_range in Hv.
    repeat (apply andb_true_iff in Hv as [Hv ?]).
    repeat match goal with
           | X : (_ <=? _) = true |- _ => apply Z.leb_le in X
           end.
    unfold valid_date. lia.
  - unfold time_of_day, us_per_day, us_per_hour, us_per_minute, us_per_second. lia.
Qed.

(** The clock fields [add_micros] builds from an offset into the day. *)
Lemma clock_of_offset r :
  0 <= r < us_per_day ->
  0 <= r / us_per_hour <= 23 /\
  0 <= (r mod us_per_hour) / us_per_minute <= 59 /\
  0 <= (r mod us_per_minute) / us_per_second <= 59 /\
  0 <= r mod us_per_second <= 999999 /\
  ((r / us_per_hour * 60 + (r mod us_per_hour) / us_per_minute) * 60
   + (r mod us_per_minute) / us_per_second) * us_per_second
  + r mod us_per_second = r.
Proof.
  unfold us_per_day, us_per_hour, us_per_minute, us_per_second.
  intros Hr. Z.div_mod_to_equations. lia.
Qed.

Lemma time_of_day_mk y m dd h mi s us tz :
  time_of_day (mk_datetime y m dd h mi s us tz)
  = ((h * 60 + mi) * 60 + s) * us_per_second + us.
Proof. reflexivity. Qed.

(** [add_micros] moves the reading of the clock by [delta] and keeps the
    value inside the calendar. *)
Lemma add_micros_wall (d d' : datetime) (delta : Z) (tz : option Z) :
  valid d = true -> add_micros d delta tz = Ok d' ->
  wall_micros d' = wall_micros d + delta /\ tzinfo d' = tz /\
  (match tz with
   | Some off => - us_per_day < off < us_per_day
   | None => True
   end -> valid d' = true).
Proof.
  intros Hv. destruct (valid_parts d Hv) as [Hdate Ht].
  unfold add_micros.
  destruct (add_days (year d, month d, day d) ((time_of_day d + delta) / us_per_day))
    as [[[y m] dd]|] eqn:Ha; [|discriminate].
  destruct (add_days_ord _ _ _ Hdate Ha) as [(Hy & Hm & Hd) Ho].
  intros [= <-].
  assert (Hr : 0 <= (time_of_day d + delta) mod us_per_day < us_per_day)
    by (apply Z.mod_pos_bound; reflexivity).
  destruct (clock_of_offset _ Hr) as (Hh & Hmi & Hs & Hus & Hsum).
  split; [|split; [reflexivity|]].
  - unfold wall_micros. cbn [year month day].
    rewrite time_of_day_mk, Hsum. unfold ordinal in Ho. rewrite Ho.
    pose proof (Z.div_mod (time_of_day d + delta) us_per_day) as Hdm.
    unfold wall_micros. unfold us_per_day in *. lia.
  - intros Htz. unfold valid, in_range.
    cbn [year month day hour minute second microsecond tzinfo].
    repeat (apply andb_true_iff; split);
      try (apply Z.leb_le; lia).
    destruct tz as [off|]; [|reflexivity].
    apply andb_true_iff. split; apply Z.ltb_lt; lia.
Qed.

(** [astimezone] keeps the instant and expresses it at the target
    offset; a naive value is first read on the local clock. *)
Lemma astimezone_instant (local : datetime -> Z) (d u : datetime) (target : Z) :
  valid d = true ->
  astimezone local d target = Ok u ->
  utc_micros u =
    wall_micros d - match tzinfo d with Some o => o | None => local d end /\
  tzinfo u = Some target /\
  (- us_per_day < target < us_per_day -> valid u = true).
Proof.
  intros Hv. unfold astimezone. intros Ha.
  destruct (add_micros_wall _ _ _ _ Hv Ha) as (Hw & Htz & Hval).
  split; [|split; [exact Htz | exact Hval]].
  unfold utc_micros. rewrite Hw, Htz. lia.
Qed.

End Calendar.

Section Restore.

Context (E : env).






End Restore.



(** ** A whole session *)

Section WholeSession.

Context (E : env).

Lemma duration_seconds_floor (x : Z) :
  duration_seconds_of x = Z.max 0 (x / 1000000).
Proof.
  unfold duration_seconds_of, us_per_second.
  destruct (Z.le_gt_cases 0 x) as [Hp|Hn].
  - rewrite Z.quot_div_nonneg by lia. reflexivity.
  - assert (x ÷ 1000000 <= 0) by (apply Z.quot_le_upper_bound; lia).
    assert (x / 1000000 < 0) by (apply Z.div_lt_upper_bound; lia).
    lia.
Qed.

(** The row of a session between two ordinary clock readings. *)
Lemma row_data_of_session (uid : Z) (name : text) (st en : datetime) :
  zone_ok E -> ordinary st -> ordinary en ->
  exists start_br end_br,
    to_br E st = Ok start_br /\ utc_micros start_br = utc_micros st /\
    to_br E en = Ok end_br /\ utc_micros end_br = utc_micros en /\
    row_data_of E (VInt uid) (VStr name) st en
      = Ok (session_row uid name st en start_br end_br).
Proof.
  intros Hz [[Hvs Hts] Hys] [[Hve Hte] Hye].
  assert (Hbr : forall d, valid d = true -> tzinfo d = Some 0 -> 2 <= year d <= 9998 ->
            exists b, to_br E d = Ok b /\ utc_micros b = utc_micros d).
  { intros d Hv Ht Hy. unfold to_br.
    destruct (add_micros_ordinary d (e_br_offset E (utc_micros d) - 0)
                (Some (e_br_offset E (utc_micros d))) Hv Hy) as [b Hb].
    { pose proof (Hz (utc_micros d)). lia. }
    assert (Ha : astimezone (e_local_offset E) d (e_br_offset E (utc_micros d)) = Ok b)
      by (unfold astimezone; rewrite Ht; exact Hb).
    exists b. split; [exact Ha|].
    destruct (astimezone_instant _ _ _ _ Hv Ha) as (Hi & _).
    rewrite Hi. unfold utc_micros. rewrite Ht. reflexivity. }
  destruct (Hbr st Hvs Hts Hys) as (sb & Hsb & Hsi).
  destruct (Hbr en Hve Hte Hye) as (eb & Heb & Hei).
  exists sb, eb. repeat (split; [assumption|]).
  unfold row_data_of, Datetime.sub. rewrite Hts, Hte. cbn [mbind res_bind].
  rewrite Hsb, Heb. cbn [mbind res_bind].
  rewrite duration_seconds_floor. reflexivity.
Qed.

(** A close event for a session whose row can be built. *)
Lemma close_share_outcome update now_utc w em uid name st lu row :
  edited_message update = Some em -> message_id em <> 0 ->
  share_ended em = true ->
  active_shares w !! key_of em = Some (session uid name st lu) ->
  is_Some (tzinfo st) ->
  row_data_of E (VInt uid) (VStr name) st now_utc = Ok row ->
  exists (b : bool) w' suffix,
    handle_edited_location E update now_utc w = (Ok tt, w') /\
    journal w' = journal w ++ suffix /\
    active_shares w' = delete (key_of em) (active_shares w) /\
    sheet w' = (if b then sheet w ++ [row] else sheet w) /\
    (b = false -> ELog ERROR (MCloseLedgerFailed (key_of em)) ∈ suffix).
Proof.
  intros Hem Hid Hend Hk [off Hts] Hrow.
  unfold handle_edited_location. rewrite Hem.
  destruct (Z.eqb_spec (message_id em) 0) as [|_]; [contradiction|].
  unfold key_of in *. run_M. rewrite Hk. cbn. rewrite Hend.
  unfold close_share. run_M. rewrite Hts. cbn. rewrite Hrow. cbn.
  match goal with
  | |- context [append_row_with_retry E row 2 5 ?w0] =>
      destruct (append_row_outcome E row 2 5 w0 ltac:(lia))
        as (b & w1 & sfx1 & Hr & Hj1 & Hs1 & Ha1 & _)
  end.
  rewrite Hr. cbn in Hj1, Hs1, Ha1.
  assert (Hk1 : is_Some (active_shares w1 !! (chat_id em, message_id em)))
    by (rewrite Ha1, Hk; eauto).
  exists b.
  destruct b; cbn;
    (destruct (decide (is_Some _)) as [_|Hno]; [|contradiction]); cbn;
    match goal with
    | |- context [save_state E ?r ?w0] =>
        destruct (save_state_spec E r w0) as (w2 & sfx & Hs & Hj & Ha & Hsh & _)
    end;
    rewrite Hs; cbn in Hj, Ha, Hsh; exists w2; eexists;
    (split; [reflexivity|]);
    (split; [rewrite Hj, Hj1, <- !app_assoc; reflexivity|]);
    (split; [rewrite Ha, Ha1; reflexivity|]);
    (split; [rewrite Hsh, Hs1; reflexivity|]).
  - intros H; discriminate H.
  - intros _. apply elem_of_app. right. apply elem_of_app. right.
    apply elem_of_cons. left. reflexivity.
Qed.

End WholeSession.

(** X3. A share from its first location to its last edit, with clock
    readings [t0] and [t1] in years 1001..9998 less than [2^33] seconds
    apart. Both handlers return, the entry is gone from the registry, and
    the sheet has grown by exactly one row or, when the append failed, by
    none (the closing handler then logs an ERROR record that says so).
    The row holds the user's id and display name, the two instants on the
    clock of [BR_TZ] and on the UTC clock, and the whole seconds from [t0]
    to [t1] (0 when [t1] is the earlier), as a number and as
    [format_duration] shows them. *)
Theorem session_leaves_one_row (E : env) (w : world)
    (open_update end_update : tg_update) (t0 t1 : datetime)
    (k : share_key) (u : tg_user) (em : tg_message) :
  opens open_update = Some (k, u) ->
  edited_message end_update = Some em -> key_of em = k ->
  message_id em <> 0 -> share_ended em = true ->
  zone_ok E -> modern t0 -> modern t1 ->
  utc_micros t1 - utc_micros t0 < 2 ^ 33 * 1000000 ->
  exists w1 w2 (b : bool) start_br end_br closing,
    handle_location E open_update t0 w = (Ok tt, w1) /\
    handle_edited_location E end_update t1 w1 = (Ok tt, w2) /\
    to_br E t0 = Ok start_br /\ utc_micros start_br = utc_micros t0 /\
    to_br E t1 = Ok end_br /\ utc_micros end_br = utc_micros t1 /\
    sheet w2 =
      (if b
       then sheet w ++
            [session_row (user_id u) (display_name u) t0 t1 start_br end_br]
       else sheet w) /\
    active_shares w2 = delete k (active_shares w) /\
    journal w2 = journal w1 ++ closing /\
    (b = false -> ELog ERROR (MCloseLedgerFailed k) ∈ closing).
Proof.
  intros Hopen Hem Hkey Hid Hend Hz [Hs0 Hy0] [Hs1 Hy1] _.
  destruct (handle_location_opens E open_update t0 w k u Hopen)
    as (w1 & sfx1 & Hl & Ha1 & Hj1 & Hsh1 & _).
  destruct (row_data_of_session E (user_id u) (display_name u) t0 t1 Hz)
    as (sb & eb & Hsb & Hsi & Heb & Hei & Hrow);
    [split; [exact Hs0 | lia] | split; [exact Hs1 | lia] |].
  destruct (close_share_outcome E end_update t1 w1 em (user_id u) (display_name u)
              t0 t0 (session_row (user_id u) (display_name u) t0 t1 sb eb)
              Hem Hid Hend) as (b & w2 & sfx2 & Hc & Hj2 & Ha2 & Hsh2 & Hlog).
  { rewrite Hkey, Ha1. apply lookup_insert_eq. }
  { destruct Hs0 as [_ ->]. eauto. }
  { exact Hrow. }
  exists w1, w2, b, sb, eb, sfx2.
  split; [exact Hl|]. split; [exact Hc|].
  do 4 (split; [assumption|]).
  split; [rewrite Hsh2, Hsh1; reflexivity|].
  split; [rewrite Ha2, Hkey, Ha1; apply delete_insert_eq|].
  split; [exact Hj2|].
  intros Hb. rewrite <- Hkey. exact (Hlog Hb).
Qed.

Lemma example_zone_ok : zone_ok Example.quiet.
Proof. intros t. cbn. unfold us_per_day, us_per_hour, us_per_minute, us_per_second. lia. Qed.

Lemma session_leaves_one_row_witness :
  opens Example.first_location = Some (Example.key, Example.alice) /\
  zone_ok Example.quiet /\ modern Example.noon /\ modern Example.twenty_five_past /\
  utc_micros Example.twenty_five_past - utc_micros Example.noon < 2 ^ 33 * 1000000 /\
  exists w1 w2 (b : bool) start_br end_br closing,
    handle_location Example.quiet Example.first_location Example.noon Example.fresh
      = (Ok tt, w1) /\
    handle_edited_location Example.quiet Example.final_edit
      Example.twenty_five_past w1 = (Ok tt, w2) /\
    to_br Example.quiet Example.noon = Ok start_br /\
    utc_micros start_br = utc_micros Example.noon /\
    to_br Example.quiet Example.twenty_five_past = Ok end_br /\
    utc_micros end_br = utc_micros Example.twenty_five_past /\
    sheet w2 =
      (if b
       then sheet Example.fresh ++
            [session_row (user_id Example.alice) (display_name Example.alice)
               Example.noon Example.twenty_five_past start_br end_br]
       else sheet Example.fresh) /\
    active_shares w2 = delete Example.key (active_shares Example.fresh) /\
    journal w2 = journal w1 ++ closing /\
    (b = false -> ELog ERROR (MCloseLedgerFailed Example.key) ∈ closing).
Proof.
  split; [reflexivity|]. split; [exact example_zone_ok|].
  split; [repeat split; vm_compute; congruence|].
  split; [repeat split; vm_compute; congruence|].
  split; [vm_compute; reflexivity|].
  apply (session_leaves_one_row Example.quiet Example.fresh Example.first_location
           Example.final_edit Example.noon Example.twenty_five_past Example.key
           Example.alice
           (mk_message 100 5 (Some Example.alice) (Some (mk_location None)))).
  - reflexivity.
  - reflexivity.
  - reflexivity.
  - discriminate.
  - reflexivity.
  - exact example_zone_ok.
  - repeat split; vm_compute; congruence.
  - repeat split; vm_compute; congruence.
  - vm_compute. reflexivity.
Defined.

(** ** Durations as text *)

Section Durations.

(** [int()] of a run of digits. *)
Lemma int_of_digits ds :
  all_digits ds -> ds <> [] -> int_of_str ds = Some (digits_value 0 ds).
Proof.
  intros Hd Hne. unfold int_of_str.
  rewrite int_strip_plain by (eapply Forall_impl; [exact Hd | apply digit_plain]).
  assert (Hi : int_body 0 false ds = Some (digits_value 0 ds))
    by (apply int_body_run; auto).
  destruct ds as [|c r]; [congruence|].
  inversion Hd as [|? ? Hc _]; subst.
  destruct (Ascii.eqb_spec c "-") as [->|]; [discriminate Hc|].
  destruct (Ascii.eqb_spec c "+") as [->|]; [discriminate Hc|].
  destruct c as [[] [] [] [] [] [] [] []]; try exact Hi; congruence.
Qed.

(** A zero-padded number is a run of digits that reads back. *)
Lemma pad_reads_back w n :
  0 <= n -> (0 < w)%nat ->
  all_digits (pad w n) /\ pad w n <> [] /\ int_of_str (pad w n) = Some n /\
  (n < 10 ^ Z.of_nat w -> length (pad w n) = w).
Proof.
  intros Hn Hw. unfold pad. destruct (Z.ltb_spec n (10 ^ Z.of_nat w)) as [Hlt|Hge].
  - destruct (fixed_spec w n) as (Hlen & Hd & Hv); [lia|].
    assert (Hne : fixed w n <> [])
      by (intros H0; rewrite H0 in Hlen; cbn in Hlen; lia).
    split; [exact Hd|]. split; [exact Hne|].
    split; [|intros _; exact Hlen].
    rewrite int_of_digits by assumption. rewrite Hv. f_equal.
  - destruct (dec_spec n Hn) as (Hne & Hd & Hv).
    split; [exact Hd|]. split; [exact Hne|]. split; [|lia].
    rewrite int_of_digits by assumption. rewrite Hv. f_equal.
Qed.

Lemma format_duration_parts n :
  0 <= n ->
  format_duration n =
    pad 2 (n / 3600) ++ ":"%char :: pad 2 (n / 60 mod 60) ++ ":"%char :: pad 2 (n mod 60).
Proof.
  intros Hn. unfold format_duration.
  destruct (Z.ltb_spec n 0) as [|_]; [lia|].
  replace (n / 86400 * 24 + n mod 86400 / 60 / 60) with (n / 3600)
    by (Z.div_mod_to_equations; lia).
  replace (n mod 86400 / 60 mod 60) with (n / 60 mod 60)
    by (Z.div_mod_to_equations; lia).
  replace (n mod 86400 mod 60) with (n mod 60)
    by (Z.div_mod_to_equations; lia).
  reflexivity.
Qed.

(** A negative count is shown as zero. *)
Lemma format_duration_clamps n : format_duration n = format_duration (Z.max 0 n).
Proof.
  unfold format_duration.
  destruct (Z.ltb_spec n 0) as [Hn|Hn];
    destruct (Z.ltb_spec (Z.max 0 n) 0) as [Hm|Hm]; try lia.
  - replace (Z.max 0 n) with 0 by lia. reflexivity.
  - replace (Z.max 0 n) with n by lia. reflexivity.
Qed.

End Durations.

(** X15. [format_duration] shows hours, minutes and seconds separated by
    colons, and the three fields read back as numbers: the whole hours of
    the count (days included, so the field grows beyond two digits from 100
    hours on), the minutes and the seconds, each of these two on exactly
    two digits. A negative count is shown as zero. (The count is below the
    999999999 days a [timedelta] can hold.) *)
Theorem format_duration_reads_back (total_seconds : Z) :
  total_seconds < 86400 * 1000000000 ->
  let n := Z.max 0 total_seconds in
  exists hh mm ss : text,
    format_duration total_seconds = hh ++ ":"%char :: mm ++ ":"%char :: ss /\
    split ":" (format_duration total_seconds) = [hh; mm; ss] /\
    int_of_str hh = Some (n / 3600) /\
    int_of_str mm = Some (n / 60 mod 60) /\
    int_of_str ss = Some (n mod 60) /\
    length mm = 2%nat /\ length ss = 2%nat /\
    (n < 360000 -> length hh = 2%nat).
Proof.
  intros _ n. rewrite format_duration_clamps. fold n.
  assert (Hn : 0 <= n) by (unfold n; lia). clearbody n.
  assert (H3600 : 0 <= n / 3600) by (apply Z.div_pos; lia).
  assert (H60 : 0 <= n / 60 mod 60 < 60) by (apply Z.mod_pos_bound; lia).
  assert (Hs : 0 <= n mod 60 < 60) by (apply Z.mod_pos_bound; lia).
  destruct (pad_reads_back 2 (n / 3600)) as (Hd1 & _ & Hi1 & Hl1); [lia | lia |].
  destruct (pad_reads_back 2 (n / 60 mod 60)) as (Hd2 & _ & Hi2 & Hl2); [lia | lia |].
  destruct (pad_reads_back 2 (n mod 60)) as (Hd3 & _ & Hi3 & Hl3); [lia | lia |].
  exists (pad 2 (n / 3600)), (pad 2 (n / 60 mod 60)), (pad 2 (n mod 60)).
  rewrite format_duration_parts by exact Hn.
  split; [reflexivity|].
  split.
  - unfold split.
    destruct (split_on_plain (pad 2 (n / 3600)) []
                (pad 2 (n / 60 mod 60) ++ ":"%char :: pad 2 (n mod 60))) as [-> _];
      [eapply Forall_impl; [exact Hd1 | apply digit_plain]|].
    destruct (split_on_plain (pad 2 (n / 60 mod 60)) [] (pad 2 (n mod 60))) as [-> _];
      [eapply Forall_impl; [exact Hd2 | apply digit_plain]|].
    destruct (split_on_plain (pad 2 (n mod 60)) [] []) as [_ ->];
      [eapply Forall_impl; [exact Hd3 | apply digit_plain]|].
    reflexivity.
  - split; [exact Hi1|]. split; [exact Hi2|]. split; [exact Hi3|].
    split; [apply Hl2; change (10 ^ Z.of_nat 2) with 100; lia|].
    split; [apply Hl3; change (10 ^ Z.of_nat 2) with 100; lia|].
    intros Hlt. apply Hl1. change (10 ^ Z.of_nat 2) with 100.
    apply Z.div_lt_upper_bound; lia.
Qed.

Lemma format_duration_reads_back_witness :
  1500 < 86400 * 1000000000 /\
  exists hh mm ss : text,
    format_duration 1500 = hh ++ ":"%char :: mm ++ ":"%char :: ss /\
    split ":" (format_duration 1500) = [hh; mm; ss] /\
    int_of_str hh = Some (Z.max 0 1500 / 3600) /\
    int_of_str mm = Some (Z.max 0 1500 / 60 mod 60) /\
    int_of_str ss = Some (Z.max 0 1500 mod 60) /\
    length mm = 2%nat /\ length ss = 2%nat /\
    (Z.max 0 1500 < 360000 -> length hh = 2%nat).
Proof.
  split; [lia|].
  apply (format_duration_reads_back 1500). lia.
Defined.

(** ** The settings *)

Section Settings.

Lemma split_on_app sep s : forall cur rest,
  Forall (fun c => ch_eqb c sep = false) s ->
  split_on sep cur (s ++ sep :: rest) = (rev cur ++ s) :: split_on sep [] rest /\
  split_on sep cur s = [rev cur ++ s].
Proof.
  induction s as [|c s IH]; intros cur rest Hs.
  - cbn. unfold ch_eqb. rewrite Ascii.eqb_refl, app_nil_r. split; reflexivity.
  - inversion Hs as [|? ? Hc Hs']; subst. cbn. rewrite Hc.
    destruct (IH (c :: cur) rest Hs') as [H1 H2]. rewrite H1, H2. cbn.
    rewrite <- !app_assoc. split; reflexivity.
Qed.

(** Splitting at the separator distributes over a join at the separator. *)
Lemma split_on_sep sep (a b : text) : forall cur,
  exists pre last,
    split_on sep cur a = pre ++ [last] /\
    split_on sep cur (a ++ sep :: b) = pre ++ last :: split_on sep [] b.
Proof.
  induction a as [|c a IH]; intros cur.
  - exists [], (rev cur). cbn. unfold ch_eqb. rewrite Ascii.eqb_refl.
    split; reflexivity.
  - cbn. destruct (ch_eqb c sep).
    + destruct (IH []) as (pre & last & H1 & H2).
      exists (rev cur :: pre), last. rewrite H1, H2. split; reflexivity.
    + destruct (IH (c :: cur)) as (pre & last & H1 & H2).
      exists pre, last. split; assumption.
Qed.

Lemma add_admin_ids_app (l1 l2 : list text) : forall ids invalid,
  add_admin_ids (l1 ++ l2) ids invalid =
  add_admin_ids l2 (fst (add_admin_ids l1 ids invalid))
                   (snd (add_admin_ids l1 ids invalid)).
Proof.
  induction l1 as [|t l1 IH]; intros ids invalid; cbn; [reflexivity|].
  destruct (strip t) as [|c s]; [apply IH|].
  destruct (int_of_str (c :: s)); apply IH.
Qed.

(** The loop only adds to what it is given. *)
Lemma add_admin_ids_acc (l : list text) : forall ids invalid,
  add_admin_ids l ids invalid =
  (ids ∪ fst (add_admin_ids l ∅ []), invalid ++ snd (add_admin_ids l ∅ [])).
Proof.
  induction l as [|t l IH]; intros ids invalid; cbn.
  - rewrite app_nil_r, (right_id_L ∅ (∪)). reflexivity.
  - destruct (strip t) as [|c s]; [apply IH|].
    destruct (int_of_str (c :: s)) as [n|].
    + rewrite (IH (ids ∪ {[n]})), (IH (∅ ∪ {[n]})). cbn.
      rewrite (left_id_L ∅ (∪)), (assoc_L (∪)). reflexivity.
    + rewrite (IH ids (invalid ++ [c :: s])), (IH ∅ ([] ++ [c :: s])). cbn.
      rewrite (left_id_L ∅ (∪)), <- app_assoc. reflexivity.
Qed.

End Settings.

Section AdminIds.

Lemma admin_user_ids_split (s : text) :
  admin_user_ids (Some s) = add_admin_ids (split "," s) ∅ [].
Proof. destruct s; reflexivity. Qed.

Lemma split_joined (a b : text) :
  split "," (a ++ ","%char :: b) = split "," a ++ split "," b.
Proof.
  unfold split. destruct (split_on_sep "," a b []) as (pre & last & -> & ->).
  rewrite <- app_assoc. reflexivity.
Qed.

Lemma digit_not_comma c : is_digit c = true -> ch_eqb c "," = false.
Proof.
  unfold is_digit, ch_eqb. intros H.
  apply andb_true_iff in H as [H1 H2]. apply Nat.leb_le in H1.
  apply Ascii.eqb_neq. intros ->. vm_compute in H1. lia.
Qed.

Lemma str_of_int_no_comma n :
  Forall (fun c => ch_eqb c "," = false) (str_of_int n).
Proof.
  unfold str_of_int. destruct (Z.ltb_spec n 0).
  - destruct (dec_spec (- n)) as (_ & Hd & _); [lia|].
    constructor; [reflexivity|].
    eapply Forall_impl; [exact Hd | apply digit_not_comma].
  - destruct (dec_spec n) as (_ & Hd & _); [lia|].
    eapply Forall_impl; [exact Hd | apply digit_not_comma].
Qed.

Lemma split_join_commas (ids : list Z) :
  ids <> [] ->
  split "," (join_commas (map str_of_int ids)) = map str_of_int ids.
Proof.
  induction ids as [|n ids IH]; [congruence|]. intros _.
  destruct ids as [|m ids].
  - cbn. unfold split.
    destruct (split_on_app "," (str_of_int n) [] []) as [_ ->];
      [apply str_of_int_no_comma | reflexivity].
  - change (join_commas (map str_of_int (n :: m :: ids)))
      with (str_of_int n ++ ","%char :: join_commas (map str_of_int (m :: ids))).
    unfold split in *.
    destruct (split_on_app "," (str_of_int n) []
                (join_commas (map str_of_int (m :: ids)))) as [-> _];
      [apply str_of_int_no_comma|].
    rewrite IH by discriminate. reflexivity.
Qed.

Lemma add_admin_ids_printed (ids : list Z) :
  add_admin_ids (map str_of_int ids) ∅ [] = (list_to_set ids, []).
Proof.
  induction ids as [|n ids IH]; [reflexivity|].
  cbn [map add_admin_ids].
  destruct (str_of_int_plain n) as [Hp Hne].
  rewrite strip_plain by exact Hp.
  destruct (str_of_int n) as [|c s] eqn:Hs; [congruence|].
  rewrite <- Hs, int_of_str_of_int, add_admin_ids_acc, IH. cbn.
  rewrite (left_id_L ∅ (∪)). reflexivity.
Qed.

End AdminIds.

(** X16. [ADMIN_USER_IDS] read from a comma-separated list of integers
    printed in decimal is the set of those integers, and no token is
    reported as invalid. *)
Theorem admin_ids_read_back (ids : list Z) :
  ids <> [] -> Forall (fun n => Z.abs n < 2 ^ 63) ids ->
  admin_user_ids (Some (join_commas (map str_of_int ids)))
    = (list_to_set ids, []).
Proof.
  intros Hne _.
  rewrite admin_user_ids_split, split_join_commas by exact Hne.
  apply add_admin_ids_printed.
Qed.

Lemma admin_ids_read_back_witness :
  Forall (fun n => Z.abs n < 2 ^ 63) [42; -7; 1001] /\
  admin_user_ids (Some (join_commas (map str_of_int [42; -7; 1001])))
    = (list_to_set [42; -7; 1001], []).
Proof.
  split; [repeat constructor|].
  apply (admin_ids_read_back [42; -7; 1001]).
  - discriminate.
  - repeat constructor.
Defined.

(** X17. [ADMIN_USER_IDS] token by token: the setting made of two texts
    joined by a comma gives the ids of the first together with the ids of
    the second, and reports the invalid tokens of the first followed by
    those of the second. So blank tokens add nothing, and an invalid token
    costs no other id. *)
Theorem admin_ids_of_joined_lists (a b : text) :
  admin_user_ids (Some (a ++ ","%char :: b)) =
    (fst (admin_user_ids (Some a)) ∪ fst (admin_user_ids (Some b)),
     snd (admin_user_ids (Some a)) ++ snd (admin_user_ids (Some b))).
Proof.
  rewrite !admin_user_ids_split, split_joined, add_admin_ids_app.
  rewrite add_admin_ids_acc. reflexivity.
Qed.
